(** * Retrieval-augmented chat pipeline: a shallow embedding

    The development follows the Python sources:
    - [src/utils/file_handler.py]          (text segmenter, [FileHandler.split_text])
    - [src/services/vector_service.py]     (in-memory vector index)
    - the Chroma-backed [VectorService]    (persistent vector index)
    - [RAGService]                         (ingestion, deletion, search)
    - [AIService] / [ChatService]          (completion, streaming, history)

    Python integers are unbounded, so they are [Z]; a [str] holding document
    text is a list of characters, which keeps slices and lengths close to the
    source; a [str] that is escaped, decoded or stored as a message is the
    list of its code points.  Loops that the source does not bound run on
    fuel; a result [OutOfFuel] means that the fuel ran out, never that the
    code returned. *)

From Stdlib Require Import ZArith List String Ascii Bool Lia QArith Sorted Permutation.
Import ListNotations.

Local Open Scope Z_scope.

(** ** Python values shared by the services *)

Module Py.

(** Exceptions the modelled code raises or lets through.  [ConfigError] is
    the error the specification names for the segmenter; no code path
    constructs it. *)
Inductive exn : Type :=
| ValueError (msg : string)
| AttributeError (msg : string)
| ProviderError (msg : string)
| ConfigError
| OverflowError (msg : string)
| UnicodeEncodeError (msg : string)
| RecursionError (msg : string).

(** [str(e)] as used for the [processing_error] column. *)
Definition str_of_exn (e : exn) : string :=
  match e with
  | ValueError msg | AttributeError msg | ProviderError msg
  | OverflowError msg | UnicodeEncodeError msg | RecursionError msg => msg
  | ConfigError => "ConfigError"%string
  end.

(** The three ways a call can end. *)
Inductive result (A : Type) : Type :=
| Ok (a : A)
| Err (e : exn)
| OutOfFuel.

Arguments Ok {A} a.
Arguments Err {A} e.
Arguments OutOfFuel {A}.

Definition bind {A B : Type} (r : result A) (k : A -> result B) : result B :=
  match r with
  | Ok a => k a
  | Err e => Err e
  | OutOfFuel => OutOfFuel
  end.

(** A document text. *)
Definition text : Type := list ascii.

Definition len {A : Type} (s : list A) : Z := Z.of_nat (List.length s).

(** Index normalisation of a slice bound: negative bounds count from the
    end, and every bound is clamped to [0, len]. *)
Definition clamp (n i : Z) : Z :=
  if i <? 0 then Z.max 0 (i + n) else Z.min i n.

(** [s[lo:hi]] *)
Definition slice {A : Type} (s : list A) (lo hi : Z) : list A :=
  let l := clamp (len s) lo in
  let h := clamp (len s) hi in
  firstn (Z.to_nat (h - l)) (skipn (Z.to_nat l) s).

(** A [str] whose characters matter: the list of its code points.  The
    code points of a Python string are below [0x110000]; those from
    [0xD800] to [0xDFFF] are the surrogates, a high one (up to [0xDBFF])
    or a low one. *)
Definition str : Type := list N.

Definition code_point (c : N) : bool := (c <? 0x110000)%N.

Definition high_surrogate (c : N) : bool :=
  ((0xD800 <=? c) && (c <=? 0xDBFF))%N.

Definition low_surrogate (c : N) : bool :=
  ((0xDC00 <=? c) && (c <=? 0xDFFF))%N.

Definition surrogate (c : N) : bool := high_surrogate c || low_surrogate c.

(** A string literal of the source. *)
Definition lit (s : string) : str :=
  map N_of_ascii (list_ascii_of_string s).

Definition str_eqb (a b : str) : bool :=
  if list_eq_dec N.eq_dec a b then true else false.

(** [s.startswith(prefix)] *)
Fixpoint startswith (s prefix : str) {struct prefix} : bool :=
  match prefix with
  | [] => true
  | p :: prefix' =>
      match s with
      | c :: s' => (N.eqb c p && startswith s' prefix')%bool
      | [] => false
      end
  end.

(** [sep.join(parts)] *)
Fixpoint join (sep : str) (parts : list str) : str :=
  match parts with
  | [] => []
  | [p] => p
  | p :: rest => p ++ sep ++ join sep rest
  end.

End Py.

Import Py.

(** ** Text segmenter: [FileHandler.split_text] *)

Module FileHandler.

Definition default_chunk_size : Z := 1000.
Definition default_overlap : Z := 200.

Section Split.
Context {A : Type}.

(** The [while start < len(text)] loop; [chunks] is the list built so far. *)
Fixpoint split_loop (fuel : nat) (text : list A) (chunk_size overlap : Z)
         (start : Z) (chunks : list (list A)) : result (list (list A)) :=
  match fuel with
  | O => OutOfFuel
  | S fuel' =>
      if start <? len text then
        split_loop fuel' text chunk_size overlap
                   (start + (chunk_size - overlap))
                   (chunks ++ [slice text start (start + chunk_size)])
      else Ok chunks
  end.

Definition split_text (fuel : nat) (text : list A) (chunk_size overlap : Z)
  : result (list (list A)) :=
  match text with
  | [] => Ok []
  | _ => split_loop fuel text chunk_size overlap 0 []
  end.

(** The half-open span [start, stop) of the window that starts at [start]. *)
Definition span (text : list A) (chunk_size start : Z) : Z * Z :=
  (start, Z.min (start + chunk_size) (len text)).

(** The window starts [0, step, 2*step, ...] below [len text]. *)
Definition starts (step : Z) (n : nat) : list Z :=
  map (fun i => Z.of_nat i * step) (seq 0 n).

(** Number of windows: [ceil(len / step)]. *)
Definition window_count (text : list A) (step : Z) : nat :=
  Z.to_nat ((len text + step - 1) / step).

End Split.

End FileHandler.

(** ** Shared record types *)

(** An embedding is a [List[float]]; its components are kept as rationals. *)
Definition Embedding : Type := list Q.

(** The metadata dictionary that [RAGService.process_document] attaches to a
    chunk. *)
Record Metadata : Type := {
  document_name : string;
  chunk_index : Z;
  md_user_id : string
}.

(** A Python [dict] keeps its keys in insertion order; an association list
    with one entry per key models it. *)
Module Dict.
Section Dict.
Context {V : Type}.

Definition t : Type := list (string * V).

Fixpoint get (d : t) (k : string) : option V :=
  match d with
  | [] => None
  | (k', v) :: d' => if String.eqb k' k then Some v else get d' k
  end.

Definition mem (d : t) (k : string) : bool :=
  match get d k with Some _ => true | None => false end.

(** [d[k] = f(d[k])] for a key that is present. *)
Fixpoint update (d : t) (k : string) (f : V -> V) : t :=
  match d with
  | [] => []
  | (k', v) :: d' =>
      if String.eqb k' k then (k', f v) :: d' else (k', v) :: update d' k f
  end.

(** [d[k] = v] for a key that is absent: the key goes last. *)
Definition add (d : t) (k : string) (v : V) : t := d ++ [(k, v)].

(** [del d[k]] *)
Fixpoint del (d : t) (k : string) : t :=
  match d with
  | [] => []
  | (k', v) :: d' => if String.eqb k' k then d' else (k', v) :: del d' k
  end.

Definition keys (d : t) : list string := map fst d.
Definition values (d : t) : list V := map snd d.
End Dict.
Arguments t V : clear implicits.
End Dict.

(** ** In-memory vector index: [src/services/vector_service.py] *)

Module VectorService.

Record Chunk : Type := {
  chunk_id : string;
  content : text;
  embedding : Embedding;
  metadata : Metadata
}.

(** [self.index]: document id -> list of chunks. *)
Definition Index : Type := Dict.t (list Chunk).

Record Hit : Type := {
  hit_document_id : string;
  hit_chunk_id : string;
  hit_content : text;
  hit_score : Q;
  hit_metadata : Metadata
}.

(** [self.index.setdefault(document_id, []).append({...})] *)
Definition add_chunk (index : Index) (document_id chunk_id : string)
           (content : text) (embedding : Embedding) (metadata : Metadata)
  : Index :=
  let c := {| chunk_id := chunk_id; content := content;
              embedding := embedding; metadata := metadata |} in
  if Dict.mem index document_id
  then Dict.update index document_id (fun l => l ++ [c])
  else Dict.add index document_id [c].

Definition delete_document (index : Index) (document_id : string) : Index :=
  if Dict.mem index document_id then Dict.del index document_id else index.

(** [self.index.get(did, [])] *)
Definition chunks_of (index : Index) (did : string) : list Chunk :=
  match Dict.get index did with Some l => l | None => [] end.

Definition hit_of (did : string) (c : Chunk) : Hit :=
  {| hit_document_id := did; hit_chunk_id := chunk_id c;
     hit_content := content c; hit_score := 1;
     hit_metadata := metadata c |}.

(** The stubbed search: every listed document contributes its first
    [limit] chunks, each with score [1.0]. *)
Definition search (index : Index) (query : string)
           (document_ids : option (list string)) (limit : Z) : list Hit :=
  let docs := match document_ids with
              | Some ids => ids
              | None => Dict.keys index
              end in
  flat_map (fun did => map (hit_of did) (slice (chunks_of index did) 0 limit))
           docs.

End VectorService.

(** ** Chroma-backed vector index *)

Module ChromaVectorService.

(** The metadata stored with an entry:
    [{"document_id": ..., "chunk_id": ..., **metadata}]. *)
Record EntryMeta : Type := {
  em_document_id : string;
  em_chunk_id : string;
  em_extra : Metadata
}.

Record Entry : Type := {
  entry_id : string;
  entry_embedding : Embedding;
  entry_document : text;
  entry_meta : EntryMeta
}.

(** The persistent collection, oldest entry first. *)
Definition Collection : Type := list Entry.

(** The [where] argument of [collection.query]:
    [{"document_id": {"$in": document_ids}}]. *)
Definition Where : Type := list string.

Record Hit : Type := {
  hit_chunk_id : string;
  hit_document_id : string;
  hit_document_name : string;
  hit_content : text;
  hit_score : Q
}.

(** The service object: [self.collection] is [None] until [initialize]
    has run; the entries live in the persistent store either way. *)
Record Service : Type := {
  initialized : bool;
  store : Collection
}.

Definition initialize (s : Service) : Service :=
  {| initialized := true; store := store s |}.

Section Store.
(** The distance of the collection's space (cosine for a collection that
    [initialize] creates). *)
Variable distance : Embedding -> Embedding -> Q.

Definition allowed (w : option Where) (e : Entry) : bool :=
  match w with
  | None => true
  | Some ids =>
      existsb (String.eqb (em_document_id (entry_meta e))) ids
  end.

(** Insertion into a list ranked by ascending distance; an entry goes
    after the entries that are at most as far as it is. *)
Fixpoint rank_insert (q : Embedding) (e : Entry) (l : list Entry)
  : list Entry :=
  match l with
  | [] => [e]
  | e' :: l' =>
      if Qle_bool (distance q (entry_embedding e'))
                  (distance q (entry_embedding e))
      then e' :: rank_insert q e l'
      else e :: l
  end.

Definition rank (q : Embedding) (l : list Entry) : list Entry :=
  fold_left (fun acc e => rank_insert q e acc) l [].

(** Modelled from the spec: the query of the Durable Vector Store
    (section 4.3), which chromadb provides and the repository does not
    contain.  The allowed subset is selected first, ranked by ascending
    distance with earlier inserts first among equals, and cut to
    [n_results]; a request for no results is rejected. *)
Definition collection_query (c : Collection) (q : Embedding)
           (n_results : Z) (w : option Where) : result (list Entry) :=
  if n_results <=? 0 then
    Err (ValueError "Number of requested results cannot be negative, or zero.")
  else Ok (firstn (Z.to_nat n_results) (rank q (filter (allowed w) c))).

(** Modelled from the spec: [deleteByDocument] of the Durable Vector
    Store, [collection.delete(where={"document_id": document_id})]. *)
Definition collection_delete (c : Collection) (document_id : string)
  : Collection :=
  filter (fun e => negb (String.eqb (em_document_id (entry_meta e))
                                    document_id)) c.

(** [collection.add] of one entry. *)
Definition collection_add (c : Collection) (e : Entry) : Collection :=
  c ++ [e].

(** The query embedding comes from [ai_service.engine.embed]. *)
Variable engine_embed : string -> result Embedding.

Definition add_chunk (s : Service) (document_id chunk_id : string)
           (content : text) (embedding : Embedding) (metadata : Metadata)
  : result Service :=
  if initialized s then
    Ok {| initialized := true;
          store := collection_add (store s)
                     {| entry_id := chunk_id;
                        entry_embedding := embedding;
                        entry_document := content;
                        entry_meta :=
                          {| em_document_id := document_id;
                             em_chunk_id := chunk_id;
                             em_extra := metadata |} |} |}
  else Err (AttributeError "'NoneType' object has no attribute 'add'").

Definition format_hit (q : Embedding) (e : Entry) : Hit :=
  {| hit_chunk_id := entry_id e;
     hit_document_id := em_document_id (entry_meta e);
     hit_document_name := document_name (em_extra (entry_meta e));
     hit_content := entry_document e;
     hit_score := 1 - distance q (entry_embedding e) |}.

(** [where_filter] is set only when [document_ids] is truthy: [None] and
    the empty list both leave it [None]. *)
Definition where_filter (document_ids : option (list string))
  : option Where :=
  match document_ids with
  | None => None
  | Some [] => None
  | Some ids => Some ids
  end.

(** Any exception inside [search] is logged and turned into []. *)
Definition search (s : Service) (query : string)
           (document_ids : option (list string)) (limit : Z)
  : Service * list Hit :=
  let s := if initialized s then s else initialize s in
  match engine_embed query with
  | Ok q =>
      match collection_query (store s) q limit (where_filter document_ids) with
      | Ok es => (s, map (format_hit q) es)
      | _ => (s, [])
      end
  | _ => (s, [])
  end.

Definition delete_document (s : Service) (document_id : string) : Service :=
  let s := if initialized s then s else initialize s in
  {| initialized := initialized s;
     store := collection_delete (store s) document_id |}.

End Store.

Record Stats : Type := {
  total_chunks : Z;
  unique_documents : Z;
  collection_name : string
}.

(** [get_collection_stats]: the number of entries and the size of the set
    of their document ids. *)
Definition get_collection_stats (s : Service) : Service * Stats :=
  let s := if initialized s then s else initialize s in
  (s, {| total_chunks := len (store s);
         unique_documents :=
           len (nodup String.string_dec
                      (map (fun e => em_document_id (entry_meta e)) (store s)));
         collection_name := "documents" |}).

End ChromaVectorService.

(** ** Relational store *)

Module Db.

Definition timestamp : Type := Z.

Record DocumentRow : Type := {
  doc_id : string;
  doc_user_id : string;
  filename : string;
  filepath : string;
  filetype : string;
  size : Z;
  processed : bool;
  chunks_count : Z;
  processing_started : option timestamp;
  processed_at : option timestamp;
  processing_error : option string;
  uploaded_at : timestamp
}.

Record ChunkRow : Type := {
  chunk_row_id : string;
  chunk_document_id : string;
  chunk_content : text;
  chunk_row_index : Z;
  chunk_created_at : timestamp
}.

Record HistoryRow : Type := {
  h_user_id : string;
  h_conversation_id : string;
  h_role : string;
  h_message : str;
  h_model_used : option string;
  h_tokens_used : Z;
  h_created_at : timestamp
}.

Record ContextRow : Type := {
  c_conversation_id : string;
  c_document_id : string;
  c_chunk_id : string;
  c_relevance_score : Q
}.

(** The tables, each in row-id order, with the two sources of fresh values
    the services draw on: the clock behind [datetime.utcnow()] and the
    generator behind [uuid.uuid4()].  Generated ids are taken to be fresh,
    so no primary-key conflict arises. *)
Record t : Type := {
  documents : list DocumentRow;
  document_chunks : list ChunkRow;
  chat_history : list HistoryRow;
  chat_context : list ContextRow;
  clock : timestamp;
  uuids : nat
}.

Definition utcnow (db : t) : timestamp * t :=
  (clock db,
   {| documents := documents db; document_chunks := document_chunks db;
      chat_history := chat_history db; chat_context := chat_context db;
      clock := clock db + 1; uuids := uuids db |}).

Definition with_documents (db : t) (ds : list DocumentRow) : t :=
  {| documents := ds; document_chunks := document_chunks db;
     chat_history := chat_history db; chat_context := chat_context db;
     clock := clock db; uuids := uuids db |}.

Definition with_document_chunks (db : t) (cs : list ChunkRow) : t :=
  {| documents := documents db; document_chunks := cs;
     chat_history := chat_history db; chat_context := chat_context db;
     clock := clock db; uuids := uuids db |}.

Definition with_chat_history (db : t) (hs : list HistoryRow) : t :=
  {| documents := documents db; document_chunks := document_chunks db;
     chat_history := hs; chat_context := chat_context db;
     clock := clock db; uuids := uuids db |}.

Definition with_chat_context (db : t) (cs : list ContextRow) : t :=
  {| documents := documents db; document_chunks := document_chunks db;
     chat_history := chat_history db; chat_context := cs;
     clock := clock db; uuids := uuids db |}.

Section Uuid.
(** The [n]-th value of [str(uuid.uuid4())]. *)
Variable uuid_of : nat -> string.

Definition uuid4 (db : t) : string * t :=
  (uuid_of (uuids db),
   {| documents := documents db; document_chunks := document_chunks db;
      chat_history := chat_history db; chat_context := chat_context db;
      clock := clock db; uuids := S (uuids db) |}).
End Uuid.

(** [UPDATE documents SET ... WHERE id = ?] *)
Definition update_document (db : t) (id : string)
           (f : DocumentRow -> DocumentRow) : t :=
  with_documents db
    (map (fun d => if String.eqb (doc_id d) id then f d else d) (documents db)).

Definition set_processing_started (ts : timestamp) (d : DocumentRow)
  : DocumentRow :=
  {| doc_id := doc_id d; doc_user_id := doc_user_id d;
     filename := filename d; filepath := filepath d; filetype := filetype d;
     size := size d; processed := processed d;
     chunks_count := chunks_count d; processing_started := Some ts;
     processed_at := processed_at d; processing_error := processing_error d;
     uploaded_at := uploaded_at d |}.

Definition set_processed (n : Z) (ts : timestamp) (d : DocumentRow)
  : DocumentRow :=
  {| doc_id := doc_id d; doc_user_id := doc_user_id d;
     filename := filename d; filepath := filepath d; filetype := filetype d;
     size := size d; processed := true;
     chunks_count := n; processing_started := processing_started d;
     processed_at := Some ts; processing_error := processing_error d;
     uploaded_at := uploaded_at d |}.

Definition set_processing_error (msg : string) (d : DocumentRow)
  : DocumentRow :=
  {| doc_id := doc_id d; doc_user_id := doc_user_id d;
     filename := filename d; filepath := filepath d; filetype := filetype d;
     size := size d; processed := processed d;
     chunks_count := chunks_count d;
     processing_started := processing_started d;
     processed_at := processed_at d; processing_error := Some msg;
     uploaded_at := uploaded_at d |}.

(** [SELECT * FROM documents WHERE id = ? AND user_id = ?], first row. *)
Definition fetch_document (db : t) (id user : string) : option DocumentRow :=
  find (fun d => String.eqb (doc_id d) id && String.eqb (doc_user_id d) user)
       (documents db).

(** [SELECT * FROM document_chunks WHERE document_id = ?] *)
Definition chunks_of_document (db : t) (id : string) : list ChunkRow :=
  filter (fun c => String.eqb (chunk_document_id c) id) (document_chunks db).

End Db.

(** ** Query clauses shared by the read paths *)

Module Sql.

Section OrderBy.
Context {A : Type}.

(** [ahead r' r]: a row [r'] already placed stays ahead of the row [r]
    that comes after it in row-id order. *)
Variable ahead : A -> A -> bool.

Fixpoint place (r : A) (l : list A) : list A :=
  match l with
  | [] => [r]
  | r' :: l' => if ahead r' r then r' :: place r l' else r :: l
  end.

(** [ORDER BY]: rows that the ordering does not tell apart stay in row-id
    order. *)
Definition order_by (rows : list A) : list A :=
  fold_left (fun acc r => place r acc) rows [].

End OrderBy.

(** What [sqlite3] accepts as a statement parameter.  A Python [int] must
    fit SQLite's 64-bit INTEGER, else the bind raises [OverflowError]; a
    [str] is encoded as UTF-8, which raises [UnicodeEncodeError] for a
    surrogate. *)
Definition int64 (n : Z) : bool := (- 2 ^ 63 <=? n) && (n <? 2 ^ 63).

Definition utf8 (s : str) : bool := forallb (fun c => negb (surrogate c)) s.

Definition too_large : exn :=
  OverflowError "Python int too large to convert to SQLite INTEGER".

Definition not_utf8 : exn :=
  UnicodeEncodeError "'utf-8' codec can't encode character: surrogates not allowed".

(** [LIMIT ? OFFSET ?] with both values bound as parameters: a negative
    limit is no limit, a negative offset is no offset; a value outside
    the 64-bit range never reaches the query.  A count above the number
    of rows is cut to it, which keeps the model executable. *)
Definition limit_offset {A : Type} (limit offset : Z) (rows : list A)
  : result (list A) :=
  if int64 limit && int64 offset then
    let rest := skipn (Z.to_nat (Z.min offset (len rows))) rows in
    Ok (if limit <? 0 then rest
        else firstn (Z.to_nat (Z.min limit (len rest))) rest)
  else Err too_large.

End Sql.

(** ** Ingestion coordinator and retrieval: [RAGService] *)

Module RAGService.

(** What [RAGService] asks of [self.vector_service]; both vector services
    provide it. *)
Class VectorBackend : Type := {
  vstate : Type;
  vhit : Type;
  v_add_chunk :
    vstate -> string -> string -> text -> Embedding -> Metadata -> result vstate;
  v_delete_document : vstate -> string -> vstate;
  v_search :
    vstate -> string -> option (list string) -> Z -> vstate * list vhit
}.

#[export] Instance InMemory : VectorBackend := {
  vstate := VectorService.Index;
  vhit := VectorService.Hit;
  v_add_chunk := fun ix d c t e m => Ok (VectorService.add_chunk ix d c t e m);
  v_delete_document := VectorService.delete_document;
  v_search := fun ix q ids k => (ix, VectorService.search ix q ids k)
}.

Definition Chroma (distance : Embedding -> Embedding -> Q)
           (engine_embed : string -> result Embedding) : VectorBackend := {|
  vstate := ChromaVectorService.Service;
  vhit := ChromaVectorService.Hit;
  v_add_chunk := ChromaVectorService.add_chunk;
  v_delete_document := ChromaVectorService.delete_document;
  v_search := ChromaVectorService.search distance engine_embed
|}.

Record State {VB : VectorBackend} : Type := {
  db : Db.t;
  vector_service : vstate
}.

Section Service.
Context {VB : VectorBackend}.

(** [uuid.uuid4], [ai_service.embed] and [file_handler.extract_text]
    (the text of the file, empty when the file is missing). *)
Variable uuid_of : nat -> string.
Variable embed : text -> result Embedding.
Variable extract_text : string -> text.

Definition with_db (st : State) (d : Db.t) : State :=
  {| db := d; vector_service := vector_service st |}.

(** The body of [for i, chunk in enumerate(chunks)], from index [i] on.
    The state that comes back is the state at the point where the loop
    stopped: every statement before it has been committed. *)
Fixpoint ingest (st : State) (document : Db.DocumentRow)
         (document_id user_id : string) (i : Z) (chunks : list text)
  : State * result unit :=
  match chunks with
  | [] => (st, Ok tt)
  | chunk :: rest =>
      let (chunk_id, db1) := Db.uuid4 uuid_of (db st) in
      let st1 := with_db st db1 in
      match embed chunk with
      | Ok embedding =>
          match v_add_chunk (vector_service st1) document_id chunk_id chunk
                  embedding
                  {| document_name := Db.filename document;
                     chunk_index := i;
                     md_user_id := user_id |} with
          | Ok vs =>
              let (now, db2) := Db.utcnow db1 in
              let row := {| Db.chunk_row_id := chunk_id;
                            Db.chunk_document_id := document_id;
                            Db.chunk_content := chunk;
                            Db.chunk_row_index := i;
                            Db.chunk_created_at := now |} in
              let db3 := Db.with_document_chunks db2
                           (Db.document_chunks db2 ++ [row]) in
              ingest {| db := db3; vector_service := vs |} document
                     document_id user_id (i + 1) rest
          | Err e => (st1, Err e)
          | OutOfFuel => (st1, OutOfFuel)
          end
      | Err e => (st1, Err e)
      | OutOfFuel => (st1, OutOfFuel)
      end
  end.

(** The [try] block of [process_document]. *)
Definition process_attempt (fuel : nat) (st : State)
           (document_id user_id : string) : State * result unit :=
  match Db.fetch_document (db st) document_id user_id with
  | None => (st, Err (ValueError "Document not found"))
  | Some document =>
      let (now, db1) := Db.utcnow (db st) in
      let db2 := Db.update_document db1 document_id
                   (Db.set_processing_started now) in
      let st2 := with_db st db2 in
      let text := extract_text (Db.filepath document) in
      match FileHandler.split_text fuel text FileHandler.default_chunk_size
              FileHandler.default_overlap with
      | Ok chunks =>
          match ingest st2 document document_id user_id 0 chunks with
          | (st3, Ok _) =>
              let (now', db4) := Db.utcnow (db st3) in
              (with_db st3 (Db.update_document db4 document_id
                              (Db.set_processed (len chunks) now')),
               Ok tt)
          | (st3, r) => (st3, r)
          end
      | Err e => (st2, Err e)
      | OutOfFuel => (st2, OutOfFuel)
      end
  end.

(** [process_document]: an exception of the attempt is absorbed into the
    [processing_error] column. *)
Definition process_document (fuel : nat) (st : State)
           (document_id user_id : string) : result State :=
  match process_attempt fuel st document_id user_id with
  | (st', Ok _) => Ok st'
  | (st', Err e) =>
      Ok (with_db st' (Db.update_document (db st') document_id
                         (Db.set_processing_error (str_of_exn e))))
  | (_, OutOfFuel) => OutOfFuel
  end.

Definition owned_by (document_id user_id : string) (d : Db.DocumentRow)
  : bool :=
  String.eqb (Db.doc_id d) document_id && String.eqb (Db.doc_user_id d) user_id.

(** [delete_document]: the boolean is [result.rowcount > 0] of the last
    statement. *)
Definition delete_document (st : State) (document_id user_id : string)
  : bool * State :=
  let vs := v_delete_document (vector_service st) document_id in
  let db1 := Db.with_document_chunks (db st)
               (filter (fun c => negb (String.eqb (Db.chunk_document_id c)
                                                  document_id))
                       (Db.document_chunks (db st))) in
  let gone := filter (owned_by document_id user_id) (Db.documents db1) in
  let kept := filter (fun d => negb (owned_by document_id user_id d))
                     (Db.documents db1) in
  (0 <? len gone,
   {| db := Db.with_documents db1 kept; vector_service := vs |}).

(** [search_documents]: the ids of the user's processed documents are the
    filter handed to the vector service. *)
Definition user_document_ids (d : Db.t) (user_id : string) : list string :=
  map Db.doc_id
      (filter (fun r => String.eqb (Db.doc_user_id r) user_id && Db.processed r)
              (Db.documents d)).

Definition search_documents (st : State) (query user_id : string)
           (limit : Z) : State * list vhit :=
  let (vs, hits) := v_search (vector_service st) query
                      (Some (user_document_ids (db st) user_id)) limit in
  ({| db := db st; vector_service := vs |}, hits).

(** [get_document]: the row, for its owner only. *)
Definition get_document (st : State) (document_id user_id : string)
  : option Db.DocumentRow :=
  Db.fetch_document (db st) document_id user_id.

(** [list_documents]: the user's documents, newest upload first; [] when
    the query raises. *)
Definition list_documents (st : State) (user_id : string)
           (limit offset : Z) (processed_only : bool)
  : list Db.DocumentRow :=
  match Sql.limit_offset limit offset
          (Sql.order_by
             (fun r' r => Db.uploaded_at r <=? Db.uploaded_at r')
             (filter (fun r => String.eqb (Db.doc_user_id r) user_id
                               && (if processed_only then Db.processed r
                                   else true))
                     (Db.documents (db st)))) with
  | Ok rows => rows
  | _ => []
  end.

(** [get_document_chunks]: nothing unless the document belongs to the
    user; else its rows by ascending chunk index; [] when the query
    raises. *)
Definition get_document_chunks (st : State) (document_id user_id : string)
           (limit offset : Z) : list Db.ChunkRow :=
  match get_document st document_id user_id with
  | None => []
  | Some _ =>
      match Sql.limit_offset limit offset
              (Sql.order_by
                 (fun r' r => Db.chunk_row_index r' <=? Db.chunk_row_index r)
                 (Db.chunks_of_document (db st) document_id)) with
      | Ok rows => rows
      | _ => []
      end
  end.

(** [file_path.stat().st_size] and [file_path.suffix.lower()]. *)
Variable stat_size : string -> result Z.
Variable suffix_lower : string -> string.

(** [add_document]: the new id, the store with the new row, and the
    processing task handed to the event loop when [process_now] is set
    (the document id and user id it will run with).  A failing [stat]
    is re-raised after the id has been drawn. *)
Definition add_document (st : State) (filename filepath user_id : string)
           (process_now : bool)
  : State * result (string * option (string * string)) :=
  let (document_id, db1) := Db.uuid4 uuid_of (db st) in
  match stat_size filepath with
  | Ok file_size =>
      let (now, db2) := Db.utcnow db1 in
      let row := {| Db.doc_id := document_id; Db.doc_user_id := user_id;
                    Db.filename := filename; Db.filepath := filepath;
                    Db.filetype := suffix_lower filepath;
                    Db.size := file_size; Db.processed := false;
                    Db.chunks_count := 0; Db.processing_started := None;
                    Db.processed_at := None; Db.processing_error := None;
                    Db.uploaded_at := now |} in
      (with_db st (Db.with_documents db2 (Db.documents db2 ++ [row])),
       Ok (document_id,
           if process_now then Some (document_id, user_id) else None))
  | Err e => (with_db st db1, Err e)
  | OutOfFuel => (with_db st db1, OutOfFuel)
  end.

End Service.

End RAGService.

(** ** The JSON text of a frame: [json.dumps] and [json.loads]

    Modelled from CPython's [json] package with its default settings
    ([ensure_ascii], strict strings, the C scanner).  A text is a [str],
    the list of its code points.  The value of a number is never used by
    the code that is modelled, so a number keeps its literal. *)

Module Json.

#[warnings="-register-all"]
Inductive value : Type :=
| Null
| Bool (b : bool)
| Num (literal : str)
| Str (s : str)
| Arr (items : list value)
| Obj (members : list (str * value)).

Definition dquote : N := 34.
Definition backslash : N := 92.
Definition lf : N := 10.

(** [c] is the ASCII character [a]. *)
Definition is_char (c : N) (a : ascii) : bool := N.eqb c (N_of_ascii a).

Definition hex_digit (n : N) : N :=
  (if n <? 10 then 48 + n else 87 + n)%N.

Definition hex_value (c : N) : option N :=
  (if (48 <=? c) && (c <=? 57) then Some (c - 48)
   else if (97 <=? c) && (c <=? 102) then Some (c - 87)
   else if (65 <=? c) && (c <=? 70) then Some (c - 55)
   else None)%N.

(** [\uXXXX] with lower-case digits. *)
Definition u_escape (n : N) : str :=
  [backslash; N_of_ascii "u";
   hex_digit (n / 4096 mod 16); hex_digit (n / 256 mod 16);
   hex_digit (n / 16 mod 16); hex_digit (n mod 16)]%N.

(** One character of a string literal, as [json.dumps] writes it with
    [ensure_ascii]: a character above [0xFFFF] becomes a surrogate
    pair. *)
Definition escape_char (c : N) : str :=
  (if c =? 34 then [backslash; dquote]
   else if c =? 92 then [backslash; backslash]
   else if c =? 10 then [backslash; N_of_ascii "n"]
   else if c =? 13 then [backslash; N_of_ascii "r"]
   else if c =? 9 then [backslash; N_of_ascii "t"]
   else if c =? 8 then [backslash; N_of_ascii "b"]
   else if c =? 12 then [backslash; N_of_ascii "f"]
   else if (32 <=? c) && (c <=? 126) then [c]
   else if c <? 0x10000 then u_escape c
   else u_escape (0xD800 + (c - 0x10000) / 1024 mod 1024)
          ++ u_escape (0xDC00 + (c - 0x10000) mod 1024))%N.

Definition escape (s : str) : str := flat_map escape_char s.

Definition dumps_string (s : str) : str := dquote :: escape s ++ [dquote].

Fixpoint dumps (v : value) : str :=
  match v with
  | Null => lit "null"
  | Bool b => if b then lit "true" else lit "false"
  | Num literal => literal
  | Str s => dumps_string s
  | Arr items =>
      lit "[" ++ (fix items_text (l : list value) : str :=
                    match l with
                    | [] => []
                    | x :: l' =>
                        match l' with
                        | [] => dumps x
                        | _ => dumps x ++ lit ", " ++ items_text l'
                        end
                    end) items ++ lit "]"
  | Obj members =>
      lit "{" ++ (fix members_text (l : list (str * value)) : str :=
                    match l with
                    | [] => []
                    | (k, x) :: l' =>
                        match l' with
                        | [] => dumps_string k ++ lit ": " ++ dumps x
                        | _ => dumps_string k ++ lit ": " ++ dumps x
                                 ++ lit ", " ++ members_text l'
                        end
                    end) members ++ lit "}"
  end.

(** [JSONDecodeError] is a [ValueError]. *)
Definition decode_error (msg : string) : exn := ValueError msg.

Definition is_ws (c : N) : bool :=
  (N.eqb c 32 || N.eqb c 9 || N.eqb c 10 || N.eqb c 13)%bool.

Fixpoint skip_ws (s : str) : str :=
  match s with
  | c :: s' => if is_ws c then skip_ws s' else s
  | [] => s
  end.

Definition simple_escape (c : N) : option N :=
  if is_char c "034" then Some dquote
  else if is_char c "\" then Some backslash
  else if is_char c "/" then Some (N_of_ascii "/")
  else if is_char c "n" then Some lf
  else if is_char c "r" then Some 13%N
  else if is_char c "t" then Some 9%N
  else if is_char c "b" then Some 8%N
  else if is_char c "f" then Some 12%N
  else None.

Definition hex4 (a b c d : N) : option N :=
  match hex_value a, hex_value b, hex_value c, hex_value d with
  | Some x, Some y, Some z, Some w => Some (((x * 16 + y) * 16 + z) * 16 + w)%N
  | _, _, _, _ => None
  end.

Definition join_surrogates (high low : N) : N :=
  (0x10000 + (high - 0xD800) * 1024 + (low - 0xDC00))%N.

Definition cons_char (c : N) (r : option (str * str)) : option (str * str) :=
  match r with
  | Some (s, rest) => Some (c :: s, rest)
  | None => None
  end.

(** The body of a string literal, after its opening quote: the decoded
    string and the text after the closing quote.  An escaped high
    surrogate that is followed by an escaped low surrogate is joined with
    it into one character; a raw control character is rejected. *)
Fixpoint scan_string (s : str) : option (str * str) :=
  match s with
  | [] => None
  | c :: s' =>
      if N.eqb c dquote then Some ([], s')
      else if N.eqb c backslash then
        match s' with
        | e :: s'' =>
            match simple_escape e with
            | Some ch => cons_char ch (scan_string s'')
            | None =>
                if is_char e "u" then
                  match s'' with
                  | h1 :: h2 :: h3 :: h4 :: s3 =>
                      match hex4 h1 h2 h3 h4 with
                      | Some n =>
                          match s3 with
                          | b :: u :: l1 :: l2 :: l3 :: l4 :: s4 =>
                              if high_surrogate n && N.eqb b backslash
                                 && is_char u "u"
                              then
                                match hex4 l1 l2 l3 l4 with
                                | Some m =>
                                    if low_surrogate m
                                    then cons_char (join_surrogates n m)
                                                   (scan_string s4)
                                    else cons_char n (scan_string s3)
                                | None => None
                                end
                              else cons_char n (scan_string s3)
                          | _ => cons_char n (scan_string s3)
                          end
                      | None => None
                      end
                  | _ => None
                  end
                else None
            end
        | [] => None
        end
      else if (c <? 32)%N then None
      else cons_char c (scan_string s')
  end.

Definition literal (word : string) (v : value) (s : str)
  : result (value * str) :=
  if startswith s (lit word)
  then Ok (v, skipn (String.length word) s)
  else Err (decode_error "Expecting value").

Definition is_digit (c : N) : bool := ((48 <=? c) && (c <=? 57))%N.

(** The longest run of digits at the head of [s], and what follows it. *)
Fixpoint digits (s : str) : str * str :=
  match s with
  | c :: s' =>
      if is_digit c then let (ds, rest) := digits s' in (c :: ds, rest)
      else ([], s)
  | [] => ([], s)
  end.

(** [0], or a digit from 1 to 9 and the digits after it. *)
Definition integer_part (s : str) : option (str * str) :=
  match s with
  | c :: s' =>
      if is_char c "0" then Some ([c], s')
      else if is_digit c then let (ds, rest) := digits s' in Some (c :: ds, rest)
      else None
  | [] => None
  end.

(** A point and at least one digit, or nothing. *)
Definition fraction_part (s : str) : str * str :=
  match s with
  | c :: s' =>
      if is_char c "." then
        match digits s' with
        | ([], _) => ([], s)
        | (ds, rest) => (c :: ds, rest)
        end
      else ([], s)
  | [] => ([], s)
  end.

(** [e] or [E], an optional sign and at least one digit, or nothing. *)
Definition exponent_part (s : str) : str * str :=
  match s with
  | e :: s1 =>
      if is_char e "e" || is_char e "E" then
        let (sign, s2) :=
          match s1 with
          | c :: s1' => if is_char c "+" || is_char c "-" then ([c], s1') else ([], s1)
          | [] => ([], s1)
          end in
        match digits s2 with
        | ([], _) => ([], s)
        | (ds, rest) => (e :: sign ++ ds, rest)
        end
      else ([], s)
  | [] => ([], s)
  end.

(** [sys.int_info.default_max_str_digits] of CPython 3.11 and later: the
    conversion of a longer integer literal raises [ValueError]. *)
Definition max_str_digits : nat := 4300.

Definition number (s : str) : result (value * str) :=
  let (sign, s1) :=
    match s with
    | c :: s' => if is_char c "-" then ([c], s') else ([], s)
    | [] => ([], s)
    end in
  match integer_part s1 with
  | None => Err (decode_error "Expecting value")
  | Some (int, s2) =>
      let (frac, s3) := fraction_part s2 in
      let (exp, s4) := exponent_part s3 in
      match frac, exp with
      | [], [] =>
          if Nat.ltb max_str_digits (List.length int)
          then Err (ValueError
                      "Exceeds the limit (4300 digits) for integer string conversion")
          else Ok (Num (sign ++ int), s4)
      | _, _ => Ok (Num (sign ++ int ++ frac ++ exp), s4)
      end
  end.

Definition too_deep : exn :=
  RecursionError "maximum recursion depth exceeded while decoding a JSON document".

(** The scanner.  [room] is the number of nested arrays and objects that
    the interpreter can still enter before it raises [RecursionError];
    [fuel] bounds the run of the model. *)
Fixpoint parse_value (fuel room : nat) (s : str) {struct fuel}
  : result (value * str) :=
  match fuel with
  | O => OutOfFuel
  | S fuel' =>
      match s with
      | [] => Err (decode_error "Expecting value")
      | c :: s' =>
          if N.eqb c dquote then
            match scan_string s' with
            | Some (x, rest) => Ok (Str x, rest)
            | None => Err (decode_error "Invalid string")
            end
          else if is_char c "{" then
            match room with
            | O => Err too_deep
            | S room' =>
                match skip_ws s' with
                | c' :: rest =>
                    if is_char c' "}" then Ok (Obj [], rest)
                    else parse_members fuel' room' (c' :: rest) []
                | [] =>
                    Err (decode_error
                           "Expecting property name enclosed in double quotes")
                end
            end
          else if is_char c "[" then
            match room with
            | O => Err too_deep
            | S room' =>
                match skip_ws s' with
                | c' :: rest =>
                    if is_char c' "]" then Ok (Arr [], rest)
                    else parse_items fuel' room' (c' :: rest) []
                | [] => Err (decode_error "Expecting value")
                end
            end
          else if is_char c "n" then literal "null" Null s
          else if is_char c "t" then literal "true" (Bool true) s
          else if is_char c "f" then literal "false" (Bool false) s
          else if is_char c "N" then literal "NaN" (Num (lit "NaN")) s
          else if is_char c "I" then literal "Infinity" (Num (lit "Infinity")) s
          else if is_char c "-" && startswith s (lit "-Infinity")
          then literal "-Infinity" (Num (lit "-Infinity")) s
          else number s
      end
  end

with parse_items (fuel room : nat) (s : str) (acc : list value)
                 {struct fuel} : result (value * str) :=
  match fuel with
  | O => OutOfFuel
  | S fuel' =>
      match parse_value fuel' room s with
      | Ok (v, rest) =>
          match skip_ws rest with
          | c :: rest' =>
              if is_char c "," then
                parse_items fuel' room (skip_ws rest') (acc ++ [v])
              else if is_char c "]" then Ok (Arr (acc ++ [v]), rest')
              else Err (decode_error "Expecting ',' delimiter")
          | [] => Err (decode_error "Expecting ',' delimiter")
          end
      | Err e => Err e
      | OutOfFuel => OutOfFuel
      end
  end

with parse_members (fuel room : nat) (s : str) (acc : list (str * value))
                   {struct fuel} : result (value * str) :=
  match fuel with
  | O => OutOfFuel
  | S fuel' =>
      match s with
      | c :: s' =>
          if N.eqb c dquote then
            match scan_string s' with
            | Some (k, rest) =>
                match skip_ws rest with
                | c' :: rest' =>
                    if is_char c' ":" then
                      match parse_value fuel' room (skip_ws rest') with
                      | Ok (v, rest2) =>
                          match skip_ws rest2 with
                          | c'' :: rest3 =>
                              if is_char c'' "," then
                                parse_members fuel' room (skip_ws rest3)
                                              (acc ++ [(k, v)])
                              else if is_char c'' "}" then
                                Ok (Obj (acc ++ [(k, v)]), rest3)
                              else Err (decode_error "Expecting ',' delimiter")
                          | [] => Err (decode_error "Expecting ',' delimiter")
                          end
                      | Err e => Err e
                      | OutOfFuel => OutOfFuel
                      end
                    else Err (decode_error "Expecting ':' delimiter")
                | [] => Err (decode_error "Expecting ':' delimiter")
                end
            | None => Err (decode_error "Invalid string")
            end
          else Err (decode_error
                      "Expecting property name enclosed in double quotes")
      | [] =>
          Err (decode_error "Expecting property name enclosed in double quotes")
      end
  end.

(** [json.loads]: a leading byte order mark is rejected, white space may
    surround the value, and nothing else may follow it. *)
Definition loads (room : nat) (s : str) : result value :=
  if startswith s [0xFEFF%N] then Err (decode_error "Unexpected UTF-8 BOM")
  else
    match parse_value (2 * List.length s + 2) room (skip_ws s) with
    | Ok (v, rest) =>
        match skip_ws rest with
        | [] => Ok v
        | _ => Err (decode_error "Extra data")
        end
    | Err e => Err e
    | OutOfFuel => OutOfFuel
    end.

(** [d.get(key, default)] on a decoded object: the last member of that
    name wins, as in the [dict] that [json.loads] builds. *)
Fixpoint get (members : list (str * value)) (key : str)
         (default : value) : value :=
  match members with
  | [] => default
  | (k, v) :: rest =>
      if str_eqb k key then get rest key v else get rest key default
  end.

End Json.

(** ** Completion: [AIService] over an engine *)

Module AIService.

Local Open Scope string_scope.

Record Message : Type := {
  role : string;
  content : str
}.

(** The keyword arguments that [ChatService] passes on. *)
Record Kwargs : Type := {
  model : option string;
  temperature : Q;
  max_tokens : Z
}.

(** The [AIEngine] interface.  A stream is the finite sequence of deltas
    that the engine yields before it completes. *)
Record Engine : Type := {
  generate : str -> Kwargs -> result str;
  stream_generate : str -> Kwargs -> list str
}.

Record Envelope : Type := {
  env_model : option string;
  env_role : string;
  env_content : str;
  env_finish_reason : string;
  prompt_tokens : Z;
  completion_tokens : Z;
  total_tokens : Z
}.

Definition newline : str := [Json.lf].

(** [_format_messages] *)
Definition format_message (m : Message) : list str :=
  if String.eqb (role m) "system" then [(lit "System: " ++ content m)%list]
  else if String.eqb (role m) "user" then [(lit "User: " ++ content m)%list]
  else if String.eqb (role m) "assistant"
  then [(lit "Assistant: " ++ content m)%list]
  else [].

Definition format_messages (messages : list Message) : str :=
  (join newline (flat_map format_message messages)
     ++ newline ++ lit "Assistant:")%list.

(** The characters at which [str.split()] splits. *)
Definition is_space (c : N) : bool :=
  (((9 <=? c) && (c <=? 13)) || ((28 <=? c) && (c <=? 32))
   || (c =? 0x85) || (c =? 0xA0) || (c =? 0x1680)
   || ((0x2000 <=? c) && (c <=? 0x200A))
   || (c =? 0x2028) || (c =? 0x2029) || (c =? 0x202F) || (c =? 0x205F)
   || (c =? 0x3000))%N.

(** [len(s.split())]: the number of maximal runs of non-space characters. *)
Fixpoint count_words (in_word : bool) (s : str) : Z :=
  match s with
  | [] => 0
  | c :: s' =>
      if is_space c then count_words false s'
      else if in_word then count_words true s'
      else 1 + count_words true s'
  end.

Definition word_count (s : str) : Z := count_words false s.

(** [chat_completion]; the [id] and [created] fields, which come from
    [hash] and the event-loop clock, are not kept. *)
Definition chat_completion (engine : Engine) (messages : list Message)
           (kwargs : Kwargs) : result Envelope :=
  let prompt := format_messages messages in
  bind (generate engine prompt kwargs) (fun response =>
    Ok {| env_model := model kwargs;
          env_role := "assistant";
          env_content := response;
          env_finish_reason := "stop";
          prompt_tokens := word_count prompt;
          completion_tokens := word_count response;
          total_tokens := word_count prompt + word_count response |}).

(** [{'choices': [{'delta': {'content': chunk}}]}] *)
Definition delta (chunk : str) : Json.value :=
  Json.Obj [(lit "choices",
             Json.Arr [Json.Obj [(lit "delta",
                                  Json.Obj [(lit "content",
                                             Json.Str chunk)])]])].

Definition frame (chunk : str) : str :=
  (lit "data: " ++ Json.dumps (delta chunk) ++ newline ++ newline)%list.

Definition done_frame : str := (lit "data: [DONE]" ++ newline ++ newline)%list.

(** [stream_chat_completion]: one frame per delta, then the end marker. *)
Definition stream_chat_completion (engine : Engine) (messages : list Message)
           (kwargs : Kwargs) : list str :=
  (map frame (stream_generate engine (format_messages messages) kwargs)
     ++ [done_frame])%list.

End AIService.

(** ** The mocked service of [src/core/ai_engine.py] *)

Module MockAIService.

Local Open Scope string_scope.

Definition chat_completion_content : str :=
  lit "This is a mocked chat completion response.".

Definition stream_chunks : list str :=
  [lit "This is "; lit "a streamed "; lit "mocked response."].

Definition chat_completion (messages : list AIService.Message)
           (kwargs : AIService.Kwargs) : result AIService.Envelope :=
  Ok {| AIService.env_model := AIService.model kwargs;
        AIService.env_role := "";
        AIService.env_content := chat_completion_content;
        AIService.env_finish_reason := "";
        AIService.prompt_tokens := 0;
        AIService.completion_tokens := 0;
        AIService.total_tokens := 0 |}.

Definition stream_chat_completion (messages : list AIService.Message)
           (kwargs : AIService.Kwargs) : list str :=
  map AIService.frame stream_chunks.

End MockAIService.

(** ** Completion orchestration and history: [ChatService] *)

Module ChatService.

Local Open Scope string_scope.

(** [data.get("choices", [{}])[0].get("delta", {}).get("content", "")];
    [None] when the expression raises or its value is not a string that
    can be appended. *)
Definition delta_content (data : Json.value) : option str :=
  match data with
  | Json.Obj members =>
      match Json.get members (lit "choices") (Json.Arr [Json.Obj []]) with
      | Json.Arr (Json.Obj choice :: _) =>
          match Json.get choice (lit "delta") (Json.Obj []) with
          | Json.Obj d =>
              match Json.get d (lit "content") (Json.Str []) with
              | Json.Str c => Some c
              | _ => None
              end
          | _ => None
          end
      | _ => None
      end
  | _ => None
  end.

(** [data != "[DONE]"] *)
Definition is_done (data : Json.value) : bool :=
  match data with
  | Json.Str s => str_eqb s (lit "[DONE]")
  | _ => false
  end.

(** The body of the [async for] loop after the [yield]: the new value of
    [full_response].  Whatever the [try] block raises is passed over. *)
Definition accumulate (room : nat) (full_response chunk : str) : result str :=
  if startswith chunk (lit "data: ") then
    match Json.loads room (skipn 6 chunk) with
    | Ok data =>
        if is_done data then Ok full_response
        else
          match delta_content data with
          | Some c => Ok (full_response ++ c)%list
          | None => Ok full_response
          end
    | Err _ => Ok full_response
    | OutOfFuel => OutOfFuel
    end
  else Ok full_response.

(** The loop over the frames. *)
Fixpoint accumulate_all (room : nat) (full_response : str)
         (chunks : list str) : result str :=
  match chunks with
  | [] => Ok full_response
  | chunk :: rest =>
      bind (accumulate room full_response chunk)
           (fun full => accumulate_all room full rest)
  end.

Section Service.
Variable uuid_of : nat -> string.

(** The two entry points of [ai_service] that the chat service calls. *)
Variable chat_completion :
  list AIService.Message -> AIService.Kwargs -> result AIService.Envelope.
Variable stream_chat_completion :
  list AIService.Message -> AIService.Kwargs -> list str.

(** The number of nested arrays and objects that [json.loads] can enter
    where [stream_completion] calls it, before the interpreter's
    recursion limit is reached. *)
Variable recursion_room : nat.

(** [INSERT INTO chat_history ...]: the bind raises for a message with a
    surrogate in it and for a token count outside the 64-bit range;
    a statement that ran is committed. *)
Definition insert_history (d : Db.t) (row : Db.HistoryRow) : result Db.t :=
  if negb (Sql.utf8 (Db.h_message row)) then Err Sql.not_utf8
  else if negb (Sql.int64 (Db.h_tokens_used row)) then Err Sql.too_large
  else Ok (Db.with_chat_history d (Db.chat_history d ++ [row])%list).

(** The loop over the user messages: the store it reached, and whether
    it ran to its end. *)
Fixpoint save_user_messages (d : Db.t) (user_id conversation_id : string)
         (model : option string) (messages : list AIService.Message)
  : Db.t * bool :=
  match messages with
  | [] => (d, true)
  | m :: rest =>
      if String.eqb (AIService.role m) "user" then
        let (now, d1) := Db.utcnow d in
        match insert_history d1
                {| Db.h_user_id := user_id;
                   Db.h_conversation_id := conversation_id;
                   Db.h_role := "user";
                   Db.h_message := AIService.content m;
                   Db.h_model_used := model;
                   Db.h_tokens_used := 0;
                   Db.h_created_at := now |} with
        | Ok d2 => save_user_messages d2 user_id conversation_id model rest
        | _ => (d1, false)
        end
      else save_user_messages d user_id conversation_id model rest
  end.

(** [save_to_history] without context sources: one conversation id, the
    user messages, then the assistant message.  An exception ends the
    function where it is raised and is logged, not passed on. *)
Definition save_to_history (d : Db.t) (user_id : string)
           (messages : list AIService.Message)
           (assistant_content : str) (tokens : Z)
           (model : option string) : Db.t :=
  let (conversation_id, d1) := Db.uuid4 uuid_of d in
  match save_user_messages d1 user_id conversation_id model messages with
  | (d2, true) =>
      let (now, d3) := Db.utcnow d2 in
      match insert_history d3
              {| Db.h_user_id := user_id;
                 Db.h_conversation_id := conversation_id;
                 Db.h_role := "assistant";
                 Db.h_message := assistant_content;
                 Db.h_model_used := model;
                 Db.h_tokens_used := tokens;
                 Db.h_created_at := now |} with
      | Ok d4 => d4
      | _ => d3
      end
  | (d2, false) => d2
  end.

Definition truthy (s : option string) : bool :=
  match s with
  | Some (String _ _) => true
  | _ => false
  end.

Definition create_completion (d : Db.t) (messages : list AIService.Message)
           (kwargs : AIService.Kwargs) (user_id : option string)
  : Db.t * result AIService.Envelope :=
  match chat_completion messages kwargs with
  | Ok response =>
      match user_id with
      | Some (String c u) =>
          (save_to_history d (String c u) messages
             (AIService.env_content response)
             (AIService.total_tokens response)
             (AIService.model kwargs),
           Ok response)
      | _ => (d, Ok response)
      end
  | r => (d, r)
  end.

Record Streamed : Type := {
  yielded : list str;
  full_response : str;
  history : Db.t
}.

(** [stream_completion], run until the upstream sequence completes:
    the frames handed to the caller, the accumulated text, and the store
    after the history write. *)
Definition stream_completion (d : Db.t) (messages : list AIService.Message)
           (kwargs : AIService.Kwargs) (user_id : option string)
  : result Streamed :=
  let frames := stream_chat_completion messages kwargs in
  bind (accumulate_all recursion_room [] frames) (fun full =>
    Ok {| yielded := frames;
          full_response := full;
          history :=
            match user_id, full with
            | Some (String c u), _ :: _ =>
                save_to_history d (String c u) messages full 0
                                (AIService.model kwargs)
            | _, _ => d
            end |}).

(** [ORDER BY created_at DESC]: rows with equal time stamps stay in
    row-id order. *)
Fixpoint insert_desc (r : Db.HistoryRow) (l : list Db.HistoryRow)
  : list Db.HistoryRow :=
  match l with
  | [] => [r]
  | r' :: l' =>
      if (Db.h_created_at r <=? Db.h_created_at r')%Z
      then r' :: insert_desc r l'
      else r :: l
  end.

Definition order_by_created_at_desc (rows : list Db.HistoryRow)
  : list Db.HistoryRow :=
  fold_left (fun acc r => insert_desc r acc) rows [].

(** [SELECT * FROM chat_history WHERE user_id = ? ORDER BY created_at DESC
    LIMIT ? OFFSET ?] *)
Definition select_history (d : Db.t) (user_id : string) (limit offset : Z)
  : result (list Db.HistoryRow) :=
  Sql.limit_offset limit offset
    (order_by_created_at_desc
       (filter (fun r => String.eqb (Db.h_user_id r) user_id)
               (Db.chat_history d))).

(** The rows that reach the grouping loop: none when the query raised. *)
Definition fetch_history (d : Db.t) (user_id : string) (limit offset : Z)
  : list Db.HistoryRow :=
  match select_history d user_id limit offset with
  | Ok rows => rows
  | _ => []
  end.

Record HistoryMessage : Type := {
  msg_role : string;
  msg_content : str;
  msg_timestamp : Db.timestamp
}.

Record Conversation : Type := {
  conversation_id : string;
  messages : list HistoryMessage;
  created_at : Db.timestamp
}.

Definition append_message (row : Db.HistoryRow) (c : Conversation)
  : Conversation :=
  {| conversation_id := conversation_id c;
     messages := (messages c ++
                  [{| msg_role := Db.h_role row;
                      msg_content := Db.h_message row;
                      msg_timestamp := Db.h_created_at row |}])%list;
     created_at := created_at c |}.

(** One iteration of [for row in rows]. *)
Definition group_row (conversations : Dict.t Conversation)
           (row : Db.HistoryRow) : Dict.t Conversation :=
  let conv_id := Db.h_conversation_id row in
  let conversations :=
    if Dict.mem conversations conv_id then conversations
    else Dict.add conversations conv_id
           {| conversation_id := conv_id; messages := [];
              created_at := Db.h_created_at row |} in
  Dict.update conversations conv_id (append_message row).

Definition group_rows (rows : list Db.HistoryRow) : list Conversation :=
  Dict.values (fold_left group_row rows []).

(** [get_history]: the fetched rows grouped by conversation; [] when the
    query raises. *)
Definition get_history (d : Db.t) (user_id : string) (limit offset : Z)
  : list Conversation :=
  match select_history d user_id limit offset with
  | Ok rows => group_rows rows
  | _ => []
  end.

(** [clear_history]: [DELETE FROM chat_history WHERE user_id = ?]. *)
Definition clear_history (d : Db.t) (user_id : string) : bool * Db.t :=
  (true,
   Db.with_chat_history d
     (filter (fun r => negb (String.eqb (Db.h_user_id r) user_id))
             (Db.chat_history d))).

End Service.

End ChatService.

(** ** The document routes

    A route answers with a body or raises [HTTPException]; only the
    status code of the exception is kept. *)

Module DocumentRoutes.

Inductive response (A : Type) : Type :=
| Success (body : A)
| HTTPException (status_code : Z).

Arguments Success {A} body.
Arguments HTTPException {A} status_code.

(** [except Exception as e: raise HTTPException(status_code=500, ...)]:
    [HTTPException] is an [Exception], so the handler also catches the one
    raised inside its own [try]. *)
Definition handle {A : Type} (r : response A) : response A :=
  match r with
  | Success body => Success body
  | HTTPException _ => HTTPException 500
  end.

Section Routes.
Context {VB : RAGService.VectorBackend}.

(** [GET /documents/{document_id}] *)
Definition get_document (st : RAGService.State) (document_id user_id : string)
  : response Db.DocumentRow :=
  handle
    match RAGService.get_document st document_id user_id with
    | Some document => Success document
    | None => HTTPException 404
    end.

(** [DELETE /documents/{document_id}]: the answer and the state after the
    call. *)
Definition delete_document (st : RAGService.State)
           (document_id user_id : string)
  : response string * RAGService.State :=
  let (success, st') := RAGService.delete_document st document_id user_id in
  (handle (if success then Success "Document deleted successfully"%string
           else HTTPException 404),
   st').

End Routes.

End DocumentRoutes.

(** * Properties of the text segmenter *)

Module SegmenterProps.

Import FileHandler.

Section Windows.
Context {A : Type}.
Implicit Types (text : list A) (chunks : list (list A)).

(** The windows the loop emits from [start] on, [k] of them. *)
Definition windows_from (text : list A) (chunk_size step start : Z) (k : nat)
  : list (list A) :=
  map (fun j => slice text (start + Z.of_nat j * step)
                      (start + Z.of_nat j * step + chunk_size))
      (seq 0 k).

Lemma windows_from_S text chunk_size step start k :
  windows_from text chunk_size step start (S k) =
  slice text start (start + chunk_size)
    :: windows_from text chunk_size step (start + step) k.
Proof.
  unfold windows_from. cbn [seq map].
  rewrite <- seq_shift, map_map. f_equal.
  - f_equal; lia.
  - apply map_ext. intros j. f_equal; lia.
Qed.

Lemma windows_from_length text chunk_size step start k :
  List.length (windows_from text chunk_size step start k) = k.
Proof. unfold windows_from. now rewrite length_map, length_seq. Qed.

(** The loop, once [k] is known to be the number of starts left. *)
Lemma split_loop_spec text chunk_size overlap :
  0 < chunk_size - overlap ->
  forall k fuel start chunks,
    (k < fuel)%nat ->
    len text <= start + Z.of_nat k * (chunk_size - overlap) ->
    (k <> O -> start + (Z.of_nat k - 1) * (chunk_size - overlap) < len text) ->
    split_loop fuel text chunk_size overlap start chunks =
    Ok (chunks ++ windows_from text chunk_size (chunk_size - overlap) start k).
Proof.
  intros Hstep. induction k as [|k IH]; intros fuel start chunks Hfuel Hup Hlow.
  - destruct fuel as [|fuel]; [lia|]. cbn [split_loop].
    destruct (Z.ltb_spec start (len text)); [lia|].
    unfold windows_from. cbn. now rewrite app_nil_r.
  - destruct fuel as [|fuel]; [lia|]. cbn [split_loop].
    assert (start < len text) by (specialize (Hlow ltac:(lia)); nia).
    destruct (Z.ltb_spec start (len text)); [|lia].
    rewrite IH; [| lia | lia |].
    + rewrite windows_from_S, <- app_assoc. reflexivity.
    + intros Hk. specialize (Hlow ltac:(lia)). lia.
Qed.

Lemma ceil_upper n step :
  0 < step -> 0 <= n -> n <= (n + step - 1) / step * step.
Proof.
  intros Hs Hn.
  pose proof (Z.div_mod (n + step - 1) step ltac:(lia)).
  pose proof (Z.mod_pos_bound (n + step - 1) step Hs). nia.
Qed.

Lemma ceil_lower n step :
  0 < step -> 0 < n -> ((n + step - 1) / step - 1) * step < n.
Proof.
  intros Hs Hn.
  pose proof (Z.div_mod (n + step - 1) step ltac:(lia)).
  pose proof (Z.mod_pos_bound (n + step - 1) step Hs). nia.
Qed.

Lemma ceil_nonneg n step : 0 < step -> 0 <= n -> 0 <= (n + step - 1) / step.
Proof. intros. apply Z.div_pos; lia. Qed.

Lemma window_count_le_length text step :
  0 < step -> (window_count text step <= List.length text)%nat.
Proof.
  intros Hs. unfold window_count.
  assert ((len text + step - 1) / step <= len text).
  { unfold len. set (n := Z.of_nat (List.length text)).
    assert (0 <= n) by lia.
    destruct (Z.eq_dec n 0) as [->|].
    - rewrite Z.div_small; lia.
    - apply Z.div_le_upper_bound; nia. }
  unfold len in *. lia.
Qed.

(** [split_text] in closed form, for a positive step. *)
Lemma split_text_windows text chunk_size overlap fuel :
  0 < chunk_size - overlap ->
  (List.length text < fuel)%nat ->
  split_text fuel text chunk_size overlap =
  Ok (windows_from text chunk_size (chunk_size - overlap) 0
                   (window_count text (chunk_size - overlap))).
Proof.
  intros Hs Hfuel. unfold split_text.
  destruct text as [|a text'] eqn:E.
  - unfold window_count, len. cbn [List.length Z.of_nat].
    replace ((0 + (chunk_size - overlap) - 1) / (chunk_size - overlap)) with 0.
    + reflexivity.
    + symmetry. apply Z.div_small. lia.
  - rewrite <- E in *. set (step := chunk_size - overlap) in *.
    assert (Hlen : 0 < len text) by (subst text; unfold len; cbn; lia).
    pose proof (window_count_le_length text step Hs).
    pose proof (ceil_nonneg (len text) step Hs ltac:(lia)).
    rewrite (split_loop_spec text chunk_size overlap Hs (window_count text step));
      unfold window_count in *; try lia.
    + reflexivity.
    + rewrite Z2Nat.id by lia. pose proof (ceil_upper (len text) step Hs). lia.
    + intros _. rewrite Z2Nat.id by lia.
      pose proof (ceil_lower (len text) step Hs). lia.
Qed.

Lemma windows_from_starts text chunk_size step k :
  windows_from text chunk_size step 0 k =
  map (fun s => slice text s (s + chunk_size)) (starts step k).
Proof.
  unfold windows_from, starts. rewrite map_map.
  apply map_ext. intros j. f_equal; lia.
Qed.

Lemma slice_len text lo hi :
  0 <= lo -> 0 <= hi ->
  len (slice text lo hi) =
  Z.max 0 (Z.min hi (len text) - Z.min lo (len text)).
Proof.
  intros Hlo Hhi. unfold slice, clamp, len.
  destruct (Z.ltb_spec lo 0); [lia|]. destruct (Z.ltb_spec hi 0); [lia|].
  rewrite length_firstn, length_skipn. lia.
Qed.

Lemma slice_whole text hi : len text <= hi -> slice text 0 hi = text.
Proof.
  intros H. unfold slice, clamp, len in *. cbn [Z.ltb Z.compare].
  destruct (Z.ltb_spec hi 0); [lia|].
  rewrite (Z.min_l 0) by lia. rewrite Z.min_r by lia.
  cbn [Z.to_nat skipn]. apply firstn_all2. lia.
Qed.

Lemma in_starts step n s :
  In s (starts step n) <-> exists i, (i < n)%nat /\ s = Z.of_nat i * step.
Proof.
  unfold starts. rewrite in_map_iff. split.
  - intros (i & <- & Hi). apply in_seq in Hi. exists i. split; [lia|reflexivity].
  - intros (i & Hi & ->). exists i. split; [reflexivity|]. apply in_seq. lia.
Qed.

(** A start is in range exactly when it is below the length. *)
Lemma window_count_spec text step i :
  0 < step ->
  (i < window_count text step)%nat <-> Z.of_nat i * step < len text.
Proof.
  intros Hs. unfold window_count.
  assert (Hn : 0 <= len text) by (unfold len; lia).
  pose proof (ceil_nonneg (len text) step Hs Hn) as Hq.
  pose proof (ceil_upper (len text) step Hs Hn) as Hu.
  split; intros H.
  - destruct (Z.eq_dec (len text) 0) as [E|E].
    + rewrite E in H. rewrite Z.div_small in H by lia. cbn in H. lia.
    + pose proof (ceil_lower (len text) step Hs ltac:(lia)). nia.
  - apply Nat2Z.inj_lt. rewrite Z2Nat.id by lia. nia.
Qed.

Lemma split_loop_no_error text chunk_size overlap e :
  forall fuel start chunks,
    split_loop fuel text chunk_size overlap start chunks <> Err e.
Proof.
  induction fuel as [|fuel IH]; intros start chunks; cbn [split_loop].
  - discriminate.
  - destruct (start <? len text); [apply IH | discriminate].
Qed.

Lemma split_text_no_error text chunk_size overlap fuel e :
  split_text fuel text chunk_size overlap <> Err e.
Proof.
  unfold split_text. destruct text; [discriminate|].
  apply split_loop_no_error.
Qed.

(** With a step that is not positive the loop never leaves a start that
    is not positive. *)
Lemma split_loop_stuck text chunk_size overlap :
  chunk_size - overlap <= 0 -> 0 < len text ->
  forall fuel start chunks,
    start <= 0 ->
    split_loop fuel text chunk_size overlap start chunks = OutOfFuel.
Proof.
  intros Hs Hlen. induction fuel as [|fuel IH]; intros start chunks Hstart;
    cbn [split_loop]; [reflexivity|].
  destruct (Z.ltb_spec start (len text)); [|lia].
  apply IH. lia.
Qed.

End Windows.

(** The chunk count as the specification gives it: [0] for the empty text,
    [ceil((len - overlap) / (size - overlap))] for a text longer than
    [size], else [1]. *)
Definition spec_chunk_count (n size overlap : Z) : Z :=
  if n =? 0 then 0
  else if size <? n
       then (n - overlap + (size - overlap) - 1) / (size - overlap)
       else 1.

Definition ascii_text (s : string) : text := list_ascii_of_string s.

(** C3, as amended.  For [0 <= overlap < chunk_size] the segmenter returns
    [ceil(len / (chunk_size - overlap))] chunks, which is [0] for the empty
    text; a text of length 2500 cut with size 1000 and overlap 200 gives
    four chunks over [0,1000), [800,1800), [1600,2500), [2400,2500), of
    lengths 1000, 1000, 900 and 100. *)
Theorem chunk_count_ceil_len_over_step :
  forall (A : Type) (text : list A) (chunk_size overlap : Z) (fuel : nat),
    0 <= overlap < chunk_size ->
    (List.length text < fuel)%nat ->
    exists chunks,
      split_text fuel text chunk_size overlap = Ok chunks /\
      len chunks =
        (len text + (chunk_size - overlap) - 1) / (chunk_size - overlap) /\
      (len text = 2500 -> chunk_size = 1000 -> overlap = 200 ->
       chunks = map (fun s => slice text s (s + 1000)) [0; 800; 1600; 2400] /\
       map (span text 1000) [0; 800; 1600; 2400] =
         [(0, 1000); (800, 1800); (1600, 2500); (2400, 2500)] /\
       map len chunks = [1000; 1000; 900; 100]).
Proof.
  intros A text chunk_size overlap fuel Hp Hfuel.
  assert (Hs : 0 < chunk_size - overlap) by lia.
  eexists. split; [apply split_text_windows; assumption|]. split.
  - unfold len at 1. rewrite windows_from_length. unfold window_count.
    rewrite Z2Nat.id; [reflexivity|].
    apply ceil_nonneg; [lia | unfold len; lia].
  - intros Hlen -> ->. unfold window_count. rewrite Hlen.
    change (Z.to_nat ((2500 + (1000 - 200) - 1) / (1000 - 200))) with 4%nat.
    rewrite windows_from_starts. change (starts (1000 - 200) 4) with [0; 800; 1600; 2400].
    split; [reflexivity|]. split.
    + unfold span. cbn [map]. rewrite Hlen. reflexivity.
    + cbn [map]. rewrite !slice_len by lia. rewrite Hlen. reflexivity.
Qed.

Lemma chunk_count_ceil_len_over_step_witness :
  exists chunks,
    split_text 8 (ascii_text "abcdefg") 3 1 = Ok chunks /\
    len chunks = 4.
Proof.
  destruct (chunk_count_ceil_len_over_step ascii (ascii_text "abcdefg") 3 1 8)
    as (chunks & Hrun & Hcount & _).
  - lia.
  - cbn. lia.
  - exists chunks. split; [exact Hrun | exact Hcount].
Defined.

(** The count that C3 states, for one call. *)
Definition spec_count_holds {A : Type} (text : list A) (chunk_size overlap : Z)
  : Prop :=
  forall fuel chunks,
    split_text fuel text chunk_size overlap = Ok chunks ->
    len chunks = spec_chunk_count (len text) chunk_size overlap.

(** C3 fails as stated: a text of length 2500 is cut into four chunks,
    where the formula of the specification gives three. *)
Lemma chunk_count_counterexample :
  ~ spec_count_holds (repeat "a"%char 2500) 1000 200.
Proof.
  intros H.
  specialize (H 5%nat _ eq_refl). vm_compute in H. discriminate H.
Qed.

(** C4, as amended.  For [chunk_size > 0] and [0 <= overlap < chunk_size]
    the chunks are the windows [text[s : s + chunk_size]] for the starts
    [s = 0, step, 2*step, ...] below [len text], with
    [step = chunk_size - overlap]; every position of the text lies in the
    span of a window; two consecutive windows share
    [min overlap (len text - s')] characters, where [s'] is the later start,
    which is [overlap] whenever the earlier window has full length; the
    empty text gives no chunk; a non-empty text of length at most [step]
    gives one chunk, the text itself. *)
Theorem windows_cover_text :
  forall (A : Type) (text : list A) (chunk_size overlap : Z) (fuel : nat),
    0 < chunk_size ->
    0 <= overlap < chunk_size ->
    (List.length text < fuel)%nat ->
    let step := chunk_size - overlap in
    let n := window_count text step in
    split_text fuel text chunk_size overlap =
      Ok (map (fun s => slice text s (s + chunk_size)) (starts step n)) /\
    (forall s, In s (starts step n) <->
               exists i, s = Z.of_nat i * step /\ s < len text) /\
    (forall p, 0 <= p < len text ->
               exists s, In s (starts step n) /\
                         fst (span text chunk_size s) <= p
                           < snd (span text chunk_size s)) /\
    (forall i, (S i < n)%nat ->
               let s := Z.of_nat i * step in
               let s' := Z.of_nat (S i) * step in
               snd (span text chunk_size s) - fst (span text chunk_size s')
                 = Z.min overlap (len text - s') /\
               (s + chunk_size <= len text ->
                snd (span text chunk_size s) - fst (span text chunk_size s')
                  = overlap)) /\
    (text = [] -> split_text fuel text chunk_size overlap = Ok []) /\
    (text <> [] -> len text <= step ->
     split_text fuel text chunk_size overlap = Ok [text]).
Proof.
  intros A text chunk_size overlap fuel Hsize Hov Hfuel step n.
  assert (Hs : 0 < step) by (subst step; lia).
  assert (Hrun : split_text fuel text chunk_size overlap =
                 Ok (map (fun s => slice text s (s + chunk_size)) (starts step n))).
  { subst step n. rewrite split_text_windows by assumption.
    now rewrite windows_from_starts. }
  split; [exact Hrun|]. split.
  { intros s. rewrite in_starts. split.
    - intros (i & Hi & ->). exists i. split; [reflexivity|].
      now apply window_count_spec.
    - intros (i & -> & Hi). exists i. split; [|reflexivity].
      now apply window_count_spec. }
  split.
  { intros p Hp.
    exists (Z.of_nat (Z.to_nat (p / step)) * step).
    assert (0 <= p / step) by (apply Z.div_pos; lia).
    pose proof (Z.div_mod p step ltac:(lia)).
    pose proof (Z.mod_pos_bound p step Hs).
    rewrite Z2Nat.id by lia. split.
    - apply in_starts. exists (Z.to_nat (p / step)). split.
      + apply window_count_spec; [assumption|]. rewrite Z2Nat.id by lia. nia.
      + rewrite Z2Nat.id by lia. reflexivity.
    - unfold span. cbn [fst snd]. subst step. nia. }
  split.
  { intros i Hi. cbn zeta.
    assert (Hin : Z.of_nat (S i) * step < len text)
      by (apply window_count_spec; assumption).
    unfold span. cbn [fst snd]. subst step. split; [|intros Hfull]; nia. }
  split.
  { intros ->. reflexivity. }
  intros Hne Hshort. rewrite Hrun.
  assert (Hlen : 0 < len text).
  { destruct text; [congruence|]. unfold len. cbn. lia. }
  assert (Hn : n = 1%nat).
  { subst n. unfold window_count.
    replace ((len text + step - 1) / step) with 1; [reflexivity|].
    apply Z.div_unique with (r := len text - 1); [left|]; lia. }
  rewrite Hn. unfold starts. cbn [seq map]. cbn [Z.of_nat Z.mul Z.add].
  rewrite slice_whole by (subst step; lia). reflexivity.
Qed.

Lemma windows_cover_text_witness :
  split_text 12 (ascii_text "abcdefghijk") 10 8 =
  Ok (map (fun s => slice (ascii_text "abcdefghijk") s (s + 10))
          (starts 2 (window_count (ascii_text "abcdefghijk") 2))).
Proof.
  refine (proj1 (windows_cover_text ascii (ascii_text "abcdefghijk") 10 8 12
                   _ _ _)).
  - lia.
  - lia.
  - cbn. lia.
Defined.

(** The last clause of C4, for one call: a text shorter than [chunk_size]
    comes back as one chunk, the text itself. *)
Definition short_text_one_chunk {A : Type} (text : list A)
           (chunk_size overlap : Z) : Prop :=
  len text < chunk_size ->
  forall fuel chunks,
    split_text fuel text chunk_size overlap = Ok chunks -> chunks = [text].

(** C4 fails as stated: with size 4 and overlap 2 the three-character text
    ["abc"] is shorter than the chunk size and comes back as two chunks. *)
Lemma short_text_counterexample :
  ~ short_text_one_chunk (ascii_text "abc") 4 2.
Proof.
  intros H. specialize (H ltac:(cbn; lia) 4%nat _ eq_refl). discriminate H.
Qed.

(** Without a positive step the loop of a non-empty text does not end:
    whatever the fuel, the run is cut off. *)
Lemma split_text_diverges :
  forall (A : Type) (text : list A) (chunk_size overlap : Z) (fuel : nat),
    text <> [] -> chunk_size <= overlap ->
    split_text fuel text chunk_size overlap = OutOfFuel.
Proof.
  intros A text chunk_size overlap fuel Hne Hs.
  unfold split_text. destruct text as [|a text']; [congruence|].
  apply split_loop_stuck; [lia | unfold len; cbn; lia | lia].
Qed.

(** C7, as amended.  The segmenter checks no parameter and raises no
    error: the empty text gives the empty list whatever the parameters,
    and whenever [chunk_size - overlap] is positive (which [chunk_size <= 0]
    and [overlap < 0] both allow) the call returns a list of chunks that is
    non-empty for a non-empty text. *)
Theorem split_text_checks_no_parameter :
  forall (A : Type) (text : list A) (chunk_size overlap : Z) (fuel : nat),
    (forall e, split_text fuel text chunk_size overlap <> Err e) /\
    (text = [] -> split_text fuel text chunk_size overlap = Ok []) /\
    (0 < chunk_size - overlap -> (List.length text < fuel)%nat ->
     exists chunks,
       split_text fuel text chunk_size overlap = Ok chunks /\
       (text <> [] -> chunks <> [])).
Proof.
  intros A text chunk_size overlap fuel. split; [|split].
  - intros e. apply split_text_no_error.
  - intros ->. reflexivity.
  - intros Hs Hfuel. eexists. split; [apply split_text_windows; assumption|].
    intros Hne Hnil. apply (f_equal (@List.length _)) in Hnil.
    rewrite windows_from_length in Hnil. cbn in Hnil.
    assert (0 < window_count text (chunk_size - overlap))%nat; [|lia].
    apply window_count_spec; [assumption|].
    destruct text; [congruence|]. unfold len. cbn. lia.
Qed.

Lemma split_text_checks_no_parameter_witness :
  exists chunks,
    split_text 4 (ascii_text "abc") 2 (-1) = Ok chunks /\ chunks <> [].
Proof.
  destruct (proj2 (proj2 (split_text_checks_no_parameter ascii
                            (ascii_text "abc") 2 (-1) 4)))
    as (chunks & Hrun & Hne).
  - lia.
  - cbn. lia.
  - exists chunks. split; [exact Hrun | apply Hne; discriminate].
Defined.

(** C7 as stated, for one call. *)
Definition rejects_bad_parameters {A : Type} (text : list A)
           (chunk_size overlap : Z) : Prop :=
  chunk_size <= 0 \/ overlap < 0 \/ chunk_size <= overlap ->
  exists fuel, split_text fuel text chunk_size overlap = Err ConfigError.

(** C7 fails as stated: with size 2 and overlap -1 the text ["abc"] is
    cut into the single chunk ["ab"], and no error is raised. *)
Lemma bad_parameters_counterexample :
  split_text 2 (ascii_text "abc") 2 (-1) = Ok [ascii_text "ab"] /\
  ~ rejects_bad_parameters (ascii_text "abc") 2 (-1).
Proof.
  split; [reflexivity|].
  intros H. destruct H as [fuel Hfuel]; [lia|].
  exact (split_text_no_error _ _ _ _ _ Hfuel).
Qed.

End SegmenterProps.

(** * Insertion into a ranked list

    Both [ORDER BY created_at DESC] and the ranking of the vector store
    insert one element after the elements that may stay ahead of it. *)

Module Ranking.

Lemma sorted_weaken {A : Type} (R S : A -> A -> Prop) (l : list A) :
  (forall x y, R x y -> S x y) -> StronglySorted R l -> StronglySorted S l.
Proof.
  intros HRS. induction 1 as [|x l Hl IH Hx]; constructor; [exact IH|].
  eapply Forall_impl; [|exact Hx]. intros y. apply HRS.
Qed.

Lemma in_firstn {A : Type} (n : nat) (l : list A) (x : A) :
  In x (firstn n l) -> In x l.
Proof.
  intros H. rewrite <- (firstn_skipn n l). apply in_or_app. now left.
Qed.

Lemma sorted_firstn {A : Type} (R : A -> A -> Prop) (n : nat) (l : list A) :
  StronglySorted R l -> StronglySorted R (firstn n l).
Proof.
  intros H. revert n. induction H as [|x l Hl IH Hx]; intros [|n];
    cbn [firstn]; constructor; [apply IH|].
  rewrite Forall_forall in *. intros y Hy. apply Hx.
  eapply in_firstn; exact Hy.
Qed.

Lemma sorted_map {A B : Type} (R : A -> A -> Prop) (S : B -> B -> Prop)
      (f : A -> B) (l : list A) :
  (forall x y, R x y -> S (f x) (f y)) ->
  StronglySorted R l -> StronglySorted S (map f l).
Proof.
  intros HRS. induction 1 as [|x l Hl IH Hx]; cbn [map]; constructor;
    [exact IH|].
  rewrite Forall_forall in *. intros y Hy.
  apply in_map_iff in Hy. destruct Hy as (z & <- & Hz). now apply HRS, Hx.
Qed.

Section Ranking.
Context {A : Type}.

(** [ahead y x]: an element [y] already in the list stays ahead of the
    new element [x]. *)
Variable ahead : A -> A -> bool.

Fixpoint insert (x : A) (l : list A) : list A :=
  match l with
  | [] => [x]
  | y :: l' => if ahead y x then y :: insert x l' else x :: l
  end.

Definition sort (l : list A) : list A :=
  fold_left (fun acc x => insert x acc) l [].

Hypothesis ahead_total : forall x y, ahead x y = false -> ahead y x = true.
Hypothesis ahead_trans :
  forall x y z, ahead x y = true -> ahead y z = true -> ahead x z = true.

Definition ordered : list A -> Prop :=
  StronglySorted (fun x y => ahead x y = true).

Lemma filter_none (p : A -> bool) l :
  (forall z, In z l -> p z = false) -> filter p l = [].
Proof.
  induction l as [|y l IH]; intros H; cbn [filter]; [reflexivity|].
  rewrite (H y (or_introl eq_refl)). apply IH. intros z Hz. apply H. now right.
Qed.

Lemma insert_perm x l : Permutation (insert x l) (x :: l).
Proof.
  induction l as [|y l IH]; cbn [insert]; [reflexivity|].
  destruct (ahead y x); [|reflexivity].
  rewrite IH. apply perm_swap.
Qed.

Lemma insert_ordered x l : ordered l -> ordered (insert x l).
Proof.
  unfold ordered. induction 1 as [|y l Hl IH Hy]; cbn [insert].
  - repeat constructor.
  - destruct (ahead y x) eqn:E.
    + constructor; [exact IH|].
      apply Forall_forall. intros z Hz.
      apply (Permutation_in _ (insert_perm x l)) in Hz.
      destruct Hz as [<-|Hz]; [exact E|].
      rewrite Forall_forall in Hy. now apply Hy.
    + constructor; [now constructor|].
      apply ahead_total in E. constructor; [exact E|].
      eapply Forall_impl; [|exact Hy]. intros z Hz. cbn in Hz.
      eapply ahead_trans; eassumption.
Qed.

Lemma sort_snoc l x : sort (l ++ [x]) = insert x (sort l).
Proof. unfold sort. now rewrite fold_left_app. Qed.

Lemma sort_perm l : Permutation (sort l) l.
Proof.
  induction l as [|x l IH] using rev_ind; [reflexivity|].
  rewrite sort_snoc, insert_perm, IH.
  apply Permutation_cons_append.
Qed.

Lemma sort_ordered l : ordered (sort l).
Proof.
  induction l as [|x l IH] using rev_ind; [constructor|].
  rewrite sort_snoc. now apply insert_ordered.
Qed.

(** Stability: the elements of one class of ties keep the order in
    which they were inserted. *)
Section Ties.
Variable tie : A -> bool.
Hypothesis tie_ahead : forall x y, tie x = true -> tie y = true -> ahead x y = true.

Lemma insert_ties x l :
  ordered l ->
  filter tie (insert x l) = filter tie l ++ filter tie [x].
Proof.
  unfold ordered. induction 1 as [|y l Hl IH Hy]; cbn [insert].
  - reflexivity.
  - destruct (ahead y x) eqn:E.
    + cbn [filter]. rewrite IH. cbn [filter].
      destruct (tie y); reflexivity.
    + change (x :: y :: l) with ([x] ++ y :: l). rewrite filter_app.
      destruct (tie x) eqn:Tx;
        [|cbn [filter]; rewrite Tx; now rewrite app_nil_r].
      assert (Hnone : filter tie (y :: l) = []).
      { apply filter_none. intros z Hz.
        destruct (tie z) eqn:Tz; [exfalso|reflexivity].
        pose proof (tie_ahead z x Tz Tx) as Hzx.
        destruct Hz as [<-|Hz]; [congruence|].
        rewrite Forall_forall in Hy. specialize (Hy z Hz). cbn in Hy.
        rewrite (ahead_trans _ _ _ Hy Hzx) in E. discriminate. }
      rewrite Hnone. now rewrite app_nil_r.
Qed.

Lemma sort_ties l : filter tie (sort l) = filter tie l.
Proof.
  induction l as [|x l IH] using rev_ind; [reflexivity|].
  rewrite sort_snoc, insert_ties by apply sort_ordered.
  now rewrite IH, filter_app.
Qed.
End Ties.
End Ranking.
End Ranking.

(** * Properties of the in-memory vector index *)

Module VectorIndexProps.

Import VectorService.

Lemma clamp_0 (n : Z) : 0 <= n -> clamp n 0 = 0.
Proof. intros H. unfold clamp. cbn [Z.ltb Z.compare]. lia. Qed.

(** [l[:hi]] is a prefix of [l], whatever the sign of [hi]. *)
Lemma slice_prefix {A : Type} (l : list A) (hi : Z) :
  exists rest, l = slice l 0 hi ++ rest.
Proof.
  unfold slice. rewrite clamp_0 by (unfold len; lia). cbn [Z.to_nat skipn].
  eexists. symmetry. apply firstn_skipn.
Qed.

Lemma get_update {V : Type} (d : Dict.t V) k f k' :
  Dict.get (Dict.update d k f) k' =
  if String.eqb k k' then option_map f (Dict.get d k') else Dict.get d k'.
Proof.
  induction d as [|[k0 v] d IH]; cbn [Dict.update Dict.get].
  - now destruct (String.eqb k k').
  - destruct (String.eqb_spec k0 k) as [->|Hk0]; cbn [Dict.get].
    + destruct (String.eqb_spec k k') as [->|Hk]; [reflexivity|].
      reflexivity.
    + rewrite IH. destruct (String.eqb_spec k0 k') as [->|Hk0'].
      * destruct (String.eqb_spec k k'); [congruence|reflexivity].
      * reflexivity.
Qed.

Lemma get_add {V : Type} (d : Dict.t V) k v k' :
  Dict.get (Dict.add d k v) k' =
  match Dict.get d k' with
  | Some x => Some x
  | None => if String.eqb k k' then Some v else None
  end.
Proof.
  unfold Dict.add. induction d as [|[k0 v0] d IH]; cbn [app Dict.get].
  - reflexivity.
  - destruct (String.eqb k0 k'); [reflexivity | apply IH].
Qed.

Lemma keys_update {V : Type} (d : Dict.t V) k f :
  Dict.keys (Dict.update d k f) = Dict.keys d.
Proof.
  unfold Dict.keys. induction d as [|[k' v] d IH]; cbn [Dict.update map];
    [reflexivity|].
  destruct (String.eqb k' k); cbn [map fst]; [reflexivity | now rewrite IH].
Qed.

Lemma get_absent {V : Type} (d : Dict.t V) k :
  Dict.get d k = None <-> ~ In k (Dict.keys d).
Proof.
  unfold Dict.keys. induction d as [|[k' v] d IH]; cbn [Dict.get map fst In].
  - tauto.
  - destruct (String.eqb_spec k' k) as [->|Hne].
    + split; [discriminate | intros H; exfalso; apply H; now left].
    + rewrite IH. tauto.
Qed.

(** [add_chunk] appends to the list of its document and leaves the others
    alone: the stored order is the insertion order. *)
Lemma chunks_of_add_chunk index did cid txt emb md did' :
  chunks_of (add_chunk index did cid txt emb md) did' =
  if String.eqb did did'
  then chunks_of index did' ++
       [{| chunk_id := cid; content := txt; embedding := emb; metadata := md |}]
  else chunks_of index did'.
Proof.
  unfold add_chunk, chunks_of, Dict.mem.
  destruct (Dict.get index did) as [l|] eqn:Hget.
  - rewrite get_update. destruct (String.eqb_spec did did') as [<-|]; [|reflexivity].
    rewrite Hget. reflexivity.
  - rewrite get_add. destruct (String.eqb_spec did did') as [<-|].
    + rewrite Hget. reflexivity.
    + destruct (Dict.get index did'); reflexivity.
Qed.

Lemma search_filtered index query ids limit :
  search index query (Some ids) limit =
  List.concat (map (fun did => map (hit_of did) (slice (chunks_of index did) 0 limit))
              ids).
Proof. unfold search. now rewrite flat_map_concat_map. Qed.

(** The hits of a filtered search, document by document: each listed
    document contributes a prefix of its stored chunks. *)
(** The length of [l[:hi]]. *)
Lemma slice_prefix_len {A : Type} (l : list A) (hi : Z) :
  len (slice l 0 hi)
  = if hi <? 0 then Z.max 0 (len l + hi) else Z.min hi (len l).
Proof.
  unfold slice. rewrite clamp_0 by (unfold len; lia). cbn [Z.to_nat skipn].
  unfold clamp, len. rewrite length_firstn.
  destruct (Z.ltb_spec hi 0); lia.
Qed.

Lemma search_blocks index query ids limit :
  exists blocks,
    search index query (Some ids) limit = List.concat blocks /\
    Forall2 (fun did block =>
               exists first rest,
                 chunks_of index did = first ++ rest /\
                 block = map (hit_of did) first /\
                 len first =
                   if limit <? 0
                   then Z.max 0 (len (chunks_of index did) + limit)
                   else Z.min limit (len (chunks_of index did)))
            ids blocks.
Proof.
  rewrite search_filtered. eexists. split; [reflexivity|].
  induction ids as [|did ids IH]; cbn [map]; constructor; [|exact IH].
  destruct (slice_prefix (chunks_of index did) limit) as [rest Hrest].
  exists (slice (chunks_of index did) 0 limit), rest.
  split; [exact Hrest|]. split; [reflexivity | apply slice_prefix_len].
Qed.

(** A filtered search returns at most [limit] hits for each listed id. *)
Lemma search_total index query ids limit :
  0 <= limit ->
  len (search index query (Some ids) limit) <= limit * len ids.
Proof.
  intros Hlimit. rewrite search_filtered. unfold len.
  induction ids as [|did ids IH]; cbn [map List.concat List.length]; [lia|].
  rewrite length_app, length_map.
  pose proof (slice_prefix_len (chunks_of index did) limit) as Hlen.
  unfold len in Hlen. destruct (Z.ltb_spec limit 0); lia.
Qed.

Lemma search_within_filter index query ids limit h :
  In h (search index query (Some ids) limit) ->
  In (hit_document_id h) ids /\ hit_score h = 1%Q.
Proof.
  unfold search. rewrite in_flat_map. intros (did & Hdid & Hh).
  apply in_map_iff in Hh. destruct Hh as (c & <- & _).
  split; [exact Hdid | reflexivity].
Qed.

End VectorIndexProps.

(** * Properties of the Chroma-backed vector index *)

Module ChromaProps.

Import ChromaVectorService.

Section Store.
Variable distance : Embedding -> Embedding -> Q.
Variable engine_embed : string -> result Embedding.

(** An entry already ranked stays ahead of a new one that is not closer. *)
Definition ahead (q : Embedding) (e' e : Entry) : bool :=
  Qle_bool (distance q (entry_embedding e')) (distance q (entry_embedding e)).

Lemma rank_insert_is_insert q e l :
  rank_insert distance q e l = Ranking.insert (ahead q) e l.
Proof.
  induction l as [|e' l IH]; cbn [rank_insert Ranking.insert]; [reflexivity|].
  unfold ahead at 1. now rewrite IH.
Qed.

Lemma rank_is_sort q l : rank distance q l = Ranking.sort (ahead q) l.
Proof.
  unfold rank, Ranking.sort. generalize (@nil Entry).
  induction l as [|e l IH]; intros acc; cbn [fold_left]; [reflexivity|].
  now rewrite rank_insert_is_insert, IH.
Qed.

Lemma ahead_total q x y : ahead q x y = false -> ahead q y x = true.
Proof.
  unfold ahead. intros H. apply Qle_bool_iff.
  destruct (Qlt_le_dec (distance q (entry_embedding x))
                       (distance q (entry_embedding y))) as [Hlt|Hle].
  - apply Qlt_le_weak in Hlt. apply Qle_bool_iff in Hlt. congruence.
  - exact Hle.
Qed.

Lemma ahead_trans q x y z :
  ahead q x y = true -> ahead q y z = true -> ahead q x z = true.
Proof.
  unfold ahead. rewrite !Qle_bool_iff. apply Qle_trans.
Qed.

(** The entries at distance [v] from the query. *)
Definition at_distance (q : Embedding) (v : Q) (e : Entry) : bool :=
  Qeq_bool (distance q (entry_embedding e)) v.

Lemma at_distance_ahead q v x y :
  at_distance q v x = true -> at_distance q v y = true -> ahead q x y = true.
Proof.
  unfold at_distance, ahead. rewrite !Qeq_bool_iff, Qle_bool_iff.
  intros -> ->. apply Qle_refl.
Qed.

Definition by_distance (q : Embedding) (e e' : Entry) : Prop :=
  (distance q (entry_embedding e) <= distance q (entry_embedding e'))%Q.

(** The ranking is a stable sort of its input by distance. *)
Lemma rank_spec q l :
  Permutation (rank distance q l) l /\
  StronglySorted (by_distance q) (rank distance q l) /\
  (forall v, filter (at_distance q v) (rank distance q l)
             = filter (at_distance q v) l).
Proof.
  rewrite rank_is_sort. split; [apply Ranking.sort_perm|]. split.
  - pose proof (Ranking.sort_ordered (ahead q) (ahead_total q) (ahead_trans q) l)
      as H.
    unfold Ranking.ordered in H.
    eapply Ranking.sorted_weaken; [|exact H].
    intros x y Hxy. now apply Qle_bool_iff.
  - intros v. apply Ranking.sort_ties.
    + apply ahead_total.
    + apply ahead_trans.
    + apply at_distance_ahead.
Qed.

Lemma allowed_in ids e :
  allowed (Some ids) e = true -> In (em_document_id (entry_meta e)) ids.
Proof.
  cbn [allowed]. rewrite existsb_exists. intros (d & Hd & Heq).
  apply String.eqb_eq in Heq. now subst.
Qed.

(** What a filtered search returns once the query has been embedded. *)
Lemma chroma_search_filtered s query ids limit qe :
  engine_embed query = Ok qe -> ids <> [] -> 0 < limit ->
  snd (search distance engine_embed s query (Some ids) limit) =
  map (format_hit distance qe)
      (firstn (Z.to_nat limit)
              (rank distance qe (filter (allowed (Some ids)) (store s)))).
Proof.
  intros Hq Hids Hlimit. unfold search. rewrite Hq.
  unfold collection_query. destruct (Z.leb_spec limit 0); [lia|].
  assert (Hw : where_filter (Some ids) = Some ids)
    by (destruct ids; [congruence|reflexivity]).
  rewrite Hw. destruct (initialized s); reflexivity.
Qed.

End Store.
End ChromaProps.

(** * The search contract (C2) *)

Module SearchContract.

Definition chroma_hits (distance : Embedding -> Embedding -> Q)
           (engine_embed : string -> result Embedding)
           (s : ChromaVectorService.Service) (query : string)
           (ids : list string) (limit : Z) : list ChromaVectorService.Hit :=
  snd (ChromaVectorService.search distance engine_embed s query (Some ids) limit).

(** What the Chroma-backed search ranks: the entries of the listed
    documents, or every entry when the list is empty. *)
Definition searched (s : ChromaVectorService.Service) (ids : list string)
  : list ChromaVectorService.Entry :=
  match ids with
  | [] => ChromaVectorService.store s
  | _ => filter (ChromaVectorService.allowed (Some ids))
                (ChromaVectorService.store s)
  end.

Lemma chroma_search_ranked distance engine_embed s query ids limit qe :
  engine_embed query = Ok qe -> 0 < limit ->
  chroma_hits distance engine_embed s query ids limit =
  map (ChromaVectorService.format_hit distance qe)
      (firstn (Z.to_nat limit)
              (ChromaVectorService.rank distance qe (searched s ids))).
Proof.
  intros Hq Hlimit. destruct ids as [|d ids].
  - unfold chroma_hits, ChromaVectorService.search. rewrite Hq.
    unfold ChromaVectorService.collection_query.
    destruct (Z.leb_spec limit 0); [lia|].
    cbn [ChromaVectorService.where_filter searched].
    assert (Hall : forall l, filter (ChromaVectorService.allowed None) l = l).
    { induction l as [|e l IH]; cbn [filter ChromaVectorService.allowed];
        [reflexivity | now rewrite IH]. }
    destruct (ChromaVectorService.initialized s);
      cbn [ChromaVectorService.initialize ChromaVectorService.store snd];
      now rewrite Hall.
  - apply ChromaProps.chroma_search_filtered;
      [exact Hq | discriminate | exact Hlimit].
Qed.

(** C2, as amended.  The in-memory search returns only hits of listed
    documents, each with score 1: for each listed document id in list
    order, the first [min limit n] of that document's [n] chunks in
    stored (insertion) order (all but the last [- limit] for a negative
    limit), so at most [limit] hits for each listed id and not [limit]
    in all.  The Chroma-backed search, for a positive limit and a query
    that embeds, returns at most [limit] hits in descending score, the
    first [limit] of a ranking by distance of what it searches: the
    entries of the listed documents for a list that is not empty, and
    the whole store for the empty list.  Only for a list that is not
    empty are all hits of listed documents. *)
Theorem search_respects_filter :
  forall (index : VectorService.Index)
         (distance : Embedding -> Embedding -> Q)
         (engine_embed : string -> result Embedding)
         (s : ChromaVectorService.Service)
         (query : string) (ids : list string) (limit : Z),
    ((forall h, In h (VectorService.search index query (Some ids) limit) ->
                In (VectorService.hit_document_id h) ids /\
                VectorService.hit_score h = 1%Q) /\
     (exists blocks,
        VectorService.search index query (Some ids) limit = List.concat blocks /\
        Forall2 (fun did block =>
                   exists first rest,
                     VectorService.chunks_of index did = first ++ rest /\
                     block = map (VectorService.hit_of did) first /\
                     len first =
                       if limit <? 0
                       then Z.max 0 (len (VectorService.chunks_of index did)
                                     + limit)
                       else Z.min limit
                                  (len (VectorService.chunks_of index did)))
                ids blocks) /\
     (0 <= limit ->
      len (VectorService.search index query (Some ids) limit)
      <= limit * len ids)) /\
    (forall qe,
        engine_embed query = Ok qe -> 0 < limit ->
        let hits := chroma_hits distance engine_embed s query ids limit in
        len hits <= limit /\
        (ids <> [] ->
         forall h, In h hits -> In (ChromaVectorService.hit_document_id h) ids) /\
        StronglySorted
          (fun h h' => (ChromaVectorService.hit_score h'
                        <= ChromaVectorService.hit_score h)%Q) hits /\
        exists ranked,
          Permutation ranked (searched s ids) /\
          StronglySorted (ChromaProps.by_distance distance qe) ranked /\
          hits = map (ChromaVectorService.format_hit distance qe)
                     (firstn (Z.to_nat limit) ranked)).
Proof.
  intros index distance engine_embed s query ids limit. split.
  - split; [|split].
    + intros h. apply VectorIndexProps.search_within_filter.
    + apply VectorIndexProps.search_blocks.
    + apply VectorIndexProps.search_total.
  - intros qe Hq Hlimit hits.
    assert (Hhits : hits = map (ChromaVectorService.format_hit distance qe)
                               (firstn (Z.to_nat limit)
                                       (ChromaVectorService.rank distance qe
                                          (searched s ids))))
      by (apply chroma_search_ranked; assumption).
    destruct (ChromaProps.rank_spec distance qe (searched s ids))
      as (Hperm & Hsorted & _).
    split; [|split; [|split]].
    + rewrite Hhits. unfold len. rewrite length_map.
      pose proof (firstn_le_length (Z.to_nat limit)
                    (ChromaVectorService.rank distance qe (searched s ids))).
      lia.
    + intros Hids h Hh. rewrite Hhits in Hh. apply in_map_iff in Hh.
      destruct Hh as (e & <- & He). apply Ranking.in_firstn in He.
      apply (Permutation_in _ Hperm) in He.
      destruct ids as [|d ids']; [congruence|]. cbn [searched] in He.
      apply filter_In in He.
      apply ChromaProps.allowed_in. exact (proj2 He).
    + rewrite Hhits. eapply Ranking.sorted_map;
        [|apply Ranking.sorted_firstn; exact Hsorted].
      intros x y Hxy. unfold ChromaProps.by_distance in Hxy. cbn.
      apply Qplus_le_r. now apply Qopp_le_compat.
    + exists (ChromaVectorService.rank distance qe (searched s ids)). auto.
Qed.

Local Open Scope string_scope.

(** A one-dimensional distance for the examples. *)
Definition gap (q e : Embedding) : Q :=
  match q, e with
  | [a], [b] => (a - b) * (a - b)
  | _, _ => 0
  end.

Definition embed_origin (query : string) : result Embedding := Ok [0%Q].

Definition sample_entry (document_id chunk_id : string) (x : Q)
  : ChromaVectorService.Entry :=
  {| ChromaVectorService.entry_id := chunk_id;
     ChromaVectorService.entry_embedding := [x];
     ChromaVectorService.entry_document := [];
     ChromaVectorService.entry_meta :=
       {| ChromaVectorService.em_document_id := document_id;
          ChromaVectorService.em_chunk_id := chunk_id;
          ChromaVectorService.em_extra :=
            {| document_name := "notes.txt"; chunk_index := 0;
               md_user_id := "u1" |} |} |}.

Definition sample_service : ChromaVectorService.Service :=
  {| ChromaVectorService.initialized := true;
     ChromaVectorService.store :=
       [sample_entry "d1" "c1" 3; sample_entry "d2" "c2" 1;
        sample_entry "d1" "c3" 2; sample_entry "d1" "c4" 2] |}.

Lemma search_respects_filter_witness :
  let hits := chroma_hits gap embed_origin sample_service "test" ["d1"] 2 in
  len hits <= 2 /\
  (forall h, In h hits -> In (ChromaVectorService.hit_document_id h) ["d1"]) /\
  map ChromaVectorService.hit_chunk_id hits = ["c3"; "c4"]%string.
Proof.
  assert (Hq : embed_origin "test" = Ok [0%Q]) by reflexivity.
  assert (Hlimit : 0 < 2) by lia.
  assert (Hids : ["d1"%string] <> []) by discriminate.
  destruct (proj2 (search_respects_filter [] gap embed_origin
                     sample_service "test" ["d1"%string] 2)
                  [0%Q] Hq Hlimit) as (Hlen & Hin & _).
  split; [exact Hlen|]. split; [exact (Hin Hids) | reflexivity].
Defined.

(** The order in which chunks went into the in-memory index: a log of
    (document id, chunk id) pairs, oldest first. *)
Definition build (log : list (string * string)) : VectorService.Index :=
  fold_left (fun index '(document_id, chunk_id) =>
               VectorService.add_chunk index document_id chunk_id [] []
                 {| document_name := "notes.txt"; chunk_index := 0;
                    md_user_id := "u1" |})
            log [].

Definition inserted_before (log : list (string * string)) (a b : string)
  : Prop :=
  exists i j, (i < j)%nat /\
              nth_error (map snd log) i = Some a /\
              nth_error (map snd log) j = Some b.

(** Descending score, ties in insertion order. *)
Definition ranked_hits (log : list (string * string))
           (hits : list VectorService.Hit) : Prop :=
  forall i j h h',
    (i < j)%nat -> nth_error hits i = Some h -> nth_error hits j = Some h' ->
    (VectorService.hit_score h' < VectorService.hit_score h)%Q \/
    (VectorService.hit_score h == VectorService.hit_score h' /\
     inserted_before log (VectorService.hit_chunk_id h)
                     (VectorService.hit_chunk_id h'))%Q.

(** C2 as stated, for one search of the in-memory index. *)
Definition search_contract (log : list (string * string)) (query : string)
           (ids : list string) (limit : Z) : Prop :=
  let hits := VectorService.search (build log) query (Some ids) limit in
  len hits <= limit /\
  (forall h, In h hits -> In (VectorService.hit_document_id h) ids) /\
  ranked_hits log hits.

(** C2 fails as stated: after [c1] went in for [d1] and then [c2] for [d2],
    a search over [d2; d1] with limit 1 returns two hits, [c2] ahead of
    [c1], both with score 1. *)
Lemma search_contract_counterexample :
  let log := [("d1", "c1"); ("d2", "c2")]%string in
  let hits := VectorService.search (build log) "test" (Some ["d2"; "d1"]%string) 1 in
  map VectorService.hit_chunk_id hits = ["c2"; "c1"]%string /\
  ~ len hits <= 1 /\
  ~ ranked_hits log hits /\
  ~ search_contract log "test" ["d2"; "d1"]%string 1.
Proof.
  cbv zeta. split; [reflexivity|]. split; [|split].
  - vm_compute. intros H. now apply H.
  - intros H. specialize (H 0%nat 1%nat _ _ ltac:(lia) eq_refl eq_refl).
    destruct H as [H|[_ (i & j & Hij & Hi & Hj)]].
    + vm_compute in H. discriminate H.
    + cbn in Hi, Hj.
      destruct i as [|[|i]]; cbn in Hi; try discriminate Hi.
      * destruct j as [|[|[|j]]]; cbn in Hj; try discriminate Hj; lia.
      * destruct i; discriminate Hi.
  - intros (Hlen & _). vm_compute in Hlen. now apply Hlen.
Qed.

End SearchContract.

(** * Properties of ingestion over the in-memory index *)

Module IngestionProps.

Import RAGService.

Definition MemState : Type := @State InMemory.

(** The texts held for a document: in the vector index, and in the
    [document_chunks] table. *)
Definition vector_contents (st : MemState) (id : string) : list text :=
  map VectorService.content (VectorService.chunks_of (vector_service st) id).

Definition row_contents (d : Db.t) (id : string) : list text :=
  map Db.chunk_content (Db.chunks_of_document d id).

Section Ingest.
Variable uuid_of : nat -> string.
Variable embed : text -> result Embedding.
Variable extract_text : string -> text.

Definition embeds (c : text) : Prop := exists v, embed c = Ok v.

(** What a run of the loop over the chunks [done] leaves behind. *)
Definition ingested (st st1 : MemState) (id : string) (done : list text)
: Prop :=
Db.documents (db st1) = Db.documents (db st) /\
vector_contents st1 id = vector_contents st id ++ done /\
row_contents (db st1) id = row_contents (db st) id ++ done.

Lemma ingested_refl st id : ingested st st id [].
Proof. unfold ingested. now rewrite !app_nil_r. Qed.

Lemma ingest_prefix document id user tail :
forall done st i,
  Forall embeds done ->
  exists st1,
    ingest uuid_of embed st document id user i (done ++ tail) =
    ingest uuid_of embed st1 document id user (i + len done) tail /\
    ingested st st1 id done.
Proof.
induction done as [|c done IH]; intros st i Hok.
- exists st. split; [|apply ingested_refl].
  cbn [app]. unfold len. cbn [List.length Z.of_nat]. now rewrite Z.add_0_r.
- inversion Hok as [|? ? [v Hv] Hrest]; subst.
  cbn [app ingest]. unfold Db.uuid4 at 1. rewrite Hv.
  cbn [v_add_chunk InMemory vector_service with_db]. unfold Db.utcnow at 1.
  match goal with
  | |- exists st1, ingest _ _ ?s _ _ _ _ _ = _ /\ _ =>
      destruct (IH s (i + 1) Hrest) as (st1 & Hrun & Hdocs & Hvec & Hrows)
  end.
  exists st1. split.
  + rewrite Hrun. f_equal. unfold len. cbn [List.length]. lia.
  + unfold ingested. split; [|split].
    * rewrite Hdocs. reflexivity.
    * rewrite Hvec. unfold vector_contents. cbn [vector_service].
      rewrite VectorIndexProps.chunks_of_add_chunk, String.eqb_refl.
      rewrite map_app. cbn [map VectorService.content].
      now rewrite <- app_assoc.
    * rewrite Hrows. unfold row_contents, Db.chunks_of_document.
      cbn [db Db.with_document_chunks Db.document_chunks].
      rewrite filter_app. cbn [filter Db.chunk_document_id].
      rewrite String.eqb_refl, map_app. cbn [map Db.chunk_content].
      now rewrite <- app_assoc.
Qed.

(** The row updates of [process_document] touch no column that
  [fetch_document] looks at. *)
Definition keeps_key (f : Db.DocumentRow -> Db.DocumentRow) : Prop :=
forall d, Db.doc_id (f d) = Db.doc_id d /\
          Db.doc_user_id (f d) = Db.doc_user_id d.

Definition update_rows (id : string) (f : Db.DocumentRow -> Db.DocumentRow)
         (rows : list Db.DocumentRow) : list Db.DocumentRow :=
map (fun d => if String.eqb (Db.doc_id d) id then f d else d) rows.

Lemma find_updated rows id user f :
keeps_key f ->
find (fun d => String.eqb (Db.doc_id d) id && String.eqb (Db.doc_user_id d) user)
     (update_rows id f rows) =
option_map f
  (find (fun d => String.eqb (Db.doc_id d) id && String.eqb (Db.doc_user_id d) user)
        rows).
Proof.
intros Hf. unfold update_rows.
induction rows as [|r rows IH]; cbn [map find]; [reflexivity|].
destruct (String.eqb_spec (Db.doc_id r) id) as [Hid|Hid].
- destruct (Hf r) as [-> ->]. rewrite Hid, String.eqb_refl. cbn [andb].
  destruct (String.eqb (Db.doc_user_id r) user); [reflexivity | exact IH].
- destruct (String.eqb_spec (Db.doc_id r) id); [contradiction|].
  cbn [andb]. exact IH.
Qed.

Lemma update_rows_compose id f g rows :
keeps_key g ->
update_rows id f (update_rows id g rows) =
update_rows id (fun d => f (g d)) rows.
Proof.
intros Hg. unfold update_rows. rewrite map_map. apply map_ext. intros d.
destruct (String.eqb_spec (Db.doc_id d) id) as [Hid|Hid].
- destruct (Hg d) as [-> _]. now rewrite Hid, String.eqb_refl.
- destruct (String.eqb_spec (Db.doc_id d) id); [contradiction|reflexivity].
Qed.

Lemma keeps_key_started ts : keeps_key (Db.set_processing_started ts).
Proof. intros d. split; reflexivity. Qed.

(** The attempt when the embedding of the chunk after [done] fails. *)
Lemma process_document_embed_failure fuel (st : MemState) id user document
    done bad rest e :
Db.fetch_document (db st) id user = Some document ->
FileHandler.split_text fuel (extract_text (Db.filepath document))
  FileHandler.default_chunk_size FileHandler.default_overlap
  = Ok (done ++ bad :: rest) ->
Forall embeds done ->
embed bad = Err e ->
exists st',
  process_document uuid_of embed extract_text fuel st id user = Ok st' /\
  Db.documents (db st') =
    update_rows id
      (fun d => Db.set_processing_error (str_of_exn e)
                  (Db.set_processing_started (Db.clock (db st)) d))
      (Db.documents (db st)) /\
  vector_contents st' id = vector_contents st id ++ done /\
  row_contents (db st') id = row_contents (db st) id ++ done.
Proof.
intros Hfetch Hsplit Hdone Hbad.
unfold process_document, process_attempt. rewrite Hfetch.
unfold Db.utcnow at 1. rewrite Hsplit.
match goal with
| |- context [ingest _ _ ?s _ _ _ _ _] =>
    destruct (ingest_prefix document id user (bad :: rest) done s 0 Hdone)
      as (st1 & Hrun & Hdocs & Hvec & Hrows)
end.
unfold text in Hrun. rewrite Hrun. cbn [ingest]. unfold Db.uuid4. rewrite Hbad.
eexists. split; [reflexivity|]. split; [|split].
- cbn [db with_db Db.update_document Db.documents Db.with_documents].
  rewrite Hdocs. cbn [db with_db Db.update_document Db.documents Db.with_documents].
  apply update_rows_compose, keeps_key_started.
- exact Hvec.
- exact Hrows.
Qed.

(** The attempt when every chunk embeds. *)
Lemma process_document_success fuel (st : MemState) id user document chunks :
Db.fetch_document (db st) id user = Some document ->
FileHandler.split_text fuel (extract_text (Db.filepath document))
  FileHandler.default_chunk_size FileHandler.default_overlap = Ok chunks ->
Forall embeds chunks ->
exists st' ts,
  process_document uuid_of embed extract_text fuel st id user = Ok st' /\
  Db.documents (db st') =
    update_rows id
      (fun d => Db.set_processed (len chunks) ts
                  (Db.set_processing_started (Db.clock (db st)) d))
      (Db.documents (db st)) /\
  vector_contents st' id = vector_contents st id ++ chunks /\
  row_contents (db st') id = row_contents (db st) id ++ chunks.
Proof.
intros Hfetch Hsplit Hok.
unfold process_document, process_attempt. rewrite Hfetch.
unfold Db.utcnow at 1. rewrite Hsplit.
match goal with
| |- context [ingest _ _ ?s _ _ _ _ _] =>
    destruct (ingest_prefix document id user [] chunks s 0 Hok)
      as (st1 & Hrun & Hdocs & Hvec & Hrows)
end.
unfold text in Hrun. rewrite app_nil_r in Hrun. rewrite Hrun.
cbn [ingest]. unfold Db.utcnow.
eexists. exists (Db.clock (db st1)). split; [reflexivity|]. split; [|split].
- cbn [db with_db Db.update_document Db.documents Db.with_documents].
  rewrite Hdocs. cbn [db with_db Db.update_document Db.documents Db.with_documents].
  apply update_rows_compose, keeps_key_started.
- exact Hvec.
- exact Hrows.
Qed.

End Ingest.
(** C1, as amended.  When the embedding of a mid-document chunk fails,
    the attempt ends with the failure cause in [processing_error] of the
    document, the [processed] flag and [chunks_count] as they were, and
    the vector entries and chunk rows of the chunks embedded before the
    failure still in place: nothing is rolled back. *)
Theorem failed_attempt_keeps_inserted_chunks :
  forall (uuid_of : nat -> string) (embed : text -> result Embedding)
         (extract_text : string -> text) (fuel : nat) (st : MemState)
         (id user : string) (document : Db.DocumentRow)
         (done : list text) (bad : text) (rest : list text) (e : exn),
    Db.fetch_document (db st) id user = Some document ->
    FileHandler.split_text fuel (extract_text (Db.filepath document))
      FileHandler.default_chunk_size FileHandler.default_overlap
      = Ok (done ++ bad :: rest) ->
    Forall (embeds embed) done ->
    embed bad = Err e ->
    exists st',
      process_document uuid_of embed extract_text fuel st id user = Ok st' /\
      (forall d, In d (Db.documents (db st')) -> Db.doc_id d = id ->
                 Db.processing_error d = Some (str_of_exn e)) /\
      map Db.processed (Db.documents (db st'))
        = map Db.processed (Db.documents (db st)) /\
      map Db.chunks_count (Db.documents (db st'))
        = map Db.chunks_count (Db.documents (db st)) /\
      vector_contents st' id = vector_contents st id ++ done /\
      row_contents (db st') id = row_contents (db st) id ++ done.
Proof.
  intros uuid_of embed extract_text fuel st id user document done bad rest e
         Hfetch Hsplit Hdone Hbad.
  destruct (process_document_embed_failure uuid_of embed extract_text fuel st
              id user document done bad rest e Hfetch Hsplit Hdone Hbad)
    as (st' & Hrun & Hdocs & Hvec & Hrows).
  exists st'. split; [exact Hrun|]. rewrite Hdocs. unfold update_rows.
  split; [|split; [|split; [|split]]].
  - intros d Hd Hid. apply in_map_iff in Hd. destruct Hd as (d0 & <- & _).
    destruct (String.eqb_spec (Db.doc_id d0) id) as [_|Hne]; [reflexivity|].
    contradiction.
  - rewrite map_map. apply map_ext. intros d.
    destruct (String.eqb (Db.doc_id d) id); reflexivity.
  - rewrite map_map. apply map_ext. intros d.
    destruct (String.eqb (Db.doc_id d) id); reflexivity.
  - exact Hvec.
  - exact Hrows.
Qed.

Local Open Scope string_scope.

(** A store with one uploaded document of 801 characters, which the
    default window (size 1000, overlap 200) cuts into two chunks. *)
Definition sample_document : Db.DocumentRow :=
  {| Db.doc_id := "doc-1"; Db.doc_user_id := "u1";
     Db.filename := "notes.txt"; Db.filepath := "/docs/notes.txt";
     Db.filetype := ".txt"; Db.size := 801; Db.processed := false;
     Db.chunks_count := 0; Db.processing_started := None;
     Db.processed_at := None; Db.processing_error := None;
     Db.uploaded_at := 0 |}.

Definition sample_state : MemState :=
  {| db := {| Db.documents := [sample_document]; Db.document_chunks := [];
              Db.chat_history := []; Db.chat_context := [];
              Db.clock := 1; Db.uuids := 0 |};
     vector_service := [] |}.

Definition sample_text : text := repeat "a"%char 801.

Definition read_sample (path : string) : text :=
  if String.eqb path "/docs/notes.txt" then sample_text else [].

Definition uuid_sample (n : nat) : string :=
  "uuid-" ++ String (ascii_of_nat (97 + n)) "".

(** An embedding provider that fails on chunks of at most one character. *)
Definition embed_long (c : text) : result Embedding :=
  if (len c <=? 1)%Z then Err (ProviderError "embedding backend unavailable")
  else Ok [1%Q].

Lemma failed_attempt_keeps_inserted_chunks_witness :
  exists st',
    process_document uuid_sample embed_long read_sample 802 sample_state
                     "doc-1" "u1" = Ok st' /\
    vector_contents st' "doc-1" = [sample_text].
Proof.
  destruct (failed_attempt_keeps_inserted_chunks uuid_sample embed_long
              read_sample 802 sample_state "doc-1" "u1" sample_document
              [sample_text] ["a"%char] []
              (ProviderError "embedding backend unavailable"))
    as (st' & Hrun & _ & _ & _ & Hvec & _).
  - reflexivity.
  - vm_compute. reflexivity.
  - constructor; [|constructor]. exists [1%Q]. vm_compute. reflexivity.
  - reflexivity.
  - exists st'. split; [exact Hrun | exact Hvec].
Defined.

(** C1 as stated, for one attempt that went from [st] to [st']. *)
Definition attempt_rolled_back (st st' : MemState) (id : string) : Prop :=
  (forall d, In d (Db.documents (db st')) -> Db.doc_id d = id ->
             Db.processing_error d <> None) /\
  VectorService.chunks_of (vector_service st') id
    = VectorService.chunks_of (vector_service st) id /\
  Db.chunks_of_document (db st') id = Db.chunks_of_document (db st) id.

(** C1 fails as stated: the provider fails on the second chunk, and the
    vector entry and the chunk row of the first chunk are still there
    after the attempt. *)
Lemma rollback_counterexample :
  exists st',
    process_document uuid_sample embed_long read_sample 802 sample_state
                     "doc-1" "u1" = Ok st' /\
    map Db.processing_error (Db.documents (db st'))
      = [Some "embedding backend unavailable"] /\
    List.length (VectorService.chunks_of (vector_service st') "doc-1") = 1%nat /\
    List.length (Db.chunks_of_document (db st') "doc-1") = 1%nat /\
    ~ attempt_rolled_back sample_state st' "doc-1".
Proof.
  eexists. split; [vm_compute; reflexivity|].
  split; [reflexivity|]. split; [reflexivity|]. split; [reflexivity|].
  intros (_ & Hvec & _). vm_compute in Hvec. discriminate Hvec.
Qed.

(** C5, as amended.  Processing a document again with the same content
    sets the same [chunks_count] and leaves the document [processed], but
    clears nothing first: each run appends one more copy of the chunks, so
    the vector entries and chunk rows of the document grow by
    [chunks_count] on every repeat. *)
Theorem reprocessing_appends_chunks :
  forall (uuid_of : nat -> string) (embed : text -> result Embedding)
         (extract_text : string -> text) (fuel : nat) (st : MemState)
         (id user : string) (document : Db.DocumentRow) (chunks : list text),
    Db.fetch_document (db st) id user = Some document ->
    FileHandler.split_text fuel (extract_text (Db.filepath document))
      FileHandler.default_chunk_size FileHandler.default_overlap = Ok chunks ->
    Forall (embeds embed) chunks ->
    exists st1 st2,
      process_document uuid_of embed extract_text fuel st id user = Ok st1 /\
      process_document uuid_of embed extract_text fuel st1 id user = Ok st2 /\
      (forall d, In d (Db.documents (db st1)) -> Db.doc_id d = id ->
                 Db.processed d = true /\ Db.chunks_count d = len chunks) /\
      (forall d, In d (Db.documents (db st2)) -> Db.doc_id d = id ->
                 Db.processed d = true /\ Db.chunks_count d = len chunks) /\
      vector_contents st1 id = (vector_contents st id ++ chunks)%list /\
      vector_contents st2 id = (vector_contents st id ++ chunks ++ chunks)%list /\
      row_contents (db st1) id = (row_contents (db st) id ++ chunks)%list /\
      row_contents (db st2) id = (row_contents (db st) id ++ chunks ++ chunks)%list.
Proof.
  intros uuid_of embed extract_text fuel st id user document chunks
         Hfetch Hsplit Hok.
  destruct (process_document_success uuid_of embed extract_text fuel st id user
              document chunks Hfetch Hsplit Hok)
    as (st1 & ts1 & Hrun1 & Hdocs1 & Hvec1 & Hrows1).
  assert (Hkeep : keeps_key
                    (fun d => Db.set_processed (len chunks) ts1
                                (Db.set_processing_started (Db.clock (db st)) d)))
    by (intros d; split; reflexivity).
  assert (Hfetch1 : Db.fetch_document (db st1) id user =
                    Some (Db.set_processed (len chunks) ts1
                            (Db.set_processing_started (Db.clock (db st)) document))).
  { unfold Db.fetch_document in *. rewrite Hdocs1, find_updated by exact Hkeep.
    now rewrite Hfetch. }
  destruct (process_document_success uuid_of embed extract_text fuel st1 id user
              _ chunks Hfetch1 Hsplit Hok)
    as (st2 & ts2 & Hrun2 & Hdocs2 & Hvec2 & Hrows2).
  exists st1, st2. split; [exact Hrun1|]. split; [exact Hrun2|].
  assert (Hcount : forall rows f d,
             (forall r, Db.processed (f r) = true /\
                        Db.chunks_count (f r) = len chunks) ->
             In d (update_rows id f rows) -> Db.doc_id d = id ->
             keeps_key f ->
             Db.processed d = true /\ Db.chunks_count d = len chunks).
  { intros rows f d Hf Hd Hid Hk. unfold update_rows in Hd.
    apply in_map_iff in Hd. destruct Hd as (r & <- & _).
    destruct (String.eqb_spec (Db.doc_id r) id) as [_|Hne]; [apply Hf|].
    contradiction. }
  split; [|split].
  - intros d Hd Hid. rewrite Hdocs1 in Hd.
    eapply Hcount; [|exact Hd|exact Hid|exact Hkeep]. intros r. split; reflexivity.
  - intros d Hd Hid. rewrite Hdocs2 in Hd.
    eapply Hcount; [|exact Hd|exact Hid|]; intros r; split; reflexivity.
  - rewrite Hvec2, Hrows2, Hvec1, Hrows1, <- !app_assoc. auto.
Qed.

Definition short_text : text := list_ascii_of_string "hello world".

Definition read_short (path : string) : text :=
  if String.eqb path "/docs/notes.txt" then short_text else [].

Definition embed_any (c : text) : result Embedding := Ok [len c # 1].

Lemma reprocessing_appends_chunks_witness :
  exists st1 st2,
    process_document uuid_sample embed_any read_short 12 sample_state
                     "doc-1" "u1" = Ok st1 /\
    process_document uuid_sample embed_any read_short 12 st1
                     "doc-1" "u1" = Ok st2 /\
    vector_contents st2 "doc-1" = [short_text; short_text].
Proof.
  destruct (reprocessing_appends_chunks uuid_sample embed_any read_short 12
              sample_state "doc-1" "u1" sample_document [short_text])
    as (st1 & st2 & Hrun1 & Hrun2 & _ & _ & _ & Hvec2 & _).
  - reflexivity.
  - reflexivity.
  - constructor; [|constructor]. eexists. reflexivity.
  - exists st1, st2. split; [exact Hrun1|]. split; [exact Hrun2 | exact Hvec2].
Defined.

(** C5 as stated, for a second run that went from [st1] to [st2]. *)
Definition reprocessing_idempotent (st1 st2 : MemState) (id : string) : Prop :=
  map Db.chunks_count (Db.documents (db st2))
    = map Db.chunks_count (Db.documents (db st1)) /\
  row_contents (db st2) id = row_contents (db st1) id /\
  List.length (VectorService.chunks_of (vector_service st2) id)
    = List.length (VectorService.chunks_of (vector_service st1) id).

(** C5 fails as stated: after the second run the one-chunk document has
    two vector entries and two chunk rows. *)
Lemma reprocessing_counterexample :
  exists st1 st2,
    process_document uuid_sample embed_any read_short 12 sample_state
                     "doc-1" "u1" = Ok st1 /\
    process_document uuid_sample embed_any read_short 12 st1
                     "doc-1" "u1" = Ok st2 /\
    map Db.chunks_count (Db.documents (db st1)) = [1] /\
    map Db.chunks_count (Db.documents (db st2)) = [1] /\
    List.length (VectorService.chunks_of (vector_service st1) "doc-1") = 1%nat /\
    List.length (VectorService.chunks_of (vector_service st2) "doc-1") = 2%nat /\
    List.length (Db.chunks_of_document (db st2) "doc-1") = 2%nat /\
    ~ reprocessing_idempotent st1 st2 "doc-1".
Proof.
  eexists. eexists. split; [vm_compute; reflexivity|].
  split; [vm_compute; reflexivity|].
  repeat (split; [reflexivity|]).
  intros (_ & _ & Hlen). vm_compute in Hlen. discriminate Hlen.
Qed.

End IngestionProps.

(** * Properties of deletion and search over the Chroma-backed index *)

Module ChromaRagProps.

Import RAGService.

Definition ChromaState (distance : Embedding -> Embedding -> Q)
           (engine_embed : string -> result Embedding) : Type :=
  @State (Chroma distance engine_embed).

Definition entry_document_id (e : ChromaVectorService.Entry) : string :=
  ChromaVectorService.em_document_id (ChromaVectorService.entry_meta e).

Lemma filter_all {A : Type} (p : A -> bool) (l : list A) :
  (forall x, In x l -> p x = true) -> filter p l = l.
Proof.
  induction l as [|x l IH]; intros H; cbn [filter]; [reflexivity|].
  rewrite (H x (or_introl eq_refl)). f_equal. apply IH.
  intros y Hy. apply H. now right.
Qed.

(** C9.  Deleting a document that exists but belongs to another user
    returns [False] and leaves the [documents] table as it was, yet the
    entries of that document are gone from the vector store and its rows
    are gone from [document_chunks]. *)
Theorem foreign_delete_removes_chunks :
  forall (distance : Embedding -> Embedding -> Q)
         (engine_embed : string -> result Embedding)
         (st : ChromaState distance engine_embed) (id user : string),
    (exists d, In d (Db.documents (db st)) /\ Db.doc_id d = id) ->
    (forall d, In d (Db.documents (db st)) -> Db.doc_id d = id ->
               Db.doc_user_id d <> user) ->
    let st' := snd (delete_document st id user) in
    fst (delete_document st id user) = false /\
    Db.documents (db st') = Db.documents (db st) /\
    Db.document_chunks (db st') =
      filter (fun c => negb (String.eqb (Db.chunk_document_id c) id))
             (Db.document_chunks (db st)) /\
    Db.chunks_of_document (db st') id = [] /\
    ChromaVectorService.store (vector_service st') =
      filter (fun e => negb (String.eqb (entry_document_id e) id))
             (ChromaVectorService.store (vector_service st)) /\
    (forall e, In e (ChromaVectorService.store (vector_service st')) ->
               entry_document_id e <> id).
Proof.
  intros distance engine_embed st id user _ Hforeign st'.
  assert (Hnone : forall d, In d (Db.documents (db st)) ->
                            owned_by id user d = false).
  { intros d Hd. unfold owned_by.
    destruct (String.eqb_spec (Db.doc_id d) id) as [Hid|]; [|reflexivity].
    destruct (String.eqb_spec (Db.doc_user_id d) user) as [Hu|]; [|reflexivity].
    now destruct (Hforeign d Hd Hid). }
  subst st'. unfold delete_document.
  cbn [fst snd db vector_service Db.documents Db.document_chunks
       Db.with_documents Db.with_document_chunks].
  split; [|split; [|split; [|split; [|split]]]].
  - rewrite Ranking.filter_none by exact Hnone. reflexivity.
  - apply filter_all. intros d Hd. now rewrite Hnone.
  - reflexivity.
  - unfold Db.chunks_of_document.
    cbn [Db.document_chunks Db.with_documents Db.with_document_chunks].
    apply Ranking.filter_none. intros c Hc. apply filter_In in Hc.
    destruct Hc as [_ Hc]. now apply negb_true_iff in Hc.
  - cbn [v_delete_document Chroma].
    unfold ChromaVectorService.delete_document,
      ChromaVectorService.collection_delete.
    destruct (ChromaVectorService.initialized (vector_service st)); reflexivity.
  - intros e He. cbn [v_delete_document Chroma] in He.
    unfold ChromaVectorService.delete_document,
      ChromaVectorService.collection_delete in He.
    cbn [ChromaVectorService.store] in He.
    assert (Hin : In e (filter (fun e => negb (String.eqb (entry_document_id e) id))
                               (ChromaVectorService.store (vector_service st))))
      by (destruct (ChromaVectorService.initialized (vector_service st)); exact He).
    apply filter_In in Hin. destruct Hin as [_ Hin].
    apply negb_true_iff in Hin. now apply String.eqb_neq in Hin.
Qed.

Local Open Scope string_scope.

(** A store in which user [u1] owns the processed document [doc-1] with
    two chunks; user [u2] owns nothing. *)
Definition sample_row : Db.DocumentRow :=
  {| Db.doc_id := "doc-1"; Db.doc_user_id := "u1";
     Db.filename := "notes.txt"; Db.filepath := "/docs/notes.txt";
     Db.filetype := ".txt"; Db.size := 11; Db.processed := true;
     Db.chunks_count := 2; Db.processing_started := Some 1%Z;
     Db.processed_at := Some 4%Z; Db.processing_error := None;
     Db.uploaded_at := 0 |}.

Definition sample_chunk_row (chunk_id : string) (i : Z) : Db.ChunkRow :=
  {| Db.chunk_row_id := chunk_id; Db.chunk_document_id := "doc-1";
     Db.chunk_content := list_ascii_of_string "hello";
     Db.chunk_row_index := i; Db.chunk_created_at := 2 + i |}.

Definition sample_state
  : ChromaState SearchContract.gap SearchContract.embed_origin :=
  @Build_State (Chroma SearchContract.gap SearchContract.embed_origin)
    {| Db.documents := [sample_row];
       Db.document_chunks :=
         [sample_chunk_row "c1" 0; sample_chunk_row "c2" 1];
       Db.chat_history := []; Db.chat_context := [];
       Db.clock := 5; Db.uuids := 2 |}
    {| ChromaVectorService.initialized := true;
       ChromaVectorService.store :=
         [SearchContract.sample_entry "doc-1" "c1" 3;
          SearchContract.sample_entry "doc-1" "c2" 1] |}.

Lemma foreign_delete_removes_chunks_witness :
  fst (delete_document sample_state "doc-1" "u2") = false /\
  Db.documents (db (snd (delete_document sample_state "doc-1" "u2")))
    = [sample_row] /\
  Db.document_chunks (db (snd (delete_document sample_state "doc-1" "u2")))
    = [] /\
  ChromaVectorService.store
    (vector_service (snd (delete_document sample_state "doc-1" "u2"))) = [].
Proof.
  destruct (foreign_delete_removes_chunks SearchContract.gap
              SearchContract.embed_origin sample_state "doc-1" "u2")
    as (Hret & Hdocs & Hrows & _ & Hstore & _).
  - exists sample_row. split; [now left | reflexivity].
  - intros d [<-|[]] _. discriminate.
  - split; [exact Hret|]. split; [exact Hdocs|].
    split; [rewrite Hrows | rewrite Hstore]; reflexivity.
Defined.

Lemma search_empty_filter distance engine_embed s query limit :
  ChromaVectorService.search distance engine_embed s query (Some []) limit =
  ChromaVectorService.search distance engine_embed s query None limit.
Proof. reflexivity. Qed.

(** C10.  For a user without processed documents [search_documents]
    hands the empty list to [search], which treats it as no filter: the
    hits are those of the unfiltered search, that is the first [limit]
    entries of the whole collection ranked by distance, and when the
    collection has at most [limit] entries every entry comes back,
    whoever owns it. *)
Theorem empty_filter_searches_everything :
  forall (distance : Embedding -> Embedding -> Q)
         (engine_embed : string -> result Embedding)
         (st : ChromaState distance engine_embed)
         (query user : string) (limit : Z),
    user_document_ids (db st) user = [] ->
    let hits := snd (search_documents st query user limit) in
    hits = snd (ChromaVectorService.search distance engine_embed
                  (vector_service st) query None limit) /\
    (forall qe,
        engine_embed query = Ok qe -> (0 < limit)%Z ->
        hits = map (ChromaVectorService.format_hit distance qe)
                   (firstn (Z.to_nat limit)
                           (ChromaVectorService.rank distance qe
                              (ChromaVectorService.store (vector_service st)))) /\
        ((len (ChromaVectorService.store (vector_service st)) <= limit)%Z ->
         Permutation hits
                     (map (ChromaVectorService.format_hit distance qe)
                          (ChromaVectorService.store (vector_service st))))).
Proof.
  intros distance engine_embed st query user limit Hnone hits.
  assert (Hhits : hits = snd (ChromaVectorService.search distance engine_embed
                                (vector_service st) query None limit)).
  { subst hits. unfold search_documents. rewrite Hnone.
    cbn [v_search Chroma]. rewrite search_empty_filter.
    now destruct (ChromaVectorService.search distance engine_embed
                    (vector_service st) query None limit). }
  split; [exact Hhits|]. intros qe Hq Hlimit.
  assert (Hall : hits = map (ChromaVectorService.format_hit distance qe)
                   (firstn (Z.to_nat limit)
                           (ChromaVectorService.rank distance qe
                              (ChromaVectorService.store (vector_service st))))).
  { rewrite Hhits. unfold ChromaVectorService.search. rewrite Hq.
    unfold ChromaVectorService.collection_query.
    destruct (Z.leb_spec limit 0); [lia|].
    cbn [ChromaVectorService.where_filter ChromaVectorService.allowed].
    rewrite !filter_all by reflexivity.
    destruct (ChromaVectorService.initialized (vector_service st)); reflexivity. }
  split; [exact Hall|]. intros Hsmall. rewrite Hall.
  apply Permutation_map.
  destruct (ChromaProps.rank_spec distance qe
              (ChromaVectorService.store (vector_service st))) as (Hperm & _).
  rewrite firstn_all2; [exact Hperm|].
  rewrite (Permutation_length Hperm). unfold len in Hsmall. lia.
Qed.

Lemma empty_filter_searches_everything_witness :
  map ChromaVectorService.hit_chunk_id
      (snd (search_documents sample_state "test" "u2" 5)) = ["c2"; "c1"] /\
  map ChromaVectorService.hit_document_id
      (snd (search_documents sample_state "test" "u2" 5)) = ["doc-1"; "doc-1"].
Proof.
  destruct (empty_filter_searches_everything SearchContract.gap
              SearchContract.embed_origin sample_state "test" "u2" 5)
    as (_ & Hrank).
  - reflexivity.
  - destruct (Hrank [0%Q]) as (Hhits & _); [reflexivity | lia |].
    rewrite Hhits. split; reflexivity.
Defined.

End ChromaRagProps.

(** * Properties of the history listing *)

Module HistoryProps.

Import ChatService.

(** Newest first. *)
Definition rows_descending : list Db.HistoryRow -> Prop :=
  StronglySorted (fun r r' => Db.h_created_at r' <= Db.h_created_at r).

Definition turns_descending (c : Conversation) : Prop :=
  StronglySorted (fun m m' => msg_timestamp m' <= msg_timestamp m) (messages c).

Definition conversations_descending : list Conversation -> Prop :=
  StronglySorted (fun c c' => created_at c' <= created_at c).

(** The time stamp of a conversation is that of its first listed turn. *)
Definition stamped_by_first_turn (c : Conversation) : Prop :=
  exists m rest, messages c = m :: rest /\ msg_timestamp m = created_at c.

Definition ahead (r' r : Db.HistoryRow) : bool :=
  Db.h_created_at r <=? Db.h_created_at r'.

Lemma insert_desc_is_insert r l : insert_desc r l = Ranking.insert ahead r l.
Proof.
  induction l as [|r' l IH]; cbn [insert_desc Ranking.insert]; [reflexivity|].
  unfold ahead at 1. now rewrite IH.
Qed.

Lemma order_by_is_sort rows :
  order_by_created_at_desc rows = Ranking.sort ahead rows.
Proof.
  unfold order_by_created_at_desc, Ranking.sort. generalize (@nil Db.HistoryRow).
  induction rows as [|r rows IH]; intros acc; cbn [fold_left]; [reflexivity|].
  now rewrite insert_desc_is_insert, IH.
Qed.

Lemma order_by_descending rows : rows_descending (order_by_created_at_desc rows).
Proof.
  rewrite order_by_is_sort.
  assert (H : Ranking.ordered ahead (Ranking.sort ahead rows)).
  { apply Ranking.sort_ordered; unfold ahead.
    - intros x y Hxy. apply Z.leb_gt in Hxy. apply Z.leb_le. lia.
    - intros x y z Hxy Hyz. apply Z.leb_le in Hxy, Hyz. apply Z.leb_le. lia. }
  eapply Ranking.sorted_weaken; [|exact H].
  intros x y Hxy. unfold ahead in Hxy. now apply Z.leb_le.
Qed.

Lemma sorted_skipn {A : Type} (R : A -> A -> Prop) (n : nat) (l : list A) :
  StronglySorted R l -> StronglySorted R (skipn n l).
Proof.
  intros H. revert n. induction H as [|x l Hl IH Hx]; intros [|n];
    cbn [skipn]; try constructor; auto.
Qed.

(** The counts of [LIMIT] and [OFFSET] may as well be taken whole. *)
Lemma limit_offset_window {A : Type} (limit offset : Z) (rows : list A) :
  Sql.limit_offset limit offset rows
  = if Sql.int64 limit && Sql.int64 offset then
      Ok (let rest := skipn (Z.to_nat offset) rows in
          if limit <? 0 then rest else firstn (Z.to_nat limit) rest)
    else Err Sql.too_large.
Proof.
  unfold Sql.limit_offset.
  destruct (Sql.int64 limit && Sql.int64 offset); [|reflexivity].
  assert (Hskip : skipn (Z.to_nat (Z.min offset (len rows))) rows
                  = skipn (Z.to_nat offset) rows).
  { destruct (Z.le_ge_cases offset (len rows)) as [H|H].
    - now rewrite Z.min_l by exact H.
    - rewrite Z.min_r by lia. unfold len in *.
      rewrite !skipn_all2 by lia. reflexivity. }
  cbv zeta. rewrite Hskip. destruct (limit <? 0); [reflexivity|].
  f_equal.
  destruct (Z.le_ge_cases limit (len (skipn (Z.to_nat offset) rows)))
    as [H|H].
  - now rewrite Z.min_l by exact H.
  - rewrite Z.min_r by lia. unfold len in *.
    rewrite !firstn_all2 by lia. reflexivity.
Qed.

Lemma select_history_rows d user limit offset :
  select_history d user limit offset
  = if Sql.int64 limit && Sql.int64 offset then
      Ok (let rest :=
            skipn (Z.to_nat offset)
                  (order_by_created_at_desc
                     (filter (fun r => String.eqb (Db.h_user_id r) user)
                             (Db.chat_history d))) in
          if limit <? 0 then rest else firstn (Z.to_nat limit) rest)
    else Err Sql.too_large.
Proof. unfold select_history. apply limit_offset_window. Qed.

Lemma fetch_history_descending d user limit offset :
  rows_descending (fetch_history d user limit offset).
Proof.
  unfold fetch_history. rewrite select_history_rows. unfold rows_descending.
  destruct (Sql.int64 limit && Sql.int64 offset); [|constructor].
  destruct (limit <? 0).
  - apply sorted_skipn, order_by_descending.
  - apply Ranking.sorted_firstn, sorted_skipn, order_by_descending.
Qed.

(** [get_history] groups what was fetched. *)
Lemma get_history_groups d user limit offset :
  get_history d user limit offset
  = group_rows (fetch_history d user limit offset).
Proof.
  unfold get_history, fetch_history.
  destruct (select_history d user limit offset); reflexivity.
Qed.

(** Every time stamp of the conversation is at least [t]. *)
Definition above (t : Z) (c : Conversation) : Prop :=
  t <= created_at c /\ Forall (fun m => t <= msg_timestamp m) (messages c).

Definition grouped (c : Conversation) : Prop :=
  turns_descending c /\ stamped_by_first_turn c.

Definition stamps_descending (convs : list Conversation) : Prop :=
  StronglySorted (fun t t' => t' <= t) (map created_at convs).

Lemma sorted_snoc {A : Type} (R : A -> A -> Prop) (l : list A) (x : A) :
  StronglySorted R l -> Forall (fun y => R y x) l -> StronglySorted R (l ++ [x]).
Proof.
  induction 1 as [|y l Hl IH Hy]; intros Hx; cbn [app].
  - repeat constructor.
  - inversion Hx; subst. constructor; [now apply IH|].
    apply Forall_app. split; [exact Hy | now constructor].
Qed.

Lemma sorted_of_map {A B : Type} (R : B -> B -> Prop) (f : A -> B) (l : list A) :
  StronglySorted R (map f l) -> StronglySorted (fun x y => R (f x) (f y)) l.
Proof.
  induction l as [|x l IH]; cbn [map]; intros H; [constructor|].
  inversion H; subst. constructor; [now apply IH|].
  rewrite Forall_forall in *. intros y Hy.
  match goal with Hall : forall z, In z (map f l) -> _ |- _ => apply Hall end.
  now apply in_map.
Qed.

Lemma values_add {V : Type} (d : Dict.t V) k v :
  Dict.values (Dict.add d k v) = Dict.values d ++ [v].
Proof. unfold Dict.values, Dict.add. now rewrite map_app. Qed.

Lemma update_absent {V : Type} (d : Dict.t V) k v f :
  Dict.get d k = None ->
  Dict.update (Dict.add d k v) k f = Dict.add d k (f v).
Proof.
  unfold Dict.add. induction d as [|[k' v'] d IH]; cbn [app Dict.get Dict.update].
  - now rewrite String.eqb_refl.
  - destruct (String.eqb k' k); [discriminate|]. intros H. now rewrite IH.
Qed.

Lemma update_forall {V : Type} (P : V -> Prop) (d : Dict.t V) k f :
  (forall v, P v -> P (f v)) ->
  Forall P (Dict.values d) -> Forall P (Dict.values (Dict.update d k f)).
Proof.
  intros Hf. unfold Dict.values.
  induction d as [|[k' v] d IH]; cbn [map Dict.update]; intros H; [constructor|].
  inversion H; subst.
  destruct (String.eqb k' k); cbn [map snd]; constructor; auto.
Qed.

Lemma update_keeps {V B : Type} (g : V -> B) (d : Dict.t V) k f :
  (forall v, g (f v) = g v) ->
  map g (Dict.values (Dict.update d k f)) = map g (Dict.values d).
Proof.
  intros Hf. unfold Dict.values.
  induction d as [|[k' v] d IH]; cbn [map Dict.update]; [reflexivity|].
  destruct (String.eqb k' k); cbn [map snd]; [now rewrite Hf | now rewrite IH].
Qed.

Lemma above_weaken t t' c : t' <= t -> above t c -> above t' c.
Proof.
  intros Ht [Hc Hm]. split; [lia|].
  eapply Forall_impl; [|exact Hm]. intros m Hmt. cbn in Hmt. lia.
Qed.

Lemma append_message_grouped row c :
  grouped c /\ above (Db.h_created_at row) c ->
  grouped (append_message row c) /\
  above (Db.h_created_at row) (append_message row c).
Proof.
  intros [[Hturns (m & rest & Hm & Hstamp)] [Hc Hall]].
  unfold grouped, turns_descending, stamped_by_first_turn, above.
  cbn [append_message messages created_at]. repeat split.
  - apply sorted_snoc; [exact Hturns|].
    eapply Forall_impl; [|exact Hall]. intros m' Hm'. exact Hm'.
  - exists m, (rest ++ [{| msg_role := Db.h_role row;
                           msg_content := Db.h_message row;
                           msg_timestamp := Db.h_created_at row |}]).
    split; [now rewrite Hm | exact Hstamp].
  - exact Hc.
  - apply Forall_app. split; [exact Hall|]. constructor; [cbn; lia|constructor].
Qed.

(** One row keeps the dictionary grouped, provided the row is not newer
    than anything already in it. *)
Lemma group_row_grouped acc row :
  stamps_descending (Dict.values acc) ->
  Forall (fun c => grouped c /\ above (Db.h_created_at row) c) (Dict.values acc) ->
  stamps_descending (Dict.values (group_row acc row)) /\
  Forall (fun c => grouped c /\ above (Db.h_created_at row) c)
         (Dict.values (group_row acc row)).
Proof.
  intros Hstamps Hall. unfold group_row, Dict.mem.
  destruct (Dict.get acc (Db.h_conversation_id row)) eqn:Hget.
  - split.
    + unfold stamps_descending. now rewrite update_keeps by reflexivity.
    + apply update_forall; [|exact Hall]. intros v. apply append_message_grouped.
  - rewrite update_absent by exact Hget. rewrite values_add. split.
    + unfold stamps_descending in *. rewrite map_app. cbn [map].
      apply sorted_snoc; [exact Hstamps|].
      apply Forall_map. eapply Forall_impl; [|exact Hall].
      intros c [_ [Hc _]]. exact Hc.
    + apply Forall_app. split; [exact Hall|]. constructor; [|constructor].
      unfold grouped, turns_descending, stamped_by_first_turn, above.
      cbn [append_message messages created_at app]. repeat split.
      * repeat constructor.
      * eexists. eexists. split; reflexivity.
      * lia.
      * constructor; [cbn; lia|constructor].
Qed.

Lemma group_fold_grouped rows :
  rows_descending rows ->
  forall acc,
    stamps_descending (Dict.values acc) ->
    (forall r, In r rows ->
               Forall (fun c => grouped c /\ above (Db.h_created_at r) c)
                      (Dict.values acc)) ->
    Forall grouped (Dict.values acc) ->
    stamps_descending (Dict.values (fold_left group_row rows acc)) /\
    Forall grouped (Dict.values (fold_left group_row rows acc)).
Proof.
  induction 1 as [|r rows Hrows IH Hr]; intros acc Hstamps Habove Hgrouped;
    cbn [fold_left]; [now split|].
  destruct (group_row_grouped acc r Hstamps (Habove r (or_introl eq_refl)))
    as [Hstamps' Hall'].
  apply IH; [exact Hstamps'| |].
  - intros r' Hr'. rewrite Forall_forall in Hr. specialize (Hr r' Hr').
    eapply Forall_impl; [|exact Hall']. intros c [Hg Ha].
    split; [exact Hg|]. eapply above_weaken; [|exact Ha]. exact Hr.
  - eapply Forall_impl; [|exact Hall']. now intros c [Hg _].
Qed.

(** ** Grouping *)

Definition turn_of (r : Db.HistoryRow) : HistoryMessage :=
  {| msg_role := Db.h_role r; msg_content := Db.h_message r;
     msg_timestamp := Db.h_created_at r |}.

Definition has_id (k : string) (r : Db.HistoryRow) : bool :=
  String.eqb (Db.h_conversation_id r) k.

(** The dictionary of [get_history] after the rows [rows]: one entry per
    conversation id seen, holding the turns of the rows of that id. *)
Definition holds (rows : list Db.HistoryRow) (kc : string * Conversation)
  : Prop :=
  conversation_id (snd kc) = fst kc /\
  messages (snd kc) = map turn_of (filter (has_id (fst kc)) rows).

Definition grouping (rows : list Db.HistoryRow) (acc : Dict.t Conversation)
  : Prop :=
  NoDup (Dict.keys acc) /\
  (forall k, In k (Dict.keys acc) <-> In k (map Db.h_conversation_id rows)) /\
  Forall (holds rows) acc.

Lemma filter_snoc {A : Type} (p : A -> bool) (l : list A) (x : A) :
  filter p (l ++ [x]) = (filter p l ++ if p x then [x] else [])%list.
Proof. now rewrite filter_app. Qed.

Lemma holds_other rows r kc :
  fst kc <> Db.h_conversation_id r -> holds rows kc -> holds (rows ++ [r]) kc.
Proof.
  intros Hne [Hid Hm]. split; [exact Hid|].
  rewrite filter_snoc. unfold has_id at 2.
  destruct (String.eqb_spec (Db.h_conversation_id r) (fst kc)) as [E|_].
  - now elim Hne.
  - now rewrite app_nil_r.
Qed.

Lemma holds_appended rows r c :
  holds rows (Db.h_conversation_id r, c) ->
  holds (rows ++ [r]) (Db.h_conversation_id r, append_message r c).
Proof.
  intros [Hid Hm]. cbn [fst snd] in *. split; [exact Hid|].
  cbn [fst snd append_message messages]. rewrite Hm, filter_snoc.
  unfold has_id at 3. rewrite String.eqb_refl, map_app. reflexivity.
Qed.

Lemma update_holds rows r :
  forall acc : Dict.t Conversation,
    NoDup (Dict.keys acc) ->
    Forall (holds rows) acc ->
    Forall (holds (rows ++ [r]))
           (Dict.update acc (Db.h_conversation_id r) (append_message r)).
Proof.
  unfold Dict.keys.
  induction acc as [|[k c] acc IH]; cbn [Dict.update map fst];
    intros Hnd Hall; [constructor|].
  inversion Hnd as [|? ? Hk Hnd']; subst.
  inversion Hall as [|? ? Hc Hall']; subst.
  destruct (String.eqb_spec k (Db.h_conversation_id r)) as [->|Hne].
  - constructor; [now apply holds_appended|].
    rewrite Forall_forall in *. intros kc Hin. apply holds_other.
    + intros E. apply Hk. rewrite <- E. now apply in_map.
    + now apply Hall'.
  - constructor; [now apply holds_other | now apply IH].
Qed.

Lemma grouping_step rows r acc :
  grouping rows acc -> grouping (rows ++ [r]) (group_row acc r).
Proof.
  intros (Hnd & Hkeys & Hall). unfold group_row, Dict.mem.
  destruct (Dict.get acc (Db.h_conversation_id r)) eqn:Hget.
  - assert (Hin : In (Db.h_conversation_id r) (Dict.keys acc)).
    { destruct (in_dec string_dec (Db.h_conversation_id r) (Dict.keys acc))
        as [H|H]; [exact H|].
      apply VectorIndexProps.get_absent in H. congruence. }
    split; [|split].
    + now rewrite VectorIndexProps.keys_update.
    + intros k. rewrite VectorIndexProps.keys_update, map_app, in_app_iff.
      rewrite Hkeys. cbn [map In]. split; [tauto|].
      intros [H|[<-|[]]]; [exact H|]. now apply Hkeys.
    + now apply update_holds.
  - pose proof Hget as Habs. apply VectorIndexProps.get_absent in Habs.
    rewrite update_absent by exact Hget.
    unfold Dict.add. split; [|split].
    + unfold Dict.keys in *. rewrite map_app. cbn [map fst].
      apply NoDup_app; [exact Hnd | repeat constructor; intros [] | ].
      intros k Hk [<-|[]]. now apply Habs.
    + intros k. unfold Dict.keys in *.
      rewrite !map_app, !in_app_iff, Hkeys. cbn [map fst In]. tauto.
    + apply Forall_app. split.
      * rewrite Forall_forall in *. intros kc Hin. apply holds_other.
        -- intros E. apply Habs. rewrite <- E. unfold Dict.keys.
           now apply in_map.
        -- now apply Hall.
      * constructor; [|constructor].
        split; [reflexivity|]. cbn [fst snd append_message messages app].
        rewrite filter_snoc. unfold has_id at 2. rewrite String.eqb_refl.
        replace (filter (has_id (Db.h_conversation_id r)) rows)
          with (@nil Db.HistoryRow); [reflexivity|].
        symmetry. apply Ranking.filter_none. intros x Hx.
        unfold has_id. apply String.eqb_neq. intros E.
        apply Habs, Hkeys. rewrite <- E. now apply in_map.
Qed.

Lemma grouping_all rows : grouping rows (fold_left group_row rows []).
Proof.
  induction rows as [|r rows IH] using rev_ind.
  - split; [constructor|split; [tauto|constructor]].
  - rewrite fold_left_app. cbn [fold_left]. now apply grouping_step.
Qed.

(** C8, as amended.  For a limit and an offset in the 64-bit range,
    [get_history] works on the rows of the user taken newest first, of
    which it skips [offset] and keeps at most [limit] (all of them for a
    negative limit).  It returns one conversation for each conversation
    id among these fetched rows, holding exactly the fetched rows of
    that id.  The conversations are in descending order of their time
    stamp, which is the time stamp of the first turn listed, and within
    each conversation the turns are in descending chronological order,
    newest first.  Outside the 64-bit range nothing is returned. *)
Theorem history_lists_newest_first :
  forall (d : Db.t) (user_id : string) (limit offset : Z),
    let mine := filter (fun r => String.eqb (Db.h_user_id r) user_id)
                       (Db.chat_history d) in
    let conversations := get_history d user_id limit offset in
    if Sql.int64 limit && Sql.int64 offset then
      exists newest_first rows,
        Permutation newest_first mine /\
        rows_descending newest_first /\
        rows = (let rest := skipn (Z.to_nat offset) newest_first in
                if limit <? 0 then rest else firstn (Z.to_nat limit) rest) /\
        NoDup (map conversation_id conversations) /\
        (forall k, In k (map conversation_id conversations)
                   <-> In k (map Db.h_conversation_id rows)) /\
        Forall (fun c => messages c
                         = map turn_of (filter (has_id (conversation_id c)) rows))
               conversations /\
        conversations_descending conversations /\
        Forall (fun c => turns_descending c /\ stamped_by_first_turn c)
               conversations
    else conversations = [].
Proof.
  intros d user_id limit offset mine conversations.
  subst conversations. rewrite get_history_groups.
  pose proof (fetch_history_descending d user_id limit offset) as Hdesc.
  unfold fetch_history in *. rewrite select_history_rows in *.
  fold mine in Hdesc |- *.
  destruct (Sql.int64 limit && Sql.int64 offset); [|reflexivity].
  set (rows := let rest := skipn (Z.to_nat offset)
                                 (order_by_created_at_desc mine) in
               if limit <? 0 then rest else firstn (Z.to_nat limit) rest)
    in *.
  exists (order_by_created_at_desc mine), rows.
  split; [rewrite order_by_is_sort; apply Ranking.sort_perm|].
  split; [apply order_by_descending|]. split; [reflexivity|].
  unfold group_rows.
  destruct (grouping_all rows) as (Hnd & Hkeys & Hall).
  assert (Hids : map conversation_id
                     (Dict.values (fold_left group_row rows []))
                 = Dict.keys (fold_left group_row rows [])).
  { unfold Dict.values, Dict.keys. rewrite map_map. apply map_ext_in.
    intros kc Hin. rewrite Forall_forall in Hall. now apply Hall. }
  rewrite Hids. split; [exact Hnd|]. split; [exact Hkeys|]. split.
  { unfold Dict.values. apply Forall_map.
    eapply Forall_impl; [|exact Hall].
    intros kc [Hid Hm]. now rewrite Hid. }
  destruct (group_fold_grouped rows Hdesc []) as [Hstamps Hgrouped].
  - constructor.
  - intros r _. constructor.
  - constructor.
  - split; [|exact Hgrouped].
    unfold conversations_descending.
    exact (sorted_of_map (fun t t' => t' <= t) created_at _ Hstamps).
Qed.

Local Open Scope string_scope.

Definition turn (conversation role message : string) (ts : Z) : Db.HistoryRow :=
  {| Db.h_user_id := "u1"; Db.h_conversation_id := conversation;
     Db.h_role := role; Db.h_message := lit message; Db.h_model_used := None;
     Db.h_tokens_used := 0; Db.h_created_at := ts |}.

(** One exchange: the question at time 1, the answer at time 2. *)
Definition one_exchange : Db.t :=
  {| Db.documents := []; Db.document_chunks := [];
     Db.chat_history := [turn "conv-1" "user" "What is RAG?" 1;
                         turn "conv-1" "assistant" "Retrieval first." 2];
     Db.chat_context := []; Db.clock := 3; Db.uuids := 1 |}.

(** The second half of C8 as stated: turns in ascending chronological
    order. *)
Definition turns_ascending (c : Conversation) : Prop :=
  StronglySorted (fun m m' => (msg_timestamp m <= msg_timestamp m')%Z)
                 (messages c).

(** C8 fails as stated: the answer, written after the question, is
    listed before it. *)
Lemma turns_ascending_counterexample :
  map (fun c => map msg_role (messages c)) (get_history one_exchange "u1" 50 0)
    = [["assistant"; "user"]] /\
  ~ Forall turns_ascending (get_history one_exchange "u1" 50 0).
Proof.
  split; [reflexivity|].
  intros H. inversion H as [|c l Hc _]; subst.
  unfold turns_ascending in Hc. cbn in Hc.
  inversion Hc as [|m l' _ Hm]; subst.
  inversion Hm as [|? ? Hle _]; subst. cbn in Hle. lia.
Qed.

End HistoryProps.

(** * Properties of the frame codec and of streaming *)

Module StreamProps.

(** ** Hexadecimal digits *)

Lemma hex_value_digit (k : N) :
  (k < 16)%N -> Json.hex_value (Json.hex_digit k) = Some k.
Proof.
  intros Hk.
  destruct k as [|p]; [reflexivity|].
  do 4 (destruct p as [p|p|]; try reflexivity); lia.
Qed.

Lemma hex4_u_escape (n : N) (rest : str) :
  (n < 0x10000)%N ->
  exists h1 h2 h3 h4,
    (Json.u_escape n ++ rest)%list
    = Json.backslash :: N_of_ascii "u" :: h1 :: h2 :: h3 :: h4 :: rest /\
    Json.hex4 h1 h2 h3 h4 = Some n.
Proof.
  intros Hn. unfold Json.u_escape. do 4 eexists. split; [reflexivity|].
  unfold Json.hex4.
  rewrite !hex_value_digit by (apply N.mod_upper_bound; discriminate).
  f_equal.
  replace (n / 4096)%N with (n / 16 / 16 / 16)%N
    by (rewrite !N.Div0.div_div; reflexivity).
  replace (n / 256)%N with (n / 16 / 16)%N
    by (rewrite !N.Div0.div_div; reflexivity).
  zify. Z.to_euclidean_division_equations. lia.
Qed.

(** ** String literals *)

(** How [json.dumps] writes one character. *)
Lemma escape_char_cases (c : N) :
  code_point c = true ->
  (exists e, Json.escape_char c = [Json.backslash; e] /\
             Json.simple_escape e = Some c) \/
  (Json.escape_char c = [c] /\ c <> Json.dquote /\ c <> Json.backslash /\
   (c <? 32)%N = false) \/
  (Json.escape_char c = Json.u_escape c /\ (c < 0x10000)%N) \/
  (exists high low,
      Json.escape_char c = (Json.u_escape high ++ Json.u_escape low)%list /\
      high_surrogate high = true /\ low_surrogate low = true /\
      Json.join_surrogates high low = c).
Proof.
  unfold code_point. intros Hc. apply N.ltb_lt in Hc.
  unfold Json.escape_char.
  destruct (N.eqb_spec c 34) as [->|H34]; [left; eexists; split; reflexivity|].
  destruct (N.eqb_spec c 92) as [->|H92]; [left; eexists; split; reflexivity|].
  destruct (N.eqb_spec c 10) as [->|H10]; [left; eexists; split; reflexivity|].
  destruct (N.eqb_spec c 13) as [->|H13]; [left; eexists; split; reflexivity|].
  destruct (N.eqb_spec c 9) as [->|H9]; [left; eexists; split; reflexivity|].
  destruct (N.eqb_spec c 8) as [->|H8]; [left; eexists; split; reflexivity|].
  destruct (N.eqb_spec c 12) as [->|H12]; [left; eexists; split; reflexivity|].
  destruct ((32 <=? c)%N && (c <=? 126)%N) eqn:Hprint.
  { right; left. apply andb_true_iff in Hprint. destruct Hprint as [Hlo _].
    apply N.leb_le in Hlo.
    repeat split; try assumption. apply N.ltb_ge. exact Hlo. }
  destruct (N.ltb_spec c 0x10000) as [Hbmp|Hastral].
  { right; right; left. split; [reflexivity | exact Hbmp]. }
  right; right; right.
  exists (0xD800 + (c - 0x10000) / 1024 mod 1024)%N,
         (0xDC00 + (c - 0x10000) mod 1024)%N.
  split; [reflexivity|].
  unfold high_surrogate, low_surrogate, Json.join_surrogates.
  rewrite !andb_true_iff, !N.leb_le.
  repeat split; zify; Z.to_euclidean_division_equations; lia.
Qed.

(** No high surrogate stands directly before a low one. *)
Fixpoint unpaired (s : str) : bool :=
  match s with
  | c :: s' =>
      negb (high_surrogate c
            && match s' with
               | c' :: _ => low_surrogate c'
               | [] => false
               end)
      && unpaired s'
  | [] => true
  end.

(** A text that [json.loads] reads back as written: a Python string in
    which no high surrogate stands directly before a low one. *)
Definition decodable (s : str) : Prop :=
  Forall (fun c => code_point c = true) s /\ unpaired s = true.

(** What follows the four digits of an escape. *)
Definition pair_or_single (n : N) (s3 : str) : option (str * str) :=
  match s3 with
  | b :: u :: l1 :: l2 :: l3 :: l4 :: s4 =>
      if high_surrogate n && N.eqb b Json.backslash && Json.is_char u "u"
      then
        match Json.hex4 l1 l2 l3 l4 with
        | Some m =>
            if low_surrogate m
            then Json.cons_char (Json.join_surrogates n m) (Json.scan_string s4)
            else Json.cons_char n (Json.scan_string s3)
        | None => None
        end
      else Json.cons_char n (Json.scan_string s3)
  | _ => Json.cons_char n (Json.scan_string s3)
  end.

Lemma scan_string_u h1 h2 h3 h4 s3 :
  Json.scan_string
    (Json.backslash :: N_of_ascii "u" :: h1 :: h2 :: h3 :: h4 :: s3)
  = match Json.hex4 h1 h2 h3 h4 with
    | Some n => pair_or_single n s3
    | None => None
    end.
Proof. reflexivity. Qed.

Lemma scan_string_simple e ch s :
  Json.simple_escape e = Some ch ->
  Json.scan_string (Json.backslash :: e :: s)
  = Json.cons_char ch (Json.scan_string s).
Proof.
  intros He.
  change (Json.scan_string (Json.backslash :: e :: s))
    with (match Json.simple_escape e with
          | Some ch => Json.cons_char ch (Json.scan_string s)
          | None =>
              if Json.is_char e "u" then
                match s with
                | h1 :: h2 :: h3 :: h4 :: s3 =>
                    match Json.hex4 h1 h2 h3 h4 with
                    | Some n => pair_or_single n s3
                    | None => None
                    end
                | _ => None
                end
              else None
          end).
  now rewrite He.
Qed.

Lemma scan_string_plain c s :
  c <> Json.dquote -> c <> Json.backslash -> (c <? 32)%N = false ->
  Json.scan_string (c :: s) = Json.cons_char c (Json.scan_string s).
Proof.
  intros Hq Hb Hc. cbn [Json.scan_string].
  apply N.eqb_neq in Hq, Hb. now rewrite Hq, Hb, Hc.
Qed.

(** An escape that is not the first half of a pair stands for itself. *)
Lemma pair_or_single_alone n s3 :
  (high_surrogate n = true ->
   forall l1 l2 l3 l4 s4,
     s3 = Json.backslash :: N_of_ascii "u" :: l1 :: l2 :: l3 :: l4 :: s4 ->
     exists m, Json.hex4 l1 l2 l3 l4 = Some m /\ low_surrogate m = false) ->
  pair_or_single n s3 = Json.cons_char n (Json.scan_string s3).
Proof.
  intros H. unfold pair_or_single.
  destruct s3 as [|b [|u [|l1 [|l2 [|l3 [|l4 s4]]]]]]; try reflexivity.
  destruct (high_surrogate n) eqn:Hn; [|reflexivity].
  destruct (N.eqb_spec b Json.backslash) as [->|]; [|reflexivity].
  unfold Json.is_char.
  destruct (N.eqb_spec u (N_of_ascii "u")) as [->|]; [|reflexivity].
  cbn [andb].
  destruct (H eq_refl l1 l2 l3 l4 s4 eq_refl) as (m & -> & ->). reflexivity.
Qed.

(** The head of an escaped text never reads as a low surrogate, unless
    the text starts with one. *)
Lemma escape_follow (s rest : str) l1 l2 l3 l4 s4 :
  Forall (fun c => code_point c = true) s ->
  match s with c :: _ => low_surrogate c = false | [] => True end ->
  (Json.escape s ++ Json.dquote :: rest)%list
  = Json.backslash :: N_of_ascii "u" :: l1 :: l2 :: l3 :: l4 :: s4 ->
  exists m, Json.hex4 l1 l2 l3 l4 = Some m /\ low_surrogate m = false.
Proof.
  intros Hs Hlow Heq. destruct s as [|c s]; [discriminate Heq|].
  inversion Hs as [|? ? Hc _]; subst.
  unfold Json.escape in Heq. cbn [flat_map] in Heq. rewrite <- app_assoc in Heq.
  destruct (escape_char_cases c Hc)
    as [(e & He & Hsimple)|[(He & Hq & Hb & _)|[(He & Hbmp)|
        (high & low & He & Hhigh & Hlow' & _)]]];
    rewrite He in Heq.
  - cbn [app] in Heq. injection Heq as -> _.
    vm_compute in Hsimple. discriminate Hsimple.
  - cbn [app] in Heq. injection Heq as -> _. now elim Hb.
  - destruct (hex4_u_escape c
                (flat_map Json.escape_char s ++ Json.dquote :: rest)%list Hbmp)
      as (h1 & h2 & h3 & h4 & Hu & Hhex).
    unfold str in *. rewrite Hu in Heq.
    injection Heq as <- <- <- <- _. exists c. split; assumption.
  - rewrite <- app_assoc in Heq.
    assert (Hbmp : (high < 0x10000)%N).
    { unfold high_surrogate in Hhigh. apply andb_true_iff in Hhigh.
      destruct Hhigh as [_ Hh]. apply N.leb_le in Hh. lia. }
    destruct (hex4_u_escape high
                (Json.u_escape low ++ flat_map Json.escape_char s
                   ++ Json.dquote :: rest)%list Hbmp)
      as (h1 & h2 & h3 & h4 & Hu & Hhex).
    unfold str in *. rewrite Hu in Heq.
    injection Heq as <- <- <- <- _. exists high. split; [assumption|].
    unfold high_surrogate in Hhigh. unfold low_surrogate.
    apply andb_true_iff in Hhigh. destruct Hhigh as [_ Hh].
    apply N.leb_le in Hh. apply andb_false_iff. left. apply N.leb_gt. lia.
Qed.

(** Decoding undoes the escaping of a string literal. *)
Lemma scan_escape (s rest : str) :
  decodable s ->
  Json.scan_string (Json.escape s ++ Json.dquote :: rest)%list = Some (s, rest).
Proof.
  intros [Hs Hun]. induction s as [|c s IH]; [reflexivity|].
  inversion Hs as [|? ? Hc Hs']; subst.
  cbn [unpaired] in Hun. apply andb_true_iff in Hun. destruct Hun as [Hpair Hun].
  specialize (IH Hs' Hun).
  unfold Json.escape in *. cbn [flat_map]. rewrite <- app_assoc.
  set (tail := (flat_map Json.escape_char s ++ Json.dquote :: rest)%list) in *.
  destruct (escape_char_cases c Hc)
    as [(e & He & Hsimple)|[(He & Hq & Hb & Hctl)|[(He & Hbmp)|
        (high & low & He & Hhigh & Hlow & Hjoin)]]];
    rewrite He.
  - cbn [app]. rewrite (scan_string_simple e c) by exact Hsimple.
    now rewrite IH.
  - cbn [app]. rewrite scan_string_plain by assumption. now rewrite IH.
  - destruct (hex4_u_escape c tail Hbmp) as (h1 & h2 & h3 & h4 & Hu & Hhex).
    unfold str in *. rewrite Hu, scan_string_u, Hhex.
    rewrite pair_or_single_alone; [now rewrite IH|].
    intros Hhigh l1 l2 l3 l4 s4 Htail.
    apply (escape_follow s rest l1 l2 l3 l4 s4 Hs'); [|exact Htail].
    rewrite Hhigh in Hpair. destruct s as [|c' s]; [exact I|].
    cbn [andb] in Hpair. now apply negb_true_iff in Hpair.
  - rewrite <- app_assoc.
    assert (Hh : (high < 0x10000)%N).
    { unfold high_surrogate in Hhigh. apply andb_true_iff in Hhigh.
      destruct Hhigh as [_ Hh]. apply N.leb_le in Hh. lia. }
    assert (Hl : (low < 0x10000)%N).
    { unfold low_surrogate in Hlow. apply andb_true_iff in Hlow.
      destruct Hlow as [_ Hl]. apply N.leb_le in Hl. lia. }
    destruct (hex4_u_escape high (Json.u_escape low ++ tail)%list Hh)
      as (h1 & h2 & h3 & h4 & Hu & Hhex).
    destruct (hex4_u_escape low tail Hl)
      as (l1 & l2 & l3 & l4 & Hu' & Hhex').
    unfold str in *. rewrite Hu, scan_string_u, Hhex, Hu'.
    unfold pair_or_single. rewrite Hhigh, Hhex', Hlow.
    cbn [andb]. rewrite N.eqb_refl. unfold Json.is_char. rewrite N.eqb_refl.
    cbn [andb]. rewrite IH, Hjoin. reflexivity.
Qed.

(** ** Values *)

Lemma skip_ws_stop c s :
  Json.is_ws c = false -> Json.skip_ws (c :: s) = c :: s.
Proof. intros H. cbn [Json.skip_ws]. now rewrite H. Qed.

(** One unfolding of the decoder at each kind of leading character. *)
Lemma parse_value_string f room s :
  Json.parse_value (S f) room (Json.dquote :: s) =
  match Json.scan_string s with
  | Some (x, rest) => Ok (Json.Str x, rest)
  | None => Err (Json.decode_error "Invalid string")
  end.
Proof. reflexivity. Qed.

Lemma parse_value_object f room c s :
  Json.is_ws c = false -> Json.is_char c "}" = false ->
  Json.parse_value (S f) (S room) (N_of_ascii "{" :: c :: s) =
  Json.parse_members f room (c :: s) [].
Proof.
  intros Hws Hc.
  change (Json.parse_value (S f) (S room) (N_of_ascii "{" :: c :: s))
    with (match Json.skip_ws (c :: s) with
          | c' :: rest =>
              if Json.is_char c' "}" then Ok (Json.Obj [], rest)
              else Json.parse_members f room (c' :: rest) []
          | [] =>
              Err (Json.decode_error
                     "Expecting property name enclosed in double quotes")
          end).
  now rewrite skip_ws_stop, Hc.
Qed.

Lemma parse_value_array f room c s :
  Json.is_ws c = false -> Json.is_char c "]" = false ->
  Json.parse_value (S f) (S room) (N_of_ascii "[" :: c :: s) =
  Json.parse_items f room (c :: s) [].
Proof.
  intros Hws Hc.
  change (Json.parse_value (S f) (S room) (N_of_ascii "[" :: c :: s))
    with (match Json.skip_ws (c :: s) with
          | c' :: rest =>
              if Json.is_char c' "]" then Ok (Json.Arr [], rest)
              else Json.parse_items f room (c' :: rest) []
          | [] => Err (Json.decode_error "Expecting value")
          end).
  now rewrite skip_ws_stop, Hc.
Qed.

Lemma parse_members_key f room s acc :
  Json.parse_members (S f) room (Json.dquote :: s) acc =
  match Json.scan_string s with
  | Some (k, rest) =>
      match Json.skip_ws rest with
      | c' :: rest' =>
          if Json.is_char c' ":" then
            match Json.parse_value f room (Json.skip_ws rest') with
            | Ok (v, rest2) =>
                match Json.skip_ws rest2 with
                | c'' :: rest3 =>
                    if Json.is_char c'' "," then
                      Json.parse_members f room (Json.skip_ws rest3)
                                         (acc ++ [(k, v)])
                    else if Json.is_char c'' "}" then
                      Ok (Json.Obj (acc ++ [(k, v)]), rest3)
                    else Err (Json.decode_error "Expecting ',' delimiter")
                | [] => Err (Json.decode_error "Expecting ',' delimiter")
                end
            | Err e => Err e
            | OutOfFuel => OutOfFuel
            end
          else Err (Json.decode_error "Expecting ':' delimiter")
      | [] => Err (Json.decode_error "Expecting ':' delimiter")
      end
  | None => Err (Json.decode_error "Invalid string")
  end.
Proof. reflexivity. Qed.

Lemma parse_items_item f room s acc :
  Json.parse_items (S f) room s acc =
  match Json.parse_value f room s with
  | Ok (v, rest) =>
      match Json.skip_ws rest with
      | c :: rest' =>
          if Json.is_char c "," then
            Json.parse_items f room (Json.skip_ws rest') (acc ++ [v])
          else if Json.is_char c "]" then Ok (Json.Arr (acc ++ [v]), rest')
          else Err (Json.decode_error "Expecting ',' delimiter")
      | [] => Err (Json.decode_error "Expecting ',' delimiter")
      end
  | Err e => Err e
  | OutOfFuel => OutOfFuel
  end.
Proof. reflexivity. Qed.

Lemma dumps_object_one k x :
  Json.dumps (Json.Obj [(k, x)]) =
  (N_of_ascii "{" :: Json.dquote :: Json.escape k
     ++ Json.dquote :: N_of_ascii ":" :: N_of_ascii " "
     :: Json.dumps x ++ [N_of_ascii "}"])%list.
Proof.
  cbn [Json.dumps]. unfold Json.dumps_string.
  change (lit "{") with [N_of_ascii "{"].
  change (lit "}") with [N_of_ascii "}"].
  change (lit ": ") with [N_of_ascii ":"; N_of_ascii " "].
  cbn [app]. rewrite <- !app_assoc. reflexivity.
Qed.

Lemma dumps_array_one x :
  Json.dumps (Json.Arr [x])
  = (N_of_ascii "[" :: Json.dumps x ++ [N_of_ascii "]"])%list.
Proof. reflexivity. Qed.

(** A decoder result for the text of [v], whatever follows it. *)
Definition reads_back (f room : nat) (v : Json.value) : Prop :=
  forall rest,
    Json.parse_value f room (Json.dumps v ++ rest)%list = Ok (v, rest).

(** The text of [v] starts with a character that is neither white space
    nor a closing bracket. *)
Definition starts_value (v : Json.value) : Prop :=
  exists c s, Json.dumps v = c :: s /\ Json.is_ws c = false /\
              Json.is_char c "]" = false /\ Json.is_char c "}" = false.

Lemma starts_value_string c : starts_value (Json.Str c).
Proof. do 2 eexists. split; [reflexivity|]. repeat split. Qed.

Lemma starts_value_object members : starts_value (Json.Obj members).
Proof. do 2 eexists. split; [reflexivity|]. repeat split. Qed.

Lemma starts_value_array items : starts_value (Json.Arr items).
Proof. do 2 eexists. split; [reflexivity|]. repeat split. Qed.

Lemma reads_back_string f room c :
  decodable c -> reads_back (S f) room (Json.Str c).
Proof.
  intros Hc rest. cbn [Json.dumps]. unfold Json.dumps_string.
  cbn [app]. rewrite <- app_assoc. cbn [app].
  rewrite parse_value_string, scan_escape by exact Hc. reflexivity.
Qed.

Lemma reads_back_object_one f room k x :
  decodable k -> starts_value x ->
  reads_back f room x -> reads_back (S (S f)) (S room) (Json.Obj [(k, x)]).
Proof.
  intros Hk (c & sx & Hhead & Hws & _ & _) Hx rest.
  rewrite dumps_object_one. cbn [app]. rewrite <- !app_assoc. cbn [app].
  rewrite parse_value_object by reflexivity.
  rewrite parse_members_key, scan_escape by exact Hk.
  rewrite skip_ws_stop by reflexivity.
  change (Json.is_char (N_of_ascii ":") ":") with true. cbv iota.
  change (Json.skip_ws (N_of_ascii " " :: ?s)) with (Json.skip_ws s).
  assert (Hskip : forall tl,
             Json.skip_ws (Json.dumps x ++ tl)%list = (Json.dumps x ++ tl)%list).
  { intros tl. rewrite Hhead. cbn [app]. now apply skip_ws_stop. }
  rewrite <- app_assoc. rewrite Hskip, Hx. cbn [app].
  rewrite skip_ws_stop by reflexivity. reflexivity.
Qed.

Lemma reads_back_array_one f room x :
  starts_value x ->
  reads_back f room x -> reads_back (S (S f)) (S room) (Json.Arr [x]).
Proof.
  intros (c & sx & Hhead & Hws & Hclose & _) Hx rest.
  rewrite dumps_array_one. cbn [app]. rewrite <- app_assoc.
  assert (Hstart : (Json.dumps x ++ [N_of_ascii "]"] ++ rest)%list
                   = c :: (sx ++ [N_of_ascii "]"] ++ rest)%list)
    by now rewrite Hhead.
  rewrite Hstart, parse_value_array by assumption.
  rewrite <- Hstart, parse_items_item, Hx. cbn [app].
  rewrite skip_ws_stop by reflexivity. reflexivity.
Qed.

Lemma decodable_literal (word : string) :
  forallb code_point (lit word) = true -> unpaired (lit word) = true ->
  decodable (lit word).
Proof.
  intros H Hu. split; [|exact Hu]. apply Forall_forall.
  now apply forallb_forall.
Qed.

(** The delta object is read back wherever four nested containers can
    still be entered. *)
Lemma delta_reads_back f room (c : str) :
  decodable c -> reads_back (9 + f) (4 + room) (AIService.delta c).
Proof.
  intros Hc. unfold AIService.delta.
  apply reads_back_object_one;
    [now apply decodable_literal | apply starts_value_array |].
  apply reads_back_array_one; [apply starts_value_object|].
  apply reads_back_object_one;
    [now apply decodable_literal | apply starts_value_object |].
  apply reads_back_object_one;
    [now apply decodable_literal | apply starts_value_string |].
  now apply reads_back_string.
Qed.

(** [json.loads] reads back the delta object that [json.dumps] wrote,
    trailing newlines included. *)
Lemma loads_dumps_delta room (c : str) :
  (4 <= room)%nat -> decodable c ->
  Json.loads room (Json.dumps (AIService.delta c)
                     ++ AIService.newline ++ AIService.newline)%list
  = Ok (AIService.delta c).
Proof.
  intros Hroom Hc. unfold Json.loads.
  assert (Hhead : exists sx,
             Json.dumps (AIService.delta c)
             = N_of_ascii "{" :: Json.dquote :: N_of_ascii "c"
                 :: N_of_ascii "h" :: sx)
    by (eexists; reflexivity).
  destruct Hhead as [sx Hhead].
  set (text := (Json.dumps (AIService.delta c)
                  ++ AIService.newline ++ AIService.newline)%list).
  assert (Hstart : text = N_of_ascii "{"
                            :: (Json.dquote :: N_of_ascii "c" :: N_of_ascii "h"
                                  :: sx ++ AIService.newline
                                  ++ AIService.newline)%list)
    by (subst text; now rewrite Hhead).
  assert (Hbom : startswith text [0xFEFF%N] = false)
    by (rewrite Hstart; reflexivity).
  assert (Hskip : Json.skip_ws text = text)
    by (rewrite Hstart; now apply skip_ws_stop).
  assert (Hfuel : exists f, (2 * List.length text + 2 = 9 + f)%nat).
  { exists (2 * List.length text + 2 - 9)%nat. rewrite Hstart.
    cbn [List.length]. lia. }
  destruct Hfuel as [f Hfuel].
  assert (Hr : exists r, room = (4 + r)%nat) by (exists (room - 4)%nat; lia).
  destruct Hr as [r ->].
  rewrite Hbom, Hskip, Hfuel. subst text.
  rewrite (delta_reads_back f r c Hc). reflexivity.
Qed.

(** ** The buffer of [stream_completion] *)

Lemma startswith_app (p s : str) : startswith (p ++ s)%list p = true.
Proof.
  induction p as [|c p IH]; cbn [app startswith]; [reflexivity|].
  now rewrite N.eqb_refl, IH.
Qed.

(** A data frame adds its delta to the buffer. *)
Lemma accumulate_frame room (full chunk : str) :
  (4 <= room)%nat -> decodable chunk ->
  ChatService.accumulate room full (AIService.frame chunk)
  = Ok (full ++ chunk)%list.
Proof.
  intros Hroom Hc. unfold ChatService.accumulate, AIService.frame.
  rewrite startswith_app.
  change (skipn 6 (lit "data: " ++ ?s)%list) with s.
  rewrite loads_dumps_delta by assumption. reflexivity.
Qed.

(** The end marker is not JSON and leaves the buffer alone. *)
Lemma accumulate_done room (full : str) :
  ChatService.accumulate room full AIService.done_frame = Ok full.
Proof. destruct room; reflexivity. Qed.

Lemma accumulate_frames room (chunks : list str) :
  (4 <= room)%nat -> Forall decodable chunks ->
  forall (tail : list str) (full : str),
    ChatService.accumulate_all room full (map AIService.frame chunks ++ tail)
    = ChatService.accumulate_all room (full ++ List.concat chunks) tail.
Proof.
  intros Hroom. induction 1 as [|c chunks Hc Hcs IH]; intros tail full;
    cbn [map app List.concat ChatService.accumulate_all].
  - now rewrite app_nil_r.
  - rewrite accumulate_frame by assumption. cbn [bind].
    rewrite IH, <- app_assoc. reflexivity.
Qed.

(** The buffer of [stream_completion] over an engine is the concatenation
    of the deltas that the engine streamed. *)
Lemma stream_completion_buffer uuid_of engine room d messages kwargs user_id :
  (4 <= room)%nat ->
  Forall decodable
         (AIService.stream_generate engine
            (AIService.format_messages messages) kwargs) ->
  exists run,
    ChatService.stream_completion uuid_of
      (AIService.stream_chat_completion engine) room d messages kwargs user_id
    = Ok run /\
    ChatService.yielded run
    = AIService.stream_chat_completion engine messages kwargs /\
    ChatService.full_response run
    = List.concat (AIService.stream_generate engine
                     (AIService.format_messages messages) kwargs) /\
    ChatService.history run
    = match user_id, ChatService.full_response run with
      | Some (String c u), _ :: _ =>
          ChatService.save_to_history uuid_of d (String c u) messages
            (ChatService.full_response run) 0 (AIService.model kwargs)
      | _, _ => d
      end.
Proof.
  intros Hroom Hdeltas.
  assert (Hacc : ChatService.accumulate_all room []
                   (AIService.stream_chat_completion engine messages kwargs)
                 = Ok (List.concat
                         (AIService.stream_generate engine
                            (AIService.format_messages messages) kwargs))).
  { unfold AIService.stream_chat_completion.
    rewrite accumulate_frames by assumption.
    cbn [ChatService.accumulate_all app]. rewrite accumulate_done.
    reflexivity. }
  unfold ChatService.stream_completion. cbv zeta. rewrite Hacc.
  cbn [bind]. eexists. split; [reflexivity|].
  cbn [ChatService.yielded ChatService.full_response ChatService.history].
  repeat split.
Qed.

(** C6, as amended.  Over one engine that generates [text] for the
    prompt, where [json.loads] can enter four nested containers and every
    streamed delta is a Python string without a high surrogate directly
    before a low one: the synchronous completion returns an assistant
    message with content [text]; the text that [stream_completion]
    accumulates is the concatenation of the deltas that the engine
    streams; and the two are equal exactly when these deltas concatenate
    to [text]. *)
Theorem streamed_text_is_synchronous_content :
  forall (uuid_of : nat -> string) (engine : AIService.Engine) (room : nat)
         (d : Db.t) (messages : list AIService.Message)
         (kwargs : AIService.Kwargs) (user_id : option string) (text : str),
    AIService.generate engine (AIService.format_messages messages) kwargs
      = Ok text ->
    (4 <= room)%nat ->
    Forall decodable
           (AIService.stream_generate engine
              (AIService.format_messages messages) kwargs) ->
    exists response run,
      snd (ChatService.create_completion uuid_of
             (AIService.chat_completion engine) d messages kwargs user_id)
        = Ok response /\
      AIService.env_role response = "assistant"%string /\
      AIService.env_content response = text /\
      ChatService.stream_completion uuid_of
        (AIService.stream_chat_completion engine) room d messages kwargs
        user_id = Ok run /\
      ChatService.full_response run
        = List.concat (AIService.stream_generate engine
                         (AIService.format_messages messages) kwargs) /\
      (ChatService.full_response run = AIService.env_content response <->
       List.concat (AIService.stream_generate engine
                      (AIService.format_messages messages) kwargs) = text).
Proof.
  intros uuid_of engine room d messages kwargs user_id text Hgen Hroom Hdeltas.
  destruct (stream_completion_buffer uuid_of engine room d messages kwargs
              user_id Hroom Hdeltas) as (run & Hrun & _ & Hfull & _).
  unfold ChatService.create_completion, AIService.chat_completion.
  rewrite Hgen. cbn [bind].
  eexists. exists run. split; [destruct user_id as [[|c u]|]; reflexivity|].
  cbn [AIService.env_role AIService.env_content].
  split; [reflexivity|]. split; [reflexivity|]. split; [exact Hrun|].
  split; [exact Hfull|]. now rewrite Hfull.
Qed.

Local Open Scope string_scope.

(** An engine that answers every prompt with the same two-part text. *)
Definition echo_engine : AIService.Engine :=
  {| AIService.generate := fun _ _ => Ok (lit "Hello, world");
     AIService.stream_generate := fun _ _ => [lit "Hello"; lit ", world"] |}.

Definition sample_kwargs : AIService.Kwargs :=
  {| AIService.model := Some "qwen2.5:7b";
     AIService.temperature := 7 # 10;
     AIService.max_tokens := 4096 |}.

Definition sample_messages : list AIService.Message :=
  [{| AIService.role := "user"; AIService.content := lit "Say hello" |}].

Definition empty_db : Db.t :=
  {| Db.documents := []; Db.document_chunks := []; Db.chat_history := [];
     Db.chat_context := []; Db.clock := 0; Db.uuids := 0 |}.

Definition uuid_letter (n : nat) : string :=
  "uuid-" ++ String (ascii_of_nat (97 + n)) "".

Lemma streamed_text_is_synchronous_content_witness :
  exists run,
    ChatService.stream_completion uuid_letter
      (AIService.stream_chat_completion echo_engine) 4 empty_db
      sample_messages sample_kwargs (Some "u1") = Ok run /\
    ChatService.full_response run = lit "Hello, world".
Proof.
  assert (Hgen : AIService.generate echo_engine
                   (AIService.format_messages sample_messages) sample_kwargs
                 = Ok (lit "Hello, world")) by reflexivity.
  assert (Hroom : (4 <= 4)%nat) by lia.
  assert (Hdeltas : Forall decodable
                      (AIService.stream_generate echo_engine
                         (AIService.format_messages sample_messages)
                         sample_kwargs)).
  { repeat constructor; apply decodable_literal; reflexivity. }
  destruct (streamed_text_is_synchronous_content uuid_letter echo_engine 4
              empty_db sample_messages sample_kwargs (Some "u1")
              (lit "Hello, world") Hgen Hroom Hdeltas)
    as (response & run & _ & _ & _ & Hrun & Hfull & _).
  exists run. split; [exact Hrun|]. rewrite Hfull. reflexivity.
Defined.

(** C6 as stated, for one service: whenever both calls return, the
    streamed text is the content of the synchronous answer. *)
Definition same_text
           (chat_completion :
              list AIService.Message -> AIService.Kwargs ->
              result AIService.Envelope)
           (stream_chat_completion :
              list AIService.Message -> AIService.Kwargs -> list str)
           (messages : list AIService.Message) : Prop :=
  forall response run,
    snd (ChatService.create_completion uuid_letter chat_completion empty_db
           messages sample_kwargs None) = Ok response ->
    ChatService.stream_completion uuid_letter stream_chat_completion 4
      empty_db messages sample_kwargs None = Ok run ->
    ChatService.full_response run = AIService.env_content response.

(** An engine that answers every prompt with the two halves of one
    character, in one piece. *)
Definition halves_engine : AIService.Engine :=
  {| AIService.generate := fun _ _ => Ok [0xD83D; 0xDE00]%N;
     AIService.stream_generate := fun _ _ => [[0xD83D; 0xDE00]%N] |}.

(** C6 fails as stated.  The service that [ChatService] imports, the one
    of [src/core/ai_engine.py], answers every input with one fixed text
    when asked synchronously and with another when streamed.  And over
    an engine whose only delta is the text it generates, a high
    surrogate followed by a low one, the streamed text is the single
    character that [json.loads] joins them into. *)
Lemma deterministic_backend_counterexample :
  ~ same_text MockAIService.chat_completion
      MockAIService.stream_chat_completion sample_messages /\
  List.concat (AIService.stream_generate halves_engine
                 (AIService.format_messages sample_messages) sample_kwargs)
    = [0xD83D; 0xDE00]%N /\
  AIService.generate halves_engine
    (AIService.format_messages sample_messages) sample_kwargs
    = Ok [0xD83D; 0xDE00]%N /\
  (exists run,
      ChatService.stream_completion uuid_letter
        (AIService.stream_chat_completion halves_engine) 4 empty_db
        sample_messages sample_kwargs None = Ok run /\
      ChatService.full_response run = [0x1F600%N]) /\
  ~ same_text (AIService.chat_completion halves_engine)
      (AIService.stream_chat_completion halves_engine) sample_messages.
Proof.
  assert (Hmock : exists run,
             ChatService.stream_completion uuid_letter
               MockAIService.stream_chat_completion 4 empty_db
               sample_messages sample_kwargs None = Ok run /\
             ChatService.full_response run
             = lit "This is a streamed mocked response.").
  { eexists. split; vm_compute; reflexivity. }
  assert (Hhalves : exists run,
             ChatService.stream_completion uuid_letter
               (AIService.stream_chat_completion halves_engine) 4 empty_db
               sample_messages sample_kwargs None = Ok run /\
             ChatService.full_response run = [0x1F600%N]).
  { eexists. split; vm_compute; reflexivity. }
  split; [|split; [reflexivity|split; [reflexivity|split; [exact Hhalves|]]]].
  - intros H. destruct Hmock as (run & Hrun & Hfull).
    specialize (H _ run eq_refl Hrun). rewrite Hfull in H.
    vm_compute in H. discriminate H.
  - intros H. destruct Hhalves as (run & Hrun & Hfull).
    specialize (H _ run eq_refl Hrun). rewrite Hfull in H.
    vm_compute in H. discriminate H.
Qed.

End StreamProps.

(** * Further properties of the text segmenter *)

Module SegmenterMore.

Import FileHandler.

Section Pieces.
Context {A : Type}.
Implicit Types (text : list A).

(** A slice with bounds in order and not negative, by [firstn] and
    [skipn]. *)
Lemma slice_firstn_skipn text lo hi :
  0 <= lo <= hi ->
  slice text lo hi =
  firstn (Z.to_nat (Z.min hi (len text)) - Z.to_nat (Z.min lo (len text)))
         (skipn (Z.to_nat (Z.min lo (len text))) text).
Proof.
  intros H. unfold slice, clamp.
  destruct (Z.ltb_spec lo 0); [lia|]. destruct (Z.ltb_spec hi 0); [lia|].
  f_equal. unfold len. lia.
Qed.

Lemma firstn_then_piece text (a b : nat) :
  (a <= b)%nat ->
  firstn a text ++ firstn (b - a) (skipn a text) = firstn b text.
Proof.
  intros Hab. rewrite <- (firstn_skipn a (firstn b text)).
  rewrite firstn_firstn, Nat.min_l by exact Hab. f_equal.
  rewrite skipn_firstn_comm. do 2 f_equal; lia.
Qed.

(** The first [step] characters of the window at [s]. *)
Definition piece text (step s : Z) : list A := slice text s (s + step).

Lemma firstn_window text chunk_size step s :
  0 <= s -> 0 < step <= chunk_size ->
  firstn (Z.to_nat step) (slice text s (s + chunk_size)) = piece text step s.
Proof.
  intros Hs Hstep. unfold piece.
  rewrite !slice_firstn_skipn by lia.
  rewrite firstn_firstn. f_equal. unfold len. lia.
Qed.

Lemma pieces_prefix text step :
  0 < step ->
  forall k,
    List.concat (map (piece text step) (starts step k)) =
    firstn (Z.to_nat (Z.of_nat k * step)) text.
Proof.
  intros Hstep. induction k as [|k IH].
  - reflexivity.
  - unfold starts in *. rewrite seq_S, !map_app, concat_app, IH.
    cbn [map List.concat Nat.add]. rewrite app_nil_r.
    unfold piece. rewrite slice_firstn_skipn by nia.
    set (L := len text).
    destruct (Z.le_gt_cases L (Z.of_nat k * step)) as [Hfull|Hpart].
    + rewrite !Z.min_r by nia.
      rewrite Nat.sub_diag. cbn [firstn]. rewrite app_nil_r.
      rewrite !firstn_all2; [reflexivity | |]; unfold L, len in *; nia.
    + rewrite (Z.min_l (Z.of_nat k * step)) by lia.
      rewrite firstn_then_piece by nia.
      destruct (Z.le_gt_cases L (Z.of_nat k * step + step)).
      * rewrite Z.min_r by lia.
        rewrite !firstn_all2; [reflexivity | |]; unfold L, len in *; nia.
      * rewrite Z.min_l by lia. f_equal. nia.
Qed.

End Pieces.
(** X1.  For [0 <= overlap < chunk_size] the chunk of the window that
    starts at [s] has [min chunk_size (len text - s)] characters: every
    chunk is non-empty and has at most [chunk_size] characters. *)
Theorem chunks_are_bounded :
  forall (A : Type) (text : list A) (chunk_size overlap : Z) (fuel : nat),
    0 <= overlap < chunk_size ->
    (List.length text < fuel)%nat ->
    exists chunks,
      split_text fuel text chunk_size overlap = Ok chunks /\
      map len chunks =
        map (fun s => Z.min chunk_size (len text - s))
            (starts (chunk_size - overlap)
                    (window_count text (chunk_size - overlap))) /\
      Forall (fun c => 1 <= len c <= chunk_size) chunks.
Proof.
  intros A text chunk_size overlap fuel Hp Hfuel.
  assert (Hs : 0 < chunk_size - overlap) by lia.
  exists (map (fun s => slice text s (s + chunk_size))
              (starts (chunk_size - overlap)
                      (window_count text (chunk_size - overlap)))).
  split.
  { rewrite SegmenterProps.split_text_windows by assumption.
    now rewrite SegmenterProps.windows_from_starts. }
  assert (Hlen : forall s,
             In s (starts (chunk_size - overlap)
                          (window_count text (chunk_size - overlap))) ->
             len (slice text s (s + chunk_size))
             = Z.min chunk_size (len text - s) /\ 0 <= s < len text).
  { intros s Hin. apply SegmenterProps.in_starts in Hin.
    destruct Hin as (i & Hi & ->).
    apply SegmenterProps.window_count_spec in Hi; [|assumption].
    rewrite SegmenterProps.slice_len by nia. split; nia. }
  split.
  - rewrite map_map. apply map_ext_in. intros s Hin. now apply Hlen.
  - apply Forall_map. apply Forall_forall. intros s Hin.
    destruct (Hlen s Hin) as [-> Hrange]. lia.
Qed.

Lemma chunks_are_bounded_witness :
  exists chunks,
    split_text 12 (SegmenterProps.ascii_text "abcdefghijk") 4 1 = Ok chunks /\
    map len chunks = [4; 4; 4; 2].
Proof.
  destruct (chunks_are_bounded ascii (SegmenterProps.ascii_text "abcdefghijk")
              4 1 12) as (chunks & Hrun & Hlens & _).
  - lia.
  - cbn. lia.
  - exists chunks. split; [exact Hrun|]. rewrite Hlens. reflexivity.
Defined.

(** X2.  For [0 <= overlap < chunk_size] nothing of the text is lost and
    the order is kept: the first [chunk_size - overlap] characters of
    each chunk, put end to end, are the text. *)
Theorem chunks_rebuild_text :
  forall (A : Type) (text : list A) (chunk_size overlap : Z) (fuel : nat),
    0 <= overlap < chunk_size ->
    (List.length text < fuel)%nat ->
    exists chunks,
      split_text fuel text chunk_size overlap = Ok chunks /\
      List.concat (map (firstn (Z.to_nat (chunk_size - overlap))) chunks)
        = text.
Proof.
  intros A text chunk_size overlap fuel Hp Hfuel.
  assert (Hs : 0 < chunk_size - overlap) by lia.
  eexists. split.
  { rewrite SegmenterProps.split_text_windows by assumption.
    now rewrite SegmenterProps.windows_from_starts. }
  rewrite map_map.
  rewrite (map_ext_in _ (piece text (chunk_size - overlap))).
  - rewrite pieces_prefix by assumption. apply firstn_all2.
    unfold window_count.
    pose proof (SegmenterProps.ceil_upper (len text) (chunk_size - overlap) Hs
                  ltac:(unfold len; lia)) as Hup.
    pose proof (SegmenterProps.ceil_nonneg (len text) (chunk_size - overlap) Hs
                  ltac:(unfold len; lia)).
    rewrite Z2Nat.id by lia. unfold len in *. lia.
  - intros s Hin. apply SegmenterProps.in_starts in Hin.
    destruct Hin as (i & _ & ->). apply firstn_window; nia.
Qed.

Lemma chunks_rebuild_text_witness :
  exists chunks,
    split_text 12 (SegmenterProps.ascii_text "abcdefghijk") 4 1 = Ok chunks /\
    List.concat (map (firstn 3) chunks)
      = SegmenterProps.ascii_text "abcdefghijk".
Proof.
  destruct (chunks_rebuild_text ascii (SegmenterProps.ascii_text "abcdefghijk")
              4 1 12) as (chunks & Hrun & Hsame).
  - lia.
  - cbn. lia.
  - exists chunks. split; [exact Hrun | exact Hsame].
Defined.

(** X3.  A negative overlap is accepted and leaves gaps: with
    [chunk_size > 0] and a text longer than [chunk_size], the chunks are
    the windows at the multiples of [chunk_size - overlap], and the
    character at index [chunk_size] lies in none of them. *)
Theorem negative_overlap_leaves_gap :
  forall (A : Type) (text : list A) (chunk_size overlap : Z) (fuel : nat),
    0 < chunk_size -> overlap < 0 -> chunk_size < len text ->
    (List.length text < fuel)%nat ->
    let step := chunk_size - overlap in
    let n := window_count text step in
    split_text fuel text chunk_size overlap =
      Ok (map (fun s => slice text s (s + chunk_size)) (starts step n)) /\
    (forall s, In s (starts step n) ->
               ~ (fst (span text chunk_size s) <= chunk_size
                    < snd (span text chunk_size s))).
Proof.
  intros A text chunk_size overlap fuel Hsize Hov Hlong Hfuel step n.
  assert (Hs : 0 < step) by (subst step; lia).
  split.
  - subst step n. rewrite SegmenterProps.split_text_windows by assumption.
    now rewrite SegmenterProps.windows_from_starts.
  - intros s Hin. apply SegmenterProps.in_starts in Hin.
    destruct Hin as (i & _ & ->). unfold span. cbn [fst snd].
    subst step. destruct i as [|i]; nia.
Qed.

Lemma negative_overlap_leaves_gap_witness :
  split_text 8 (SegmenterProps.ascii_text "abcdefg") 2 (-1) =
  Ok [SegmenterProps.ascii_text "ab"; SegmenterProps.ascii_text "de";
      SegmenterProps.ascii_text "g"].
Proof.
  destruct (negative_overlap_leaves_gap ascii
              (SegmenterProps.ascii_text "abcdefg") 2 (-1) 8) as [Hrun _].
  - lia.
  - lia.
  - cbn. lia.
  - cbn. lia.
  - rewrite Hrun. reflexivity.
Defined.

End SegmenterMore.

(** * Further properties of the in-memory vector index *)

Module VectorIndexMore.

Import VectorService.

(** One entry per document id. *)
Definition well_keyed (index : Index) : Prop := NoDup (Dict.keys index).

Lemma keys_del {V : Type} (d : Dict.t V) k x :
  In x (Dict.keys (Dict.del d k)) -> In x (Dict.keys d).
Proof.
  unfold Dict.keys. induction d as [|[k' v] d IH]; cbn [Dict.del map fst In];
    [tauto|].
  destruct (String.eqb k' k); cbn [map fst In]; tauto.
Qed.

Lemma del_well_keyed {V : Type} (d : Dict.t V) k :
  NoDup (Dict.keys d) -> NoDup (Dict.keys (Dict.del d k)).
Proof.
  unfold Dict.keys. induction d as [|[k' v] d IH]; cbn [Dict.del map fst];
    intros H; [constructor|].
  inversion H; subst. destruct (String.eqb k' k); [assumption|].
  cbn [map fst]. constructor; [|now apply IH].
  intros Hin. now apply keys_del in Hin.
Qed.

Lemma get_del {V : Type} (d : Dict.t V) k k' :
  NoDup (Dict.keys d) ->
  Dict.get (Dict.del d k) k' = if String.eqb k k' then None else Dict.get d k'.
Proof.
  unfold Dict.keys. induction d as [|[k0 v] d IH]; cbn [Dict.del Dict.get map fst];
    intros H.
  - now destruct (String.eqb k k').
  - inversion H as [|? ? Hnot Hrest]; subst.
    destruct (String.eqb_spec k0 k) as [->|Hk0].
    + destruct (String.eqb_spec k k') as [E|Hkk'].
      * rewrite <- E. now apply VectorIndexProps.get_absent.
      * reflexivity.
    + cbn [Dict.get]. rewrite IH by assumption.
      destruct (String.eqb_spec k0 k') as [E|]; [|reflexivity].
      destruct (String.eqb_spec k k'); [congruence|reflexivity].
Qed.

Lemma add_chunk_well_keyed index did cid txt emb md :
  well_keyed index -> well_keyed (add_chunk index did cid txt emb md).
Proof.
  unfold well_keyed, add_chunk, Dict.mem. intros H.
  destruct (Dict.get index did) eqn:Hget.
  - now rewrite VectorIndexProps.keys_update.
  - unfold Dict.add, Dict.keys. rewrite map_app. cbn [map fst].
    apply (Permutation_NoDup (Permutation_cons_append _ _)).
    constructor; [|exact H]. now apply VectorIndexProps.get_absent.
Qed.

Lemma delete_document_well_keyed index did :
  well_keyed index -> well_keyed (delete_document index did).
Proof.
  unfold well_keyed, delete_document. intros H.
  destruct (Dict.mem index did); [now apply del_well_keyed | exact H].
Qed.

Lemma chunks_of_delete index did did' :
  well_keyed index ->
  chunks_of (delete_document index did) did' =
  if String.eqb did did' then [] else chunks_of index did'.
Proof.
  intros H. unfold chunks_of, delete_document, Dict.mem.
  destruct (Dict.get index did) eqn:Hget.
  - rewrite get_del by exact H. now destruct (String.eqb did did').
  - destruct (String.eqb_spec did did') as [<-|]; [|reflexivity].
    now rewrite Hget.
Qed.

Lemma slice_nil {A : Type} (lo hi : Z) : slice (@nil A) lo hi = [].
Proof. unfold slice. now rewrite skipn_nil, firstn_nil. Qed.

(** X4.  In an index with one entry per document id, deleting a document
    leaves an index of the same kind in which that document has no chunk
    and every other document has the chunks it had; a filtered search
    afterwards returns what the search over the other listed ids returned
    before. *)
Theorem deleted_document_is_not_found :
  forall (index : Index) (did query : string) (ids : list string) (limit : Z),
    well_keyed index ->
    well_keyed (delete_document index did) /\
    chunks_of (delete_document index did) did = [] /\
    (forall did', did' <> did ->
                  chunks_of (delete_document index did) did'
                  = chunks_of index did') /\
    search (delete_document index did) query (Some ids) limit =
    search index query
           (Some (filter (fun i => negb (String.eqb did i)) ids)) limit.
Proof.
  intros index did query ids limit H.
  split; [now apply delete_document_well_keyed|]. split; [|split].
  - rewrite chunks_of_delete by exact H. now rewrite String.eqb_refl.
  - intros did' Hne. rewrite chunks_of_delete by exact H.
    destruct (String.eqb_spec did did'); [congruence|reflexivity].
  - unfold search. induction ids as [|i ids IH]; [reflexivity|].
    cbn [flat_map filter]. rewrite IH, chunks_of_delete by exact H.
    destruct (String.eqb did i); cbn [negb flat_map]; [|reflexivity].
    now rewrite slice_nil.
Qed.

Local Open Scope string_scope.

Definition note : Metadata :=
  {| document_name := "notes.txt"; chunk_index := 0; md_user_id := "u1" |}.

Definition two_documents : Index :=
  add_chunk (add_chunk (add_chunk [] "d1" "c1" [] [] note) "d2" "c2" [] [] note)
            "d1" "c3" [] [] note.

Lemma deleted_document_is_not_found_witness :
  map hit_chunk_id
      (search (delete_document two_documents "d1") "test"
              (Some ["d1"; "d2"]) 5) = ["c2"].
Proof.
  destruct (deleted_document_is_not_found two_documents "d1" "test"
              ["d1"; "d2"] 5) as (_ & _ & _ & Hsearch).
  - repeat apply add_chunk_well_keyed. constructor.
  - rewrite Hsearch. reflexivity.
Defined.

Lemma slice_longer {A : Type} (l : list A) (x : A) (limit : Z) :
  (len l < limit)%Z -> slice (l ++ [x]) 0 limit = (l ++ [x])%list.
Proof.
  intros H. apply SegmenterProps.slice_whole.
  unfold len in *. rewrite length_app. cbn [List.length]. lia.
Qed.

(** X5.  A chunk added for a document is found by a search over that
    document whose limit exceeds the number of chunks the document had:
    the hits are the earlier ones followed by the new chunk.  Searches
    over other documents are not affected. *)
Theorem added_chunk_is_found :
  forall (index : Index) (did cid query : string) (txt : text)
         (emb : Embedding) (md : Metadata) (limit : Z),
    (len (chunks_of index did) < limit)%Z ->
    search (add_chunk index did cid txt emb md) query (Some [did]) limit =
      (search index query (Some [did]) limit ++
       [{| hit_document_id := did; hit_chunk_id := cid; hit_content := txt;
           hit_score := 1; hit_metadata := md |}])%list /\
    (forall did' limit', did' <> did ->
       search (add_chunk index did cid txt emb md) query (Some [did']) limit' =
       search index query (Some [did']) limit').
Proof.
  intros index did cid query txt emb md limit Hlimit. split.
  - unfold search. cbn [flat_map]. rewrite !app_nil_r.
    rewrite VectorIndexProps.chunks_of_add_chunk, String.eqb_refl.
    rewrite slice_longer by exact Hlimit.
    rewrite SegmenterProps.slice_whole by lia.
    rewrite map_app. reflexivity.
  - intros did' limit' Hne. unfold search. cbn [flat_map].
    rewrite VectorIndexProps.chunks_of_add_chunk.
    destruct (String.eqb_spec did did'); [congruence|reflexivity].
Qed.

Lemma added_chunk_is_found_witness :
  map hit_chunk_id
      (search (add_chunk two_documents "d1" "c4" [] [] note) "test"
              (Some ["d1"]) 5) = ["c1"; "c3"; "c4"].
Proof.
  destruct (added_chunk_is_found two_documents "d1" "c4" "test" [] [] note 5)
    as [Hsearch _].
  - cbn. lia.
  - rewrite Hsearch. reflexivity.
Defined.

End VectorIndexMore.

(** * Further properties of ingestion over the in-memory index *)

Module IngestionMore.

Import RAGService.
Import IngestionProps.

Section Ingest.
Variable uuid_of : nat -> string.
Variable embed : text -> result Embedding.
Variable extract_text : string -> text.

(** The rows that the loop writes for [chunks], starting at index [i]
    with the [n]-th generated id at time [t]. *)
Fixpoint new_rows (id : string) (i : Z) (n : nat) (t : Z) (chunks : list text)
  : list Db.ChunkRow :=
  match chunks with
  | [] => []
  | c :: rest =>
      {| Db.chunk_row_id := uuid_of n; Db.chunk_document_id := id;
         Db.chunk_content := c; Db.chunk_row_index := i;
         Db.chunk_created_at := t |}
        :: new_rows id (i + 1) (S n) (t + 1) rest
  end.

(** The entries that the loop adds to the index for [chunks]. *)
Fixpoint new_entries (name user : string) (i : Z) (n : nat)
         (chunks : list text) : list VectorService.Chunk :=
  match chunks with
  | [] => []
  | c :: rest =>
      {| VectorService.chunk_id := uuid_of n;
         VectorService.content := c;
         VectorService.embedding :=
           match embed c with Ok v => v | _ => [] end;
         VectorService.metadata :=
           {| document_name := name; chunk_index := i; md_user_id := user |} |}
        :: new_entries name user (i + 1) (S n) rest
  end.

(** A complete run of the loop. *)
Lemma ingest_all document id user :
  forall chunks (st : MemState) i,
    Forall (embeds embed) chunks ->
    exists st',
      ingest uuid_of embed st document id user i chunks = (st', Ok tt) /\
      Db.documents (db st') = Db.documents (db st) /\
      Db.chat_history (db st') = Db.chat_history (db st) /\
      Db.document_chunks (db st') =
        Db.document_chunks (db st)
          ++ new_rows id i (Db.uuids (db st)) (Db.clock (db st)) chunks /\
      VectorService.chunks_of (vector_service st') id =
        VectorService.chunks_of (vector_service st) id
          ++ new_entries (Db.filename document) user i (Db.uuids (db st)) chunks /\
      (forall id', id' <> id ->
                   VectorService.chunks_of (vector_service st') id'
                   = VectorService.chunks_of (vector_service st) id') /\
      (VectorIndexMore.well_keyed (vector_service st) ->
       VectorIndexMore.well_keyed (vector_service st')).
Proof.
  induction chunks as [|c chunks IH]; intros st i Hok.
  - exists st. cbn [ingest new_rows new_entries]. rewrite !app_nil_r.
    repeat split; auto.
  - inversion Hok as [|? ? [v Hv] Hrest]; subst.
    cbn [ingest]. unfold Db.uuid4 at 1. rewrite Hv.
    cbn [v_add_chunk InMemory vector_service with_db]. unfold Db.utcnow at 1.
    match goal with
    | |- exists st', ingest _ _ ?s _ _ _ _ _ = _ /\ _ =>
        destruct (IH s (i + 1) Hrest)
          as (st' & Hrun & Hdocs & Hhist & Hrows & Hvec & Hother & Hkeys)
    end.
    exists st'. split; [exact Hrun|].
    cbn [db vector_service Db.documents Db.chat_history Db.document_chunks
         Db.with_document_chunks Db.uuids Db.clock] in *.
    split; [exact Hdocs|]. split; [exact Hhist|]. split; [|split; [|split]].
    + rewrite Hrows. cbn [new_rows]. now rewrite <- app_assoc.
    + rewrite Hvec, VectorIndexProps.chunks_of_add_chunk, String.eqb_refl.
      cbn [new_entries]. rewrite Hv. now rewrite <- app_assoc.
    + intros id' Hne. rewrite Hother by exact Hne.
      rewrite VectorIndexProps.chunks_of_add_chunk.
      destruct (String.eqb_spec id id'); [congruence|reflexivity].
    + intros Hk. apply Hkeys. now apply VectorIndexMore.add_chunk_well_keyed.
Qed.

Lemma new_rows_document id i n t chunks :
  Forall (fun r => Db.chunk_document_id r = id) (new_rows id i n t chunks).
Proof.
  revert i n t. induction chunks as [|c chunks IH]; intros i n t;
    cbn [new_rows]; constructor; [reflexivity | apply IH].
Qed.

Lemma new_rows_index id i n t chunks :
  map Db.chunk_row_index (new_rows id i n t chunks) =
  map (fun j => i + Z.of_nat j) (seq 0 (List.length chunks)).
Proof.
  revert i n t. induction chunks as [|c chunks IH]; intros i n t;
    cbn [new_rows map List.length seq]; [reflexivity|].
  rewrite IH, <- seq_shift, map_map. cbn [Db.chunk_row_index].
  f_equal; [lia|]. apply map_ext. intros j. lia.
Qed.

Lemma new_rows_content id i n t chunks :
  map Db.chunk_content (new_rows id i n t chunks) = chunks.
Proof.
  revert i n t. induction chunks as [|c chunks IH]; intros i n t;
    cbn [new_rows map]; [reflexivity | now rewrite IH].
Qed.

Lemma new_entries_content name user i n chunks :
  map VectorService.content (new_entries name user i n chunks) = chunks.
Proof.
  revert i n. induction chunks as [|c chunks IH]; intros i n;
    cbn [new_entries map]; [reflexivity | now rewrite IH].
Qed.

Lemma new_ids_agree id name user i n t chunks :
  map Db.chunk_row_id (new_rows id i n t chunks) =
  map VectorService.chunk_id (new_entries name user i n chunks).
Proof.
  revert i n t. induction chunks as [|c chunks IH]; intros i n t;
    cbn [new_rows new_entries map]; [reflexivity|]. f_equal. apply IH.
Qed.

Lemma new_entries_index name user i n chunks :
  map (fun e => chunk_index (VectorService.metadata e))
      (new_entries name user i n chunks) =
  map (fun j => i + Z.of_nat j) (seq 0 (List.length chunks)).
Proof.
  revert i n. induction chunks as [|c chunks IH]; intros i n;
    cbn [new_entries map List.length seq]; [reflexivity|].
  rewrite IH, <- seq_shift, map_map.
  cbn [VectorService.metadata chunk_index].
  f_equal; [lia|]. apply map_ext. intros j. lia.
Qed.

Lemma filter_all_true {A : Type} (p : A -> bool) (l : list A) :
  Forall (fun x => p x = true) l -> filter p l = l.
Proof.
  induction 1 as [|x l Hx _ IH]; cbn [filter]; [reflexivity|].
  now rewrite Hx, IH.
Qed.

(** The whole of a successful run, state by state. *)
Lemma process_document_run fuel (st : MemState) id user document chunks :
  Db.fetch_document (db st) id user = Some document ->
  FileHandler.split_text fuel (extract_text (Db.filepath document))
    FileHandler.default_chunk_size FileHandler.default_overlap = Ok chunks ->
  Forall (embeds embed) chunks ->
  exists st' ts,
    process_document uuid_of embed extract_text fuel st id user = Ok st' /\
    Db.documents (db st') =
      update_rows id
        (fun d => Db.set_processed (len chunks) ts
                    (Db.set_processing_started (Db.clock (db st)) d))
        (Db.documents (db st)) /\
    Db.chat_history (db st') = Db.chat_history (db st) /\
    Db.document_chunks (db st') =
      Db.document_chunks (db st)
        ++ new_rows id 0 (Db.uuids (db st)) (Db.clock (db st) + 1) chunks /\
    VectorService.chunks_of (vector_service st') id =
      VectorService.chunks_of (vector_service st) id
        ++ new_entries (Db.filename document) user 0 (Db.uuids (db st)) chunks /\
    (forall id', id' <> id ->
                 VectorService.chunks_of (vector_service st') id'
                 = VectorService.chunks_of (vector_service st) id').
Proof.
  intros Hfetch Hsplit Hok.
  unfold process_document, process_attempt. rewrite Hfetch.
  unfold Db.utcnow at 1. rewrite Hsplit.
  match goal with
  | |- context [ingest _ _ ?s _ _ _ _ _] =>
      destruct (ingest_all document id user chunks s 0 Hok)
        as (st1 & Hrun & Hdocs & Hhist & Hrows & Hvec & Hother & _)
  end.
  unfold text in Hrun. rewrite Hrun. unfold Db.utcnow.
  eexists. exists (Db.clock (db st1)). split; [reflexivity|].
  cbn [db with_db vector_service Db.update_document Db.documents
       Db.with_documents Db.chat_history Db.document_chunks Db.uuids Db.clock]
    in *.
  split; [|split; [|split; [|split]]].
  - rewrite Hdocs. apply update_rows_compose, keeps_key_started.
  - exact Hhist.
  - exact Hrows.
  - exact Hvec.
  - exact Hother.
Qed.

End Ingest.
(** X6.  After the successful processing of a document that had no
    chunk before, its chunk rows carry the indices 0, 1, ..., n-1 in
    order and hold the chunks of the text; the vector entries of the
    document carry the same ids as the rows, the same contents and the
    same indices; and [chunks_count] is the number of rows. *)
Theorem processed_chunks_are_numbered :
  forall (uuid_of : nat -> string) (embed : text -> result Embedding)
         (extract_text : string -> text) (fuel : nat) (st : MemState)
         (id user : string) (document : Db.DocumentRow) (chunks : list text),
    Db.fetch_document (db st) id user = Some document ->
    FileHandler.split_text fuel (extract_text (Db.filepath document))
      FileHandler.default_chunk_size FileHandler.default_overlap = Ok chunks ->
    Forall (embeds embed) chunks ->
    Db.chunks_of_document (db st) id = [] ->
    VectorService.chunks_of (vector_service st) id = [] ->
    exists st',
      process_document uuid_of embed extract_text fuel st id user = Ok st' /\
      let rows := Db.chunks_of_document (db st') id in
      let entries := VectorService.chunks_of (vector_service st') id in
      map Db.chunk_row_index rows = map Z.of_nat (seq 0 (List.length chunks)) /\
      map Db.chunk_content rows = chunks /\
      map VectorService.chunk_id entries = map Db.chunk_row_id rows /\
      map VectorService.content entries = chunks /\
      map (fun e => chunk_index (VectorService.metadata e)) entries
        = map Db.chunk_row_index rows /\
      (forall d, In d (Db.documents (db st')) -> Db.doc_id d = id ->
                 Db.processed d = true /\ Db.chunks_count d = len rows).
Proof.
  intros uuid_of embed extract_text fuel st id user document chunks
         Hfetch Hsplit Hok Hnorows Hnoentries.
  destruct (process_document_run uuid_of embed extract_text fuel st id user
              document chunks Hfetch Hsplit Hok)
    as (st' & ts & Hrun & Hdocs & _ & Hrows & Hvec & _).
  exists st'. split; [exact Hrun|]. cbv zeta.
  assert (Hmine : Db.chunks_of_document (db st') id =
                  new_rows uuid_of id 0 (Db.uuids (db st))
                           (Db.clock (db st) + 1) chunks).
  { unfold Db.chunks_of_document in *. rewrite Hrows, filter_app, Hnorows.
    cbn [app]. apply filter_all_true.
    eapply Forall_impl; [|apply new_rows_document].
    intros r Hr. cbn in Hr. rewrite Hr. apply String.eqb_refl. }
  rewrite Hmine, Hvec, Hnoentries. cbn [app].
  rewrite new_rows_index, new_rows_content, new_entries_content,
    new_entries_index.
  rewrite <- (new_ids_agree uuid_of embed id (Db.filename document) user 0
                (Db.uuids (db st)) (Db.clock (db st) + 1) chunks).
  repeat split; try reflexivity.
  - rewrite Hdocs in H. unfold update_rows in H. apply in_map_iff in H.
    destruct H as (d0 & <- & _).
    destruct (String.eqb_spec (Db.doc_id d0) id); [reflexivity|contradiction].
  - rewrite Hdocs in H. unfold update_rows in H. apply in_map_iff in H.
    destruct H as (d0 & <- & _).
    destruct (String.eqb_spec (Db.doc_id d0) id) as [_|Hne]; [|contradiction].
    cbn [Db.set_processed Db.chunks_count]. unfold len.
    rewrite <- (new_rows_content uuid_of id 0 (Db.uuids (db st))
                  (Db.clock (db st) + 1) chunks) at 1.
    now rewrite length_map.
Qed.

Local Open Scope string_scope.

Lemma processed_chunks_are_numbered_witness :
  exists st',
    process_document uuid_sample embed_any read_sample 802 sample_state
                     "doc-1" "u1" = Ok st' /\
    map Db.chunk_row_index (Db.chunks_of_document (db st') "doc-1") = [0; 1]%Z.
Proof.
  destruct (processed_chunks_are_numbered uuid_sample embed_any read_sample
              802 sample_state "doc-1" "u1" sample_document
              [sample_text; ["a"%char]])
    as (st' & Hrun & Hindex & _).
  - reflexivity.
  - vm_compute. reflexivity.
  - repeat constructor; eexists; reflexivity.
  - reflexivity.
  - reflexivity.
  - exists st'. split; [exact Hrun | exact Hindex].
Defined.

(** X7.  A document whose file is missing or empty is processed without
    error: it is marked processed with [chunks_count = 0], and no chunk
    row and no vector entry is written, whatever the fuel. *)
Theorem empty_document_is_processed :
  forall (uuid_of : nat -> string) (embed : text -> result Embedding)
         (extract_text : string -> text) (fuel : nat) (st : MemState)
         (id user : string) (document : Db.DocumentRow),
    Db.fetch_document (db st) id user = Some document ->
    extract_text (Db.filepath document) = [] ->
    exists st',
      process_document uuid_of embed extract_text fuel st id user = Ok st' /\
      vector_service st' = vector_service st /\
      Db.document_chunks (db st') = Db.document_chunks (db st) /\
      (forall d, In d (Db.documents (db st')) -> Db.doc_id d = id ->
                 Db.processed d = true /\ Db.chunks_count d = 0%Z) /\
      map Db.processing_error (Db.documents (db st'))
        = map Db.processing_error (Db.documents (db st)).
Proof.
  intros uuid_of embed extract_text fuel st id user document Hfetch Hempty.
  unfold process_document, process_attempt. rewrite Hfetch, Hempty.
  cbn [FileHandler.split_text ingest Db.utcnow].
  eexists. split; [reflexivity|].
  cbn [db with_db vector_service Db.update_document Db.documents
       Db.with_documents Db.document_chunks].
  split; [reflexivity|]. split; [reflexivity|]. split.
  - intros d Hd Hid. rewrite map_map in Hd. apply in_map_iff in Hd.
    destruct Hd as (d0 & <- & _).
    destruct (String.eqb_spec (Db.doc_id d0) id) as [Hd0|Hne].
    + cbn [Db.set_processing_started Db.doc_id]. rewrite Hd0, String.eqb_refl.
      split; reflexivity.
    + destruct (String.eqb_spec (Db.doc_id d0) id); [contradiction|].
      contradiction.
  - rewrite !map_map. apply map_ext. intros d.
    destruct (String.eqb_spec (Db.doc_id d) id) as [Hd|Hne].
    + cbn [Db.set_processing_started Db.doc_id]. now rewrite Hd, String.eqb_refl.
    + destruct (String.eqb_spec (Db.doc_id d) id); [contradiction|reflexivity].
Qed.

Definition read_nothing (path : string) : text := [].

Lemma empty_document_is_processed_witness :
  exists st',
    process_document uuid_sample embed_any read_nothing 0 sample_state
                     "doc-1" "u1" = Ok st' /\
    map Db.chunks_count (Db.documents (db st')) = [0%Z] /\
    map Db.processed (Db.documents (db st')) = [true].
Proof.
  destruct (empty_document_is_processed uuid_sample embed_any read_nothing 0
              sample_state "doc-1" "u1" sample_document eq_refl eq_refl)
    as (st' & Hrun & _).
  exists st'. split; [exact Hrun|].
  vm_compute in Hrun. injection Hrun as <-. split; reflexivity.
Defined.

(** X8.  When the document is not found for the user, because the id is
    unknown or the document belongs to someone else, the attempt inserts
    nothing, and its error handler writes ["Document not found"] into
    [processing_error] of every row with that id, whoever owns it; all
    other rows and columns stay as they were.  This holds for either
    vector service. *)
Theorem request_for_foreign_document_marks_it :
  forall (VB : VectorBackend) (uuid_of : nat -> string)
         (embed : text -> result Embedding) (extract_text : string -> text)
         (fuel : nat) (st : @State VB) (id user : string),
    Db.fetch_document (db st) id user = None ->
    exists st',
      process_document uuid_of embed extract_text fuel st id user = Ok st' /\
      vector_service st' = vector_service st /\
      Db.document_chunks (db st') = Db.document_chunks (db st) /\
      Db.documents (db st') =
        map (fun d => if String.eqb (Db.doc_id d) id
                      then Db.set_processing_error "Document not found" d
                      else d)
            (Db.documents (db st)) /\
      (forall d, In d (Db.documents (db st')) -> Db.doc_id d = id ->
                 Db.processing_error d = Some "Document not found").
Proof.
  intros VB uuid_of embed extract_text fuel st id user Hfetch.
  unfold process_document, process_attempt. rewrite Hfetch.
  eexists. split; [reflexivity|].
  cbn [db with_db vector_service Db.update_document Db.documents
       Db.with_documents Db.document_chunks str_of_exn].
  repeat split.
  intros d Hd Hid. apply in_map_iff in Hd. destruct Hd as (d0 & <- & _).
  destruct (String.eqb_spec (Db.doc_id d0) id); [reflexivity|contradiction].
Qed.

Lemma request_for_foreign_document_marks_it_witness :
  exists st',
    process_document uuid_sample embed_any read_sample 802 sample_state
                     "doc-1" "u2" = Ok st' /\
    map Db.doc_user_id (Db.documents (db st')) = ["u1"] /\
    map Db.processing_error (Db.documents (db st'))
      = [Some "Document not found"].
Proof.
  destruct (request_for_foreign_document_marks_it InMemory uuid_sample
              embed_any read_sample 802 sample_state "doc-1" "u2" eq_refl)
    as (st' & Hrun & _ & _ & Hdocs & _).
  exists st'. split; [exact Hrun|]. rewrite Hdocs. split; reflexivity.
Defined.

(** X9.  The owner's delete over an index with one entry per document id:
    the call returns [True]; afterwards the document is not found, it has
    no chunk row and no vector entry; the rows of other documents, their
    chunk rows and their vector entries are all still there. *)
Theorem owner_delete_removes_document :
  forall (st : MemState) (id user : string) (document : Db.DocumentRow),
    Db.fetch_document (db st) id user = Some document ->
    VectorIndexMore.well_keyed (vector_service st) ->
    let st' := snd (delete_document st id user) in
    fst (delete_document st id user) = true /\
    Db.fetch_document (db st') id user = None /\
    Db.chunks_of_document (db st') id = [] /\
    VectorService.chunks_of (vector_service st') id = [] /\
    (forall d, In d (Db.documents (db st)) -> Db.doc_id d <> id ->
               In d (Db.documents (db st'))) /\
    (forall id', id' <> id ->
       Db.chunks_of_document (db st') id' = Db.chunks_of_document (db st) id' /\
       VectorService.chunks_of (vector_service st') id'
         = VectorService.chunks_of (vector_service st) id').
Proof.
  intros st id user document Hfetch Hkeys st'. subst st'.
  unfold delete_document.
  cbn [fst snd db vector_service Db.documents Db.document_chunks
       Db.with_documents Db.with_document_chunks v_delete_document InMemory].
  unfold Db.fetch_document in *.
  cbn [Db.documents Db.with_documents Db.with_document_chunks].
  apply find_some in Hfetch. destruct Hfetch as [Hin Howned].
  split; [|split; [|split; [|split; [|split]]]].
  - assert (Hgone : In document (filter (owned_by id user)
                                        (Db.documents (db st))))
      by (apply filter_In; split; assumption).
    destruct (filter (owned_by id user) (Db.documents (db st)));
      [destruct Hgone|]. unfold len. cbn [List.length]. apply Z.ltb_lt. lia.
  - match goal with
    | |- find ?p ?l = None => destruct (find p l) as [d|] eqn:Hfind
    end; [|reflexivity].
    apply find_some in Hfind. destruct Hfind as [Hd Hmatch].
    apply filter_In in Hd. destruct Hd as [_ Hnot].
    unfold owned_by in Hnot. rewrite Hmatch in Hnot. discriminate Hnot.
  - unfold Db.chunks_of_document.
    cbn [Db.document_chunks Db.with_documents Db.with_document_chunks].
    apply Ranking.filter_none. intros c Hc. apply filter_In in Hc.
    destruct Hc as [_ Hc]. now apply negb_true_iff in Hc.
  - rewrite VectorIndexMore.chunks_of_delete by exact Hkeys.
    now rewrite String.eqb_refl.
  - intros d Hd Hne. apply filter_In. split; [exact Hd|].
    unfold owned_by. destruct (String.eqb_spec (Db.doc_id d) id);
      [contradiction|reflexivity].
  - intros id' Hne. split.
    + unfold Db.chunks_of_document.
      cbn [Db.document_chunks Db.with_documents Db.with_document_chunks].
      induction (Db.document_chunks (db st)) as [|c rows IH];
        [reflexivity|]. cbn [filter].
      destruct (String.eqb_spec (Db.chunk_document_id c) id) as [Hc|Hc];
        cbn [negb filter].
      * destruct (String.eqb_spec (Db.chunk_document_id c) id');
          [congruence | exact IH].
      * now rewrite IH.
    + rewrite VectorIndexMore.chunks_of_delete by exact Hkeys.
      destruct (String.eqb_spec id id'); [congruence|reflexivity].
Qed.

(** A store in which [u1] owns [doc-1], processed into one chunk, and
    [u2] owns [doc-2], processed into one chunk. *)
Definition stored_row (id user : string) (uploaded : Z) : Db.DocumentRow :=
  {| Db.doc_id := id; Db.doc_user_id := user;
     Db.filename := "notes.txt"; Db.filepath := "/docs/notes.txt";
     Db.filetype := ".txt"; Db.size := 11; Db.processed := true;
     Db.chunks_count := 1; Db.processing_started := Some uploaded;
     Db.processed_at := Some uploaded; Db.processing_error := None;
     Db.uploaded_at := uploaded |}.

Definition stored_chunk (id chunk : string) : Db.ChunkRow :=
  {| Db.chunk_row_id := chunk; Db.chunk_document_id := id;
     Db.chunk_content := short_text; Db.chunk_row_index := 0;
     Db.chunk_created_at := 3 |}.

Definition stored_state : MemState :=
  {| db := {| Db.documents := [stored_row "doc-1" "u1" 1;
                               stored_row "doc-2" "u2" 2];
              Db.document_chunks := [stored_chunk "doc-1" "c1";
                                     stored_chunk "doc-2" "c2"];
              Db.chat_history := []; Db.chat_context := [];
              Db.clock := 5; Db.uuids := 4 |};
     vector_service :=
       VectorService.add_chunk
         (VectorService.add_chunk [] "doc-1" "c1" short_text [] VectorIndexMore.note)
         "doc-2" "c2" short_text [] VectorIndexMore.note |}.

Lemma owner_delete_removes_document_witness :
  fst (delete_document stored_state "doc-1" "u1") = true /\
  map Db.doc_id (Db.documents (db (snd (delete_document stored_state "doc-1" "u1"))))
    = ["doc-2"].
Proof.
  destruct (owner_delete_removes_document stored_state "doc-1" "u1"
              (stored_row "doc-1" "u1" 1)) as (Hret & _).
  - reflexivity.
  - repeat apply VectorIndexMore.add_chunk_well_keyed. constructor.
  - split; [exact Hret | reflexivity].
Defined.

(** X10.  Over the in-memory index [search_documents] changes nothing
    and stays with the caller: every hit belongs to a document that the
    user owns and that is marked processed. *)
Theorem search_documents_stays_with_owner :
  forall (st : MemState) (query user : string) (limit : Z),
    fst (search_documents st query user limit) = st /\
    (forall h, In h (snd (search_documents st query user limit)) ->
       exists d, In d (Db.documents (db st)) /\
                 Db.doc_id d = VectorService.hit_document_id h /\
                 Db.doc_user_id d = user /\
                 Db.processed d = true).
Proof.
  intros st query user limit. unfold search_documents.
  cbn [v_search InMemory fst snd]. split; [now destruct st|].
  intros h Hh.
  apply VectorIndexProps.search_within_filter in Hh. destruct Hh as [Hh _].
  unfold user_document_ids in Hh. apply in_map_iff in Hh.
  destruct Hh as (d & Hid & Hd). apply filter_In in Hd.
  destruct Hd as [Hd Hmatch]. apply andb_true_iff in Hmatch.
  destruct Hmatch as [Huser Hproc]. apply String.eqb_eq in Huser.
  exists d. auto.
Qed.

End IngestionMore.

(** * Properties of the query clauses *)

Module SqlProps.

Section OrderBy.
Context {A : Type}.
Variable ahead : A -> A -> bool.
Hypothesis ahead_total : forall x y, ahead x y = false -> ahead y x = true.
Hypothesis ahead_trans :
  forall x y z, ahead x y = true -> ahead y z = true -> ahead x z = true.

Lemma sql_order_by_is_sort rows : Sql.order_by ahead rows = Ranking.sort ahead rows.
Proof. reflexivity. Qed.

Lemma order_by_perm rows : Permutation (Sql.order_by ahead rows) rows.
Proof. rewrite sql_order_by_is_sort. apply Ranking.sort_perm. Qed.

Lemma order_by_ordered rows :
  StronglySorted (fun x y => ahead x y = true) (Sql.order_by ahead rows).
Proof.
  rewrite sql_order_by_is_sort. now apply Ranking.sort_ordered.
Qed.

End OrderBy.

Lemma in_skipn {A : Type} (n : nat) (l : list A) (x : A) :
  In x (skipn n l) -> In x l.
Proof.
  intros H. rewrite <- (firstn_skipn n l). apply in_or_app. now right.
Qed.

(** The rows that a read path hands on: none when its query raised. *)
Definition fetched {A : Type} (r : result (list A)) : list A :=
  match r with
  | Ok rows => rows
  | _ => []
  end.

Lemma limit_offset_in {A : Type} limit offset (rows : list A) x :
  In x (fetched (Sql.limit_offset limit offset rows)) -> In x rows.
Proof.
  rewrite HistoryProps.limit_offset_window.
  destruct (Sql.int64 limit && Sql.int64 offset); cbn [fetched];
    [|intros []].
  destruct (limit <? 0); intros H.
  - now apply in_skipn in H.
  - apply Ranking.in_firstn in H. now apply in_skipn in H.
Qed.

Lemma limit_offset_sorted {A : Type} (R : A -> A -> Prop) limit offset rows :
  StronglySorted R rows ->
  StronglySorted R (fetched (Sql.limit_offset limit offset rows)).
Proof.
  intros H. rewrite HistoryProps.limit_offset_window.
  destruct (Sql.int64 limit && Sql.int64 offset); cbn [fetched];
    [|constructor].
  destruct (limit <? 0).
  - now apply HistoryProps.sorted_skipn.
  - now apply Ranking.sorted_firstn, HistoryProps.sorted_skipn.
Qed.

Lemma limit_offset_length {A : Type} limit offset (rows : list A) :
  0 <= limit -> len (fetched (Sql.limit_offset limit offset rows)) <= limit.
Proof.
  intros H. rewrite HistoryProps.limit_offset_window.
  destruct (Sql.int64 limit && Sql.int64 offset); cbn [fetched];
    [|unfold len; cbn [List.length]; lia].
  destruct (Z.ltb_spec limit 0); [lia|].
  unfold len. pose proof (firstn_le_length (Z.to_nat limit)
                            (skipn (Z.to_nat offset) rows)). lia.
Qed.

Lemma int64_range (n : Z) : Sql.int64 n = true <-> - 2 ^ 63 <= n < 2 ^ 63.
Proof.
  unfold Sql.int64. rewrite andb_true_iff, Z.leb_le, Z.ltb_lt. tauto.
Qed.

Lemma limit_offset_all {A : Type} limit offset (rows : list A) :
  - 2 ^ 63 <= limit < 0 -> - 2 ^ 63 <= offset <= 0 ->
  Sql.limit_offset limit offset rows = Ok rows.
Proof.
  intros Hl Ho. rewrite HistoryProps.limit_offset_window.
  assert (Hil : Sql.int64 limit = true) by (apply int64_range; lia).
  assert (Hio : Sql.int64 offset = true) by (apply int64_range; lia).
  rewrite Hil, Hio. cbn [andb].
  destruct (Z.ltb_spec limit 0); [|lia].
  replace (Z.to_nat offset) with 0%nat by lia. reflexivity.
Qed.

Lemma limit_offset_overflow {A : Type} limit offset (rows : list A) :
  Sql.int64 limit && Sql.int64 offset = false ->
  fetched (Sql.limit_offset limit offset rows) = [].
Proof. intros H. rewrite HistoryProps.limit_offset_window. now rewrite H. Qed.

End SqlProps.

(** * Properties of the document read paths and of upload *)

Module DocumentQueryProps.

Import RAGService.

(** X11.  [list_documents] returns rows of the caller only, all of them
    processed when [processed_only] is set, newest upload first, and at
    most [limit] of them when [limit] is not negative. *)
Theorem list_documents_is_scoped :
  forall (VB : VectorBackend) (st : @State VB) (user : string)
         (limit offset : Z) (processed_only : bool),
    let rows := list_documents st user limit offset processed_only in
    Forall (fun r => In r (Db.documents (db st)) /\
                     Db.doc_user_id r = user /\
                     (processed_only = true -> Db.processed r = true)) rows /\
    StronglySorted (fun r r' => Db.uploaded_at r' <= Db.uploaded_at r) rows /\
    (0 <= limit -> len rows <= limit).
Proof.
  intros VB st user limit offset processed_only rows. subst rows.
  unfold list_documents.
  match goal with
  | |- context [Sql.limit_offset ?l ?o ?r] =>
      change (match Sql.limit_offset l o r with Ok rows => rows | _ => [] end)
        with (SqlProps.fetched (Sql.limit_offset l o r))
  end.
  split; [|split].
  - apply Forall_forall. intros r Hr.
    apply SqlProps.limit_offset_in in Hr.
    apply (Permutation_in _ (SqlProps.order_by_perm _ _)) in Hr.
    apply filter_In in Hr. destruct Hr as [Hin Hmatch].
    apply andb_true_iff in Hmatch. destruct Hmatch as [Huser Hproc].
    apply String.eqb_eq in Huser. repeat split; auto.
    intros ->. exact Hproc.
  - apply SqlProps.limit_offset_sorted.
    eapply Ranking.sorted_weaken; [|apply SqlProps.order_by_ordered].
    + intros x y Hxy. cbn in Hxy. now apply Z.leb_le.
    + intros x y Hxy. apply Z.leb_gt in Hxy. apply Z.leb_le. lia.
    + intros x y z Hxy Hyz. apply Z.leb_le in Hxy, Hyz. apply Z.leb_le. lia.
  - apply SqlProps.limit_offset_length.
Qed.

(** X12.  [get_document_chunks] returns nothing to a caller who does not
    own the document, and nothing when the limit or the offset is outside
    the 64-bit range; to the owner it returns rows of that document only,
    by ascending chunk index, at most [limit] of them when [limit] is not
    negative, and all of them for a negative limit and an offset that is
    not positive, both within the range. *)
Theorem get_document_chunks_checks_owner :
  forall (VB : VectorBackend) (st : @State VB) (id user : string)
         (limit offset : Z),
    let rows := get_document_chunks st id user limit offset in
    (get_document st id user = None -> rows = []) /\
    (Sql.int64 limit && Sql.int64 offset = false -> rows = []) /\
    Forall (fun r => In r (Db.document_chunks (db st)) /\
                     Db.chunk_document_id r = id) rows /\
    StronglySorted (fun r r' => Db.chunk_row_index r <= Db.chunk_row_index r')
                   rows /\
    (0 <= limit -> len rows <= limit) /\
    (get_document st id user <> None ->
     - 2 ^ 63 <= limit < 0 -> - 2 ^ 63 <= offset <= 0 ->
     Permutation rows (Db.chunks_of_document (db st) id)).
Proof.
  intros VB st id user limit offset rows. subst rows.
  unfold get_document_chunks.
  destruct (get_document st id user) as [document|].
  - match goal with
    | |- context [Sql.limit_offset ?l ?o ?r] =>
        change (match Sql.limit_offset l o r with Ok rows => rows | _ => [] end)
          with (SqlProps.fetched (Sql.limit_offset l o r))
    end.
    split; [discriminate|]. split; [|split; [|split; [|split]]].
    + apply SqlProps.limit_offset_overflow.
    + apply Forall_forall. intros r Hr.
      apply SqlProps.limit_offset_in in Hr.
      apply (Permutation_in _ (SqlProps.order_by_perm _ _)) in Hr.
      apply filter_In in Hr. destruct Hr as [Hin Hmatch].
      apply String.eqb_eq in Hmatch. now split.
    + apply SqlProps.limit_offset_sorted.
      eapply Ranking.sorted_weaken; [|apply SqlProps.order_by_ordered].
      * intros x y Hxy. cbn in Hxy. now apply Z.leb_le.
      * intros x y Hxy. apply Z.leb_gt in Hxy. apply Z.leb_le. lia.
      * intros x y z Hxy Hyz. apply Z.leb_le in Hxy, Hyz. apply Z.leb_le. lia.
    + apply SqlProps.limit_offset_length.
    + intros _ Hl Ho. rewrite SqlProps.limit_offset_all by assumption.
      apply SqlProps.order_by_perm.
  - split; [reflexivity|]. split; [reflexivity|]. split; [constructor|].
    split; [constructor|].
    split; [unfold len; cbn; lia|]. intros H. now destruct H.
Qed.

Lemma find_last {A : Type} (p : A -> bool) (l : list A) (x : A) :
  find p (l ++ [x]) =
  match find p l with
  | Some y => Some y
  | None => if p x then Some x else None
  end.
Proof.
  induction l as [|y l IH]; cbn [app find]; [reflexivity|].
  destruct (p y); [reflexivity | exact IH].
Qed.

(** X13.  An upload whose file can be measured adds one row under a new
    id: the owner finds it, unprocessed, with no chunk and no error;
    nobody else finds it; every other lookup answers as before; the
    vector service is untouched; and the processing task is handed out
    exactly when [process_now] is set.  The id is taken to be new. *)
Theorem added_document_belongs_to_uploader :
  forall (VB : VectorBackend) (uuid_of : nat -> string)
         (stat_size : string -> result Z) (suffix_lower : string -> string)
         (st : @State VB) (filename filepath user : string)
         (process_now : bool) (file_size : Z),
    stat_size filepath = Ok file_size ->
    (forall d, In d (Db.documents (db st)) ->
               Db.doc_id d <> uuid_of (Db.uuids (db st))) ->
    exists st' id row,
      add_document uuid_of stat_size suffix_lower st filename filepath user
                   process_now
        = (st', Ok (id, if process_now then Some (id, user) else None)) /\
      get_document st' id user = Some row /\
      Db.filename row = filename /\ Db.size row = file_size /\
      Db.processed row = false /\ Db.chunks_count row = 0 /\
      Db.processing_error row = None /\
      (forall other, other <> user -> get_document st' id other = None) /\
      (forall id' u, id' <> id -> get_document st' id' u = get_document st id' u) /\
      vector_service st' = vector_service st.
Proof.
  intros VB uuid_of stat_size suffix_lower st filename filepath user
         process_now file_size Hstat Hfresh.
  unfold add_document, Db.uuid4. rewrite Hstat. unfold Db.utcnow.
  eexists. exists (uuid_of (Db.uuids (db st))).
  exists {| Db.doc_id := uuid_of (Db.uuids (db st)); Db.doc_user_id := user;
            Db.filename := filename; Db.filepath := filepath;
            Db.filetype := suffix_lower filepath; Db.size := file_size;
            Db.processed := false; Db.chunks_count := 0;
            Db.processing_started := None; Db.processed_at := None;
            Db.processing_error := None; Db.uploaded_at := Db.clock (db st) |}.
  split; [reflexivity|].
  unfold get_document, Db.fetch_document.
  cbn [db with_db vector_service Db.documents Db.with_documents].
  assert (Hnone : forall u,
             find (fun d => String.eqb (Db.doc_id d) (uuid_of (Db.uuids (db st)))
                            && String.eqb (Db.doc_user_id d) u)
                  (Db.documents (db st)) = None).
  { intros u.
    destruct (find _ (Db.documents (db st))) as [d|] eqn:Hfind; [|reflexivity].
    apply find_some in Hfind. destruct Hfind as [Hin Hmatch].
    apply andb_true_iff in Hmatch. destruct Hmatch as [Hid _].
    apply String.eqb_eq in Hid. now destruct (Hfresh d Hin). }
  split; [|do 5 (split; [reflexivity|]); split; [|split; [|reflexivity]]].
  - rewrite find_last, Hnone. cbn [Db.doc_id Db.doc_user_id].
    now rewrite !String.eqb_refl.
  - intros other Hother. rewrite find_last, Hnone.
    cbn [Db.doc_id Db.doc_user_id]. rewrite String.eqb_refl.
    destruct (String.eqb_spec user other); [congruence|reflexivity].
  - intros id' u Hne. rewrite find_last.
    destruct (find _ (Db.documents (db st))); [reflexivity|].
    cbn [Db.doc_id Db.doc_user_id].
    destruct (String.eqb_spec (uuid_of (Db.uuids (db st))) id');
      [congruence|reflexivity].
Qed.

Local Open Scope string_scope.

Definition stat_eleven (path : string) : result Z := Ok 11%Z.
Definition suffix_txt (path : string) : string := ".txt".

Lemma added_document_belongs_to_uploader_witness :
  exists st',
    add_document IngestionProps.uuid_sample stat_eleven suffix_txt
                 IngestionMore.stored_state "todo.txt" "/docs/todo.txt" "u2"
                 true
      = (st', Ok ("uuid-e", Some ("uuid-e", "u2"))) /\
    option_map Db.filename (get_document st' "uuid-e" "u2") = Some "todo.txt" /\
    get_document st' "uuid-e" "u1" = None.
Proof.
  destruct (added_document_belongs_to_uploader InMemory
              IngestionProps.uuid_sample stat_eleven suffix_txt
              IngestionMore.stored_state "todo.txt" "/docs/todo.txt" "u2"
              true 11 eq_refl)
    as (st' & id & row & Hrun & Hget & Hname & _ & _ & _ & _ & Hother & _).
  - intros d [<-|[<-|[]]]; discriminate.
  - vm_compute in Hrun. injection Hrun as <- <-.
    eexists. split; [reflexivity|]. split; reflexivity.
Defined.

End DocumentQueryProps.

(** * Further properties of the Chroma-backed service *)

Module ChromaMore.

Import RAGService.

Local Open Scope string_scope.

(** X14.  A Chroma-backed service that has not been initialised (no
    search, delete or statistics call has run yet) cannot take a chunk:
    processing a document with at least one chunk ends with the
    attribute error in [processing_error], and neither the store nor the
    [document_chunks] table gains anything. *)
Theorem uninitialised_store_rejects_ingestion :
  forall (distance : Embedding -> Embedding -> Q)
         (engine_embed : string -> result Embedding)
         (uuid_of : nat -> string) (embed : text -> result Embedding)
         (extract_text : string -> text) (fuel : nat)
         (st : ChromaRagProps.ChromaState distance engine_embed)
         (id user : string) (document : Db.DocumentRow)
         (c : text) (rest : list text) (v : Embedding),
    Db.fetch_document (db st) id user = Some document ->
    FileHandler.split_text fuel (extract_text (Db.filepath document))
      FileHandler.default_chunk_size FileHandler.default_overlap
      = Ok (c :: rest) ->
    embed c = Ok v ->
    ChromaVectorService.initialized (vector_service st) = false ->
    exists st',
      process_document uuid_of embed extract_text fuel st id user = Ok st' /\
      vector_service st' = vector_service st /\
      Db.document_chunks (db st') = Db.document_chunks (db st) /\
      (forall d, In d (Db.documents (db st')) -> Db.doc_id d = id ->
                 Db.processing_error d
                 = Some "'NoneType' object has no attribute 'add'").
Proof.
  intros distance engine_embed uuid_of embed extract_text fuel st id user
         document c rest v Hfetch Hsplit Hembed Hinit.
  unfold process_document, process_attempt. rewrite Hfetch.
  unfold Db.utcnow at 1. rewrite Hsplit.
  cbn [ingest]. unfold Db.uuid4. rewrite Hembed.
  cbn [v_add_chunk Chroma vector_service with_db].
  unfold ChromaVectorService.add_chunk. rewrite Hinit.
  eexists. split; [reflexivity|].
  cbn [db with_db vector_service Db.update_document Db.documents
       Db.with_documents Db.document_chunks str_of_exn].
  split; [reflexivity|]. split; [reflexivity|].
  intros d Hd Hid. apply in_map_iff in Hd. destruct Hd as (d0 & <- & _).
  destruct (String.eqb_spec (Db.doc_id d0) id); [reflexivity|contradiction].
Qed.

Definition fresh_state
  : ChromaRagProps.ChromaState SearchContract.gap SearchContract.embed_origin :=
  @Build_State (Chroma SearchContract.gap SearchContract.embed_origin)
    (db IngestionProps.sample_state)
    {| ChromaVectorService.initialized := false;
       ChromaVectorService.store := [] |}.

Lemma uninitialised_store_rejects_ingestion_witness :
  exists st',
    process_document IngestionProps.uuid_sample IngestionProps.embed_any
                     IngestionProps.read_short 12 fresh_state "doc-1" "u1"
      = Ok st' /\
    map Db.processing_error (Db.documents (db st'))
      = [Some "'NoneType' object has no attribute 'add'"] /\
    ChromaVectorService.store (vector_service st') = [].
Proof.
  destruct (uninitialised_store_rejects_ingestion SearchContract.gap
              SearchContract.embed_origin IngestionProps.uuid_sample
              IngestionProps.embed_any IngestionProps.read_short 12
              fresh_state "doc-1" "u1" IngestionProps.sample_document
              IngestionProps.short_text [] [11 # 1])
    as (st' & Hrun & Hvec & _).
  - reflexivity.
  - reflexivity.
  - reflexivity.
  - reflexivity.
  - exists st'. split; [exact Hrun|]. rewrite Hvec.
    vm_compute in Hrun. injection Hrun as <-. split; reflexivity.
Defined.

(** X15.  [get_collection_stats] initialises the service and leaves the
    store as it is; the number of unique documents it reports is at
    least 0 and at most the number of chunks, and is 0 exactly when the
    store is empty. *)
Theorem stats_count_documents_once :
  forall (s : ChromaVectorService.Service),
    let s' := fst (ChromaVectorService.get_collection_stats s) in
    let stats := snd (ChromaVectorService.get_collection_stats s) in
    ChromaVectorService.initialized s' = true /\
    ChromaVectorService.store s' = ChromaVectorService.store s /\
    ChromaVectorService.total_chunks stats = len (ChromaVectorService.store s) /\
    (0 <= ChromaVectorService.unique_documents stats
       <= ChromaVectorService.total_chunks stats)%Z /\
    (ChromaVectorService.unique_documents stats = 0%Z <->
     ChromaVectorService.store s = []).
Proof.
  intros s s' stats. subst s' stats.
  unfold ChromaVectorService.get_collection_stats.
  cbn [fst snd ChromaVectorService.total_chunks
       ChromaVectorService.unique_documents].
  assert (Hstore : ChromaVectorService.store
                     (if ChromaVectorService.initialized s then s
                      else ChromaVectorService.initialize s)
                   = ChromaVectorService.store s)
    by (destruct (ChromaVectorService.initialized s); reflexivity).
  rewrite Hstore.
  split; [destruct (ChromaVectorService.initialized s) eqn:E; [exact E|reflexivity]|].
  split; [reflexivity|]. split; [reflexivity|]. split.
  - unfold len.
    pose proof (NoDup_incl_length
                  (NoDup_nodup string_dec
                     (map (fun e => ChromaVectorService.em_document_id
                                      (ChromaVectorService.entry_meta e))
                          (ChromaVectorService.store s)))
                  (fun x Hx => proj1 (nodup_In string_dec _ x) Hx)) as Hle.
    rewrite length_map in Hle. lia.
  - destruct (ChromaVectorService.store s) as [|e l]; [split; reflexivity|].
    split; [|discriminate]. intros H. exfalso.
    assert (Hin : In (ChromaVectorService.em_document_id
                        (ChromaVectorService.entry_meta e))
                     (nodup string_dec
                        (map (fun e => ChromaVectorService.em_document_id
                                         (ChromaVectorService.entry_meta e))
                             (e :: l))))
      by (apply nodup_In; now left).
    destruct (nodup string_dec _); [destruct Hin|].
    unfold len in H. cbn [List.length] in H. lia.
Qed.

End ChromaMore.

(** * Properties of the document routes *)

Module DocumentRouteProps.

Import DocumentRoutes.

(** X16.  The 404 that the document routes raise for a missing document
    never reaches the caller: the route's own handler turns it into a
    500.  [GET /documents/{id}] answers with the row when the caller owns
    the document and with status 500 otherwise; [DELETE /documents/{id}]
    answers with status 500 whenever no row was deleted. *)
Theorem missing_document_answers_500 :
  forall (VB : RAGService.VectorBackend) (st : @RAGService.State VB)
         (id user : string),
    get_document st id user <> HTTPException 404%Z /\
    fst (delete_document st id user) <> HTTPException 404%Z /\
    (Db.fetch_document (RAGService.db st) id user = None ->
     get_document st id user = HTTPException 500%Z /\
     fst (delete_document st id user) = HTTPException 500%Z) /\
    (forall document,
        Db.fetch_document (RAGService.db st) id user = Some document ->
        get_document st id user = Success document).
Proof.
  intros VB st id user.
  unfold get_document, delete_document, RAGService.get_document,
    RAGService.delete_document.
  cbn [fst].
  split; [|split; [|split]].
  - destruct (Db.fetch_document (RAGService.db st) id user); discriminate.
  - destruct (0 <? _)%Z; discriminate.
  - intros Hnone. rewrite Hnone. split; [reflexivity|].
    assert (Hgone : filter (RAGService.owned_by id user)
                           (Db.documents (RAGService.db st)) = []).
    { apply Ranking.filter_none. intros d Hd.
      destruct (RAGService.owned_by id user d) eqn:E; [|reflexivity].
      unfold Db.fetch_document in Hnone. unfold RAGService.owned_by in E.
      now rewrite (find_none _ _ Hnone d Hd) in E. }
    cbn [Db.documents Db.with_document_chunks]. rewrite Hgone. reflexivity.
  - intros document ->. reflexivity.
Qed.

End DocumentRouteProps.

(** * Further properties of the history store *)

Module HistoryMore.

Import ChatService.
Import HistoryProps.

Local Open Scope string_scope.

Definition is_user (m : AIService.Message) : bool :=
  String.eqb (AIService.role m) "user".

(** The rows that [save_user_messages] writes, from time [t] on. *)
Fixpoint user_rows (user conversation : string) (model : option string)
         (t : Z) (messages : list AIService.Message) : list Db.HistoryRow :=
  match messages with
  | [] => []
  | m :: rest =>
      if is_user m then
        {| Db.h_user_id := user; Db.h_conversation_id := conversation;
           Db.h_role := "user"; Db.h_message := AIService.content m;
           Db.h_model_used := model; Db.h_tokens_used := 0;
           Db.h_created_at := t |}
          :: user_rows user conversation model (t + 1) rest
      else user_rows user conversation model t rest
  end.

Definition assistant_row (user conversation : string) (model : option string)
           (t : Z) (content : str) (tokens : Z) : Db.HistoryRow :=
  {| Db.h_user_id := user; Db.h_conversation_id := conversation;
     Db.h_role := "assistant"; Db.h_message := content;
     Db.h_model_used := model; Db.h_tokens_used := tokens;
     Db.h_created_at := t |}.

Lemma user_rows_length user conversation model t messages :
  List.length (user_rows user conversation model t messages)
  = List.length (filter is_user messages).
Proof.
  revert t. induction messages as [|m rest IH]; intros t;
    cbn [user_rows filter]; [reflexivity|].
  destruct (is_user m); cbn [List.length]; now rewrite IH.
Qed.

(** Every value that the exchange binds can be stored: no user message
    and no answer holds a surrogate, and the token count fits 64 bits. *)
Definition storable (messages : list AIService.Message) (content : str)
           (tokens : Z) : Prop :=
  Forall (fun m => Sql.utf8 (AIService.content m) = true)
         (filter is_user messages) /\
  Sql.utf8 content = true /\ Sql.int64 tokens = true.

(** What the loop over the user messages leaves: a first part of the
    user rows, all of them when it ran to its end, which it does when
    every user message can be stored. *)
Lemma save_user_messages_rows user conversation model messages :
  forall d,
    exists rows rest,
      user_rows user conversation model (Db.clock d) messages
      = (rows ++ rest)%list /\
      Db.chat_history
        (fst (save_user_messages d user conversation model messages))
      = (Db.chat_history d ++ rows)%list /\
      Db.uuids (fst (save_user_messages d user conversation model messages))
      = Db.uuids d /\
      Db.documents
        (fst (save_user_messages d user conversation model messages))
      = Db.documents d /\
      Db.document_chunks
        (fst (save_user_messages d user conversation model messages))
      = Db.document_chunks d /\
      (snd (save_user_messages d user conversation model messages) = true ->
       rest = [] /\
       Db.clock (fst (save_user_messages d user conversation model messages))
       = (Db.clock d + len (filter is_user messages))%Z) /\
      (Forall (fun m => Sql.utf8 (AIService.content m) = true)
              (filter is_user messages) ->
       snd (save_user_messages d user conversation model messages) = true).
Proof.
  induction messages as [|m rest' IH]; intros d.
  - exists [], []. cbn [save_user_messages user_rows filter fst snd app].
    rewrite app_nil_r. unfold len. cbn [List.length Z.of_nat].
    rewrite Z.add_0_r. auto 10.
  - cbn [save_user_messages user_rows filter]. fold (is_user m).
    destruct (is_user m); [|apply IH].
    unfold Db.utcnow, insert_history.
    cbn [Db.h_message Db.h_tokens_used].
    destruct (Sql.utf8 (AIService.content m)) eqn:Hutf; cbn [negb].
    + change (Sql.int64 0) with true. cbn [negb].
      match goal with
      | |- context [save_user_messages ?s _ _ _ _] =>
          destruct (IH s) as (rows & rest & Hsplit & Hh & Hu & Hd & Hk
                              & Hdone & Hall)
      end.
      cbn [Db.with_chat_history Db.chat_history Db.clock Db.uuids
           Db.documents Db.document_chunks] in *.
      eexists (_ :: rows), rest. rewrite Hsplit, Hh, Hu, Hd, Hk.
      rewrite <- app_assoc. cbn [app].
      repeat split; try reflexivity.
      * now apply Hdone.
      * apply Hdone in H. destruct H as [_ H]. rewrite H.
        unfold len. cbn [List.length]. lia.
      * intros H. inversion H; subst. now apply Hall.
    + eexists [], _. cbn [fst snd app]. rewrite app_nil_r.
      cbn [Db.chat_history Db.uuids Db.documents Db.document_chunks].
      repeat split; try reflexivity; try discriminate.
      intros H. inversion H; subst. congruence.
Qed.

(** The rows of one saved exchange. *)
Definition exchange_rows (uuid_of : nat -> string) (d : Db.t) (user : string)
           (messages : list AIService.Message) (content : str) (tokens : Z)
           (model : option string) : list Db.HistoryRow :=
  (user_rows user (uuid_of (Db.uuids d)) model (Db.clock d) messages
     ++ [assistant_row user (uuid_of (Db.uuids d)) model
                       (Db.clock d + len (filter is_user messages))
                       content tokens])%list.

(** [save_to_history] writes a first part of the exchange, and all of it
    when every value can be stored. *)
Lemma save_to_history_rows uuid_of d user messages content tokens model :
  exists rows rest,
    exchange_rows uuid_of d user messages content tokens model
    = (rows ++ rest)%list /\
    Db.chat_history
      (save_to_history uuid_of d user messages content tokens model)
    = (Db.chat_history d ++ rows)%list /\
    Db.documents (save_to_history uuid_of d user messages content tokens model)
    = Db.documents d /\
    Db.document_chunks
      (save_to_history uuid_of d user messages content tokens model)
    = Db.document_chunks d /\
    (storable messages content tokens -> rest = []).
Proof.
  unfold save_to_history, Db.uuid4, exchange_rows.
  match goal with
  | |- context [save_user_messages ?s ?u ?c ?m ?ms] =>
      destruct (save_user_messages_rows u c m ms s)
        as (rows & rest & Hsplit & Hh & Hu & Hd & Hk & Hdone & Hall);
      destruct (save_user_messages s u c m ms) as [d2 done]
  end.
  cbn [fst snd Db.clock Db.uuids Db.chat_history Db.documents
       Db.document_chunks] in *.
  destruct done.
  - destruct (Hdone eq_refl) as [-> Hclock]. rewrite app_nil_r in Hsplit.
    unfold Db.utcnow, insert_history. cbn [Db.h_message Db.h_tokens_used].
    rewrite Hclock, Hsplit.
    destruct (Sql.utf8 content) eqn:Hutf; cbn [negb].
    + destruct (Sql.int64 tokens) eqn:Hint; cbn [negb].
      * eexists (rows ++ [_])%list, [].
        cbn [Db.with_chat_history Db.chat_history Db.documents
             Db.document_chunks].
        rewrite Hh, Hd, Hk, app_nil_r, <- app_assoc.
        repeat split; reflexivity.
      * exists rows. eexists.
        cbn [Db.chat_history Db.documents Db.document_chunks].
        rewrite Hh, Hd, Hk. repeat split; try reflexivity.
        intros (_ & _ & H). congruence.
    + exists rows. eexists.
      cbn [Db.chat_history Db.documents Db.document_chunks].
      rewrite Hh, Hd, Hk. repeat split; try reflexivity.
      intros (_ & H & _). congruence.
  - exists rows. eexists. rewrite Hsplit, Hh, Hd, Hk, <- app_assoc.
    repeat split; try reflexivity.
    intros (H & _ & _). apply Hall in H. discriminate H.
Qed.

(** The whole exchange, when every value can be stored. *)
Lemma save_to_history_all uuid_of d user messages content tokens model :
  storable messages content tokens ->
  Db.chat_history
    (save_to_history uuid_of d user messages content tokens model)
  = (Db.chat_history d
       ++ exchange_rows uuid_of d user messages content tokens model)%list.
Proof.
  intros Hs.
  destruct (save_to_history_rows uuid_of d user messages content tokens model)
    as (rows & rest & Hsplit & Hh & _ & _ & Hall).
  rewrite (Hall Hs), app_nil_r in Hsplit. now rewrite Hh, Hsplit.
Qed.

Lemma user_rows_forall (P : Db.HistoryRow -> Prop) user conversation model :
  (forall t content,
      P {| Db.h_user_id := user; Db.h_conversation_id := conversation;
           Db.h_role := "user"; Db.h_message := content;
           Db.h_model_used := model; Db.h_tokens_used := 0;
           Db.h_created_at := t |}) ->
  forall messages t, Forall P (user_rows user conversation model t messages).
Proof.
  intros HP messages. induction messages as [|m rest IH]; intros t;
    cbn [user_rows]; [constructor|].
  destruct (is_user m); [constructor; [apply HP | apply IH] | apply IH].
Qed.

Lemma user_rows_message user conversation model messages :
  forall t,
    map Db.h_message (user_rows user conversation model t messages)
    = map AIService.content (filter is_user messages).
Proof.
  induction messages as [|m rest IH]; intros t; cbn [user_rows filter];
    [reflexivity|].
  destruct (is_user m); cbn [map]; now rewrite IH.
Qed.

Lemma user_rows_role user conversation model messages :
  forall t,
    map Db.h_role (user_rows user conversation model t messages)
    = repeat "user" (List.length (filter is_user messages)).
Proof.
  induction messages as [|m rest IH]; intros t; cbn [user_rows filter];
    [reflexivity|].
  destruct (is_user m); cbn [map List.length repeat Db.h_role];
    now rewrite IH.
Qed.

Lemma exchange_rows_owner uuid_of d user messages content tokens model :
  Forall (fun r => Db.h_user_id r = user /\
                   Db.h_conversation_id r = uuid_of (Db.uuids d))
         (exchange_rows uuid_of d user messages content tokens model).
Proof.
  unfold exchange_rows. apply Forall_app. split; [|repeat constructor].
  apply user_rows_forall. intros t c. split; reflexivity.
Qed.

(** X17.  [save_to_history] appends rows to the history and touches
    nothing else, all of them under the caller's user id and the one
    conversation id drawn for the call.  When every value can be stored
    (no surrogate in a user message or in the answer, a token count
    within 64 bits) the rows are the whole exchange: one row per message
    of role ["user"], in order, then the assistant row; messages of
    other roles are not stored.  Otherwise the rows are the part of the
    exchange that was written before the first value that cannot be
    stored. *)
Theorem saved_exchange_is_one_conversation :
  forall (uuid_of : nat -> string) (d : Db.t) (user : string)
         (messages : list AIService.Message) (content : str) (tokens : Z)
         (model : option string),
    let d' := save_to_history uuid_of d user messages content tokens model in
    let asked := filter is_user messages in
    exists rows,
      Db.chat_history d' = (Db.chat_history d ++ rows)%list /\
      Forall (fun r => Db.h_user_id r = user /\
                       Db.h_conversation_id r = uuid_of (Db.uuids d)) rows /\
      (exists rest,
          (map Db.h_role rows ++ map Db.h_role rest
           = repeat "user" (List.length asked) ++ ["assistant"])%list /\
          (map Db.h_message rows ++ map Db.h_message rest
           = map AIService.content asked ++ [content])%list /\
          (storable messages content tokens -> rest = [])) /\
      (storable messages content tokens ->
       map Db.h_role rows
       = (repeat "user" (List.length asked) ++ ["assistant"])%list /\
       map Db.h_message rows
       = (map AIService.content asked ++ [content])%list) /\
      Db.documents d' = Db.documents d /\
      Db.document_chunks d' = Db.document_chunks d.
Proof.
  intros uuid_of d user messages content tokens model d' asked.
  destruct (save_to_history_rows uuid_of d user messages content tokens model)
    as (rows & rest & Hsplit & Hh & Hd & Hk & Hall).
  assert (Hroles : (map Db.h_role rows ++ map Db.h_role rest
                    = repeat "user" (List.length asked) ++ ["assistant"])%list).
  { rewrite <- map_app, <- Hsplit. unfold exchange_rows.
    now rewrite map_app, user_rows_role. }
  assert (Hsaid : (map Db.h_message rows ++ map Db.h_message rest
                   = map AIService.content asked ++ [content])%list).
  { rewrite <- map_app, <- Hsplit. unfold exchange_rows.
    now rewrite map_app, user_rows_message. }
  exists rows. split; [exact Hh|]. split; [|split; [|split; [|split]]].
  - pose proof (exchange_rows_owner uuid_of d user messages content tokens
                  model) as Hown.
    rewrite Hsplit in Hown. now apply Forall_app in Hown.
  - exists rest. auto.
  - intros Hs. rewrite (Hall Hs) in Hroles, Hsaid. cbn [map] in Hroles, Hsaid.
    rewrite app_nil_r in Hroles, Hsaid. auto.
  - exact Hd.
  - exact Hk.
Qed.

(** X18.  [get_history] groups the fetched rows by conversation id: no
    two returned conversations share an id, the ids returned are those of
    the fetched rows, and each conversation lists exactly the fetched rows
    of its id, in the order in which they were fetched. *)
Theorem history_groups_rows_by_conversation :
  forall (d : Db.t) (user_id : string) (limit offset : Z),
    let rows := fetch_history d user_id limit offset in
    let conversations := get_history d user_id limit offset in
    NoDup (map conversation_id conversations) /\
    (forall k, In k (map conversation_id conversations)
               <-> In k (map Db.h_conversation_id rows)) /\
    Forall (fun c => messages c
                     = map turn_of (filter (has_id (conversation_id c)) rows))
           conversations.
Proof.
  intros d user_id limit offset rows conversations.
  subst conversations. rewrite get_history_groups. fold rows.
  unfold group_rows.
  destruct (grouping_all rows) as (Hnd & Hkeys & Hall).
  assert (Hids : map conversation_id
                     (Dict.values (fold_left group_row rows []))
                 = Dict.keys (fold_left group_row rows [])).
  { unfold Dict.values, Dict.keys. rewrite map_map. apply map_ext_in.
    intros kc Hin. rewrite Forall_forall in Hall. now apply Hall. }
  rewrite Hids. split; [exact Hnd|]. split; [exact Hkeys|].
  unfold Dict.values. apply Forall_map.
  eapply Forall_impl; [|exact Hall].
  intros kc [Hid Hm]. now rewrite Hid.
Qed.

(** ** What is fetched *)

Lemma fetch_history_in d user limit offset r :
  In r (fetch_history d user limit offset) ->
  In r (Db.chat_history d) /\ Db.h_user_id r = user.
Proof.
  unfold fetch_history, select_history. intros H.
  apply SqlProps.limit_offset_in in H.
  rewrite order_by_is_sort in H.
  apply (Permutation_in _ (Ranking.sort_perm _ _)) in H.
  apply filter_In in H. destruct H as [Hin Hu].
  split; [exact Hin | now apply String.eqb_eq].
Qed.

Lemma fetch_history_length d user limit offset :
  (0 <= limit)%Z ->
  (len (fetch_history d user limit offset) <= limit)%Z.
Proof.
  intros Hl. unfold fetch_history, select_history.
  now apply SqlProps.limit_offset_length.
Qed.

(** The number of turns listed over all conversations. *)
Definition turns (conversations : list Conversation) : Z :=
  len (List.concat (map messages conversations)).

Lemma turns_update r :
  forall acc : Dict.t Conversation,
    Dict.get acc (Db.h_conversation_id r) <> None ->
    turns (Dict.values
             (Dict.update acc (Db.h_conversation_id r) (append_message r)))
    = (turns (Dict.values acc) + 1)%Z.
Proof.
  unfold turns, len, Dict.values.
  induction acc as [|[k c] acc IH]; cbn [Dict.get Dict.update]; intros H;
    [congruence|].
  destruct (String.eqb k (Db.h_conversation_id r)).
  - cbn [map snd List.concat append_message messages].
    rewrite !length_app. cbn [List.length]. lia.
  - specialize (IH H). cbn [map snd List.concat].
    rewrite !length_app. lia.
Qed.

Lemma turns_group_row acc r :
  turns (Dict.values (group_row acc r)) = (turns (Dict.values acc) + 1)%Z.
Proof.
  unfold group_row, Dict.mem.
  destruct (Dict.get acc (Db.h_conversation_id r)) eqn:Hget.
  - apply turns_update. congruence.
  - rewrite update_absent by exact Hget.
    rewrite !values_add. unfold turns, len.
    rewrite map_app, concat_app, length_app.
    cbn [map List.concat append_message messages app List.length]. lia.
Qed.

Lemma turns_group_rows rows :
  forall acc,
    turns (Dict.values (fold_left group_row rows acc))
    = (turns (Dict.values acc) + len rows)%Z.
Proof.
  induction rows as [|r rows IH]; intros acc; cbn [fold_left].
  - unfold len. cbn [List.length]. lia.
  - rewrite IH, turns_group_row. unfold len. cbn [List.length]. lia.
Qed.

Lemma history_nonempty d user limit offset :
  Forall (fun c => messages c <> []) (get_history d user limit offset).
Proof.
  rewrite get_history_groups. unfold group_rows.
  destruct (group_fold_grouped
              (fetch_history d user limit offset)
              (fetch_history_descending d user limit offset) [])
    as [_ Hgrouped].
  - constructor.
  - intros r _. constructor.
  - constructor.
  - eapply Forall_impl; [|exact Hgrouped].
    intros c [_ (m & rest & Hm & _)]. rewrite Hm. discriminate.
Qed.

Lemma turns_at_least conversations :
  Forall (fun c => messages c <> []) conversations ->
  (len conversations <= turns conversations)%Z.
Proof.
  unfold turns, len.
  induction 1 as [|c cs Hc Hcs IH]; cbn [map List.concat List.length]; [lia|].
  rewrite length_app. destruct (messages c); [congruence|].
  cbn [List.length]. lia.
Qed.

(** X19.  With a limit that is not negative, [get_history] returns at most
    [limit] turns over all its conversations together: the limit counts
    turns, not conversations. *)
Theorem history_limit_counts_turns :
  forall (d : Db.t) (user_id : string) (limit offset : Z),
    (0 <= limit)%Z ->
    (turns (get_history d user_id limit offset) <= limit)%Z /\
    (len (get_history d user_id limit offset) <= limit)%Z.
Proof.
  intros d user_id limit offset Hl.
  assert (Ht : (turns (get_history d user_id limit offset) <= limit)%Z).
  { rewrite get_history_groups. unfold group_rows.
    rewrite turns_group_rows.
    pose proof (fetch_history_length d user_id limit offset Hl).
    unfold turns, len in *. cbn [Dict.values map List.concat List.length].
    lia. }
  split; [exact Ht|].
  pose proof (turns_at_least _ (history_nonempty d user_id limit offset)).
  lia.
Qed.

(** Two users: [u1] with two conversations, [u2] with one. *)
Definition row (user conversation role message : string) (ts : Z)
  : Db.HistoryRow :=
  {| Db.h_user_id := user; Db.h_conversation_id := conversation;
     Db.h_role := role; Db.h_message := lit message; Db.h_model_used := None;
     Db.h_tokens_used := 0; Db.h_created_at := ts |}.

Definition two_users : Db.t :=
  {| Db.documents := []; Db.document_chunks := [];
     Db.chat_history := [row "u1" "conv-1" "user" "What is RAG?" 1;
                         row "u1" "conv-1" "assistant" "Retrieval first." 2;
                         row "u2" "conv-2" "user" "Hello" 3;
                         row "u2" "conv-2" "assistant" "Hi" 4;
                         row "u1" "conv-3" "user" "And chunks?" 5;
                         row "u1" "conv-3" "assistant" "Windows." 6];
     Db.chat_context := []; Db.clock := 7; Db.uuids := 3 |}.

Lemma history_limit_counts_turns_witness :
  (turns (get_history two_users "u1" 1 0) <= 1)%Z /\
  (len (get_history two_users "u1" 1 0) <= 1)%Z.
Proof. apply (history_limit_counts_turns two_users "u1" 1 0). lia. Defined.

(** X20.  Every turn that [get_history] returns is a stored row of the
    user asked for, listed under that row's conversation id. *)
Theorem history_lists_own_rows :
  forall (d : Db.t) (user_id : string) (limit offset : Z),
    Forall (fun c =>
              Forall (fun m => exists r,
                          In r (Db.chat_history d) /\
                          Db.h_user_id r = user_id /\
                          Db.h_conversation_id r = conversation_id c /\
                          m = turn_of r)
                     (messages c))
           (get_history d user_id limit offset).
Proof.
  intros d user_id limit offset. rewrite get_history_groups.
  unfold group_rows.
  destruct (grouping_all (fetch_history d user_id limit offset))
    as (_ & _ & Hall).
  unfold Dict.values. apply Forall_map.
  eapply Forall_impl; [|exact Hall].
  intros kc [Hid Hm]. rewrite Hm, Hid. apply Forall_map, Forall_forall.
  intros r Hr. apply filter_In in Hr. destruct Hr as [Hin Hk].
  apply fetch_history_in in Hin. destruct Hin as [Hin Hu].
  exists r. repeat split; try assumption.
  now apply String.eqb_eq.
Qed.

(** ** Clearing *)

Lemma filter_filter {A : Type} (p q : A -> bool) (l : list A) :
  filter p (filter q l) = filter (fun x => (q x && p x)%bool) l.
Proof.
  induction l as [|x l IH]; cbn [filter]; [reflexivity|].
  destruct (q x); cbn [filter andb]; [destruct (p x)|]; now rewrite IH.
Qed.

(** X21.  [clear_history] answers [True] and removes the rows of one
    user only: afterwards [get_history] returns nothing for that user and
    what it returned before for any other user, and the document tables
    are as they were. *)
Theorem clear_history_forgets_one_user :
  forall (d : Db.t) (user_id other : string) (limit offset : Z),
    other <> user_id ->
    fst (clear_history d user_id) = true /\
    get_history (snd (clear_history d user_id)) user_id limit offset = [] /\
    get_history (snd (clear_history d user_id)) other limit offset
      = get_history d other limit offset /\
    Db.documents (snd (clear_history d user_id)) = Db.documents d /\
    Db.document_chunks (snd (clear_history d user_id)) = Db.document_chunks d.
Proof.
  intros d user_id other limit offset Hne.
  unfold clear_history, get_history, select_history.
  cbn [fst snd Db.with_chat_history Db.chat_history Db.documents
       Db.document_chunks].
  split; [reflexivity|]. split; [|split; [|split; reflexivity]].
  - rewrite filter_filter, Ranking.filter_none.
    + rewrite limit_offset_window. cbn [order_by_created_at_desc fold_left].
      rewrite skipn_nil, firstn_nil.
      destruct (Sql.int64 limit && Sql.int64 offset); [|reflexivity].
      now destruct (limit <? 0)%Z.
    + intros r _. now destruct (String.eqb (Db.h_user_id r) user_id).
  - rewrite filter_filter.
    replace (filter (fun x => (negb (String.eqb (Db.h_user_id x) user_id)
                               && String.eqb (Db.h_user_id x) other)%bool)
                    (Db.chat_history d))
      with (filter (fun r => String.eqb (Db.h_user_id r) other)
                   (Db.chat_history d)); [reflexivity|].
    apply filter_ext. intros r.
    destruct (String.eqb_spec (Db.h_user_id r) other) as [E|_];
      [|now rewrite andb_false_r].
    rewrite andb_true_r.
    destruct (String.eqb_spec (Db.h_user_id r) user_id) as [E'|_];
      [congruence | reflexivity].
Qed.

Lemma clear_history_forgets_one_user_witness :
  get_history (snd (clear_history two_users "u1")) "u1" 50 0 = [] /\
  map conversation_id
      (get_history (snd (clear_history two_users "u1")) "u2" 50 0)
    = ["conv-2"].
Proof.
  assert (Hne : "u2" <> "u1") by discriminate.
  destruct (clear_history_forgets_one_user two_users "u1" "u2" 50 0 Hne)
    as (_ & Hgone & Hkept & _).
  split; [exact Hgone|]. rewrite Hkept. reflexivity.
Defined.

(** ** From a completion to its listing *)

Lemma single_key (keys ids : list string) (k : string) :
  NoDup keys ->
  (forall x, In x keys <-> In x ids) ->
  ids <> [] ->
  Forall (eq k) ids ->
  keys = [k].
Proof.
  intros Hnd Hiff Hne Hall. rewrite Forall_forall in Hall.
  assert (Hk : forall x, In x keys -> x = k).
  { intros x Hx. symmetry. now apply Hall, Hiff. }
  destruct ids as [|i ids]; [congruence|].
  assert (Hin : In k keys).
  { apply Hiff. left. symmetry. apply Hall. now left. }
  destruct keys as [|a keys]; [destruct Hin|].
  assert (a = k) by (apply Hk; now left). subst a.
  destruct keys as [|b keys]; [reflexivity|].
  assert (b = k) by (apply Hk; right; now left). subst b.
  inversion Hnd as [|? ? Hnot _]; subst. elim Hnot. now left.
Qed.

(** Rows of one conversation make one conversation. *)
Lemma group_rows_single rows k :
  rows <> [] ->
  Forall (fun r => Db.h_conversation_id r = k) rows ->
  exists c,
    group_rows rows = [c] /\ conversation_id c = k /\
    messages c = map turn_of rows.
Proof.
  intros Hne Hk. unfold group_rows.
  destruct (grouping_all rows) as (Hnd & Hkeys & Hall).
  assert (Hone : Dict.keys (fold_left group_row rows []) = [k]).
  { apply (single_key _ (map Db.h_conversation_id rows)); auto.
    - destruct rows; [congruence | discriminate].
    - apply Forall_map. eapply Forall_impl; [|exact Hk]. now intros r <-. }
  destruct (fold_left group_row rows []) as [|[k' c] [|kc acc]];
    try discriminate.
  cbn [Dict.keys map fst] in Hone. injection Hone as ->.
  inversion Hall as [|? ? [Hid Hm] _]; subst. cbn [fst snd] in *.
  exists c. split; [reflexivity|]. split; [exact Hid|].
  rewrite Hm, IngestionMore.filter_all_true; [reflexivity|].
  eapply Forall_impl; [|exact Hk].
  intros r <-. unfold has_id. apply String.eqb_refl.
Qed.

Definition said (m : HistoryMessage) : string * str :=
  (msg_role m, msg_content m).

Lemma exchange_rows_said uuid_of d user messages content tokens model :
  map said
      (map turn_of
           (exchange_rows uuid_of d user messages content tokens model))
  = (map (fun m => ("user", AIService.content m)) (filter is_user messages)
       ++ [("assistant", content)])%list.
Proof.
  unfold exchange_rows. rewrite !map_app. f_equal.
  generalize (Db.clock d).
  induction messages as [|m rest IH]; intros t; cbn [user_rows filter];
    [reflexivity|].
  destruct (is_user m); cbn [map]; now rewrite IH.
Qed.

Lemma exchange_rows_length uuid_of d user messages content tokens model :
  List.length (exchange_rows uuid_of d user messages content tokens model)
  = S (List.length (filter is_user messages)).
Proof.
  unfold exchange_rows. rewrite length_app, user_rows_length.
  cbn [List.length]. lia.
Qed.

(** X22.  A completion saved for a user without earlier history, every
    value of which can be stored, is what [get_history] then returns for
    that user when the limit is within the 64-bit range and does not cut
    it: one conversation, under the conversation id drawn for the call,
    whose turns are the assistant's answer and the messages of role
    ["user"]. *)
Theorem completion_is_listed_in_history :
  forall (uuid_of : nat -> string)
         (chat_completion :
            list AIService.Message -> AIService.Kwargs ->
            result AIService.Envelope)
         (d d' : Db.t) (messages : list AIService.Message)
         (kwargs : AIService.Kwargs) (user_id : string)
         (response : AIService.Envelope) (limit : Z),
    user_id <> "" ->
    (forall r, In r (Db.chat_history d) -> Db.h_user_id r <> user_id) ->
    create_completion uuid_of chat_completion d messages kwargs (Some user_id)
      = (d', Ok response) ->
    storable messages (AIService.env_content response)
             (AIService.total_tokens response) ->
    (- 2 ^ 63 <= limit < 0 \/
     len (filter is_user messages) < limit < 2 ^ 63)%Z ->
    exists c,
      get_history d' user_id limit 0 = [c] /\
      conversation_id c = uuid_of (Db.uuids d) /\
      Permutation
        (map said (ChatService.messages c))
        (map (fun m => ("user", AIService.content m))
             (filter is_user messages)
           ++ [("assistant", AIService.env_content response)])%list.
Proof.
  intros uuid_of chat_completion d d' msgs kwargs user_id response limit
         Huser Hnew Hrun Hstore Hlimit.
  unfold create_completion in Hrun.
  destruct (chat_completion msgs kwargs) as [resp| |]; try discriminate.
  destruct user_id as [|a u]; [congruence|].
  injection Hrun as <- <-.
  unfold get_history, select_history.
  rewrite save_to_history_all by exact Hstore. rewrite filter_app.
  rewrite Ranking.filter_none.
  2:{ intros r Hr. apply String.eqb_neq. now apply Hnew. }
  cbn [app].
  set (rows := exchange_rows uuid_of d (String a u) msgs
                 (AIService.env_content resp) (AIService.total_tokens resp)
                 (AIService.model kwargs)).
  pose proof (exchange_rows_owner uuid_of d (String a u) msgs
                (AIService.env_content resp) (AIService.total_tokens resp)
                (AIService.model kwargs)) as Hown. fold rows in Hown.
  pose proof (exchange_rows_length uuid_of d (String a u) msgs
                (AIService.env_content resp) (AIService.total_tokens resp)
                (AIService.model kwargs)) as Hlen. fold rows in Hlen.
  rewrite IngestionMore.filter_all_true.
  2:{ eapply Forall_impl; [|exact Hown]. intros r [-> _].
      apply String.eqb_refl. }
  rewrite order_by_is_sort.
  pose proof (Ranking.sort_perm ahead rows) as Hperm.
  set (sorted := Ranking.sort ahead rows) in *.
  assert (Hall : Sql.limit_offset limit 0 sorted = Ok sorted).
  { rewrite limit_offset_window.
    assert (Hin : Sql.int64 limit = true)
      by (apply SqlProps.int64_range; unfold len in Hlimit; lia).
    rewrite Hin. change (Sql.int64 0) with true. cbn [andb Z.to_nat skipn].
    destruct (Z.ltb_spec limit 0) as [|Hpos]; [reflexivity|].
    f_equal. apply firstn_all2. rewrite (Permutation_length Hperm), Hlen.
    unfold len in Hlimit. lia. }
  rewrite Hall.
  destruct (group_rows_single sorted (uuid_of (Db.uuids d)))
    as (c & Hc & Hid & Hm).
  - intros E. rewrite E in Hperm. apply Permutation_nil in Hperm.
    rewrite Hperm in Hlen. discriminate.
  - rewrite Forall_forall in *. intros r Hr.
    apply (Permutation_in _ Hperm) in Hr. now apply Hown.
  - exists c. split; [exact Hc|]. split; [exact Hid|].
    rewrite Hm. rewrite <- exchange_rows_said with (uuid_of := uuid_of)
      (d := d) (user := String a u) (tokens := AIService.total_tokens resp)
      (model := AIService.model kwargs).
    fold rows. now apply Permutation_map, Permutation_map.
Qed.

Lemma completion_is_listed_in_history_witness :
  exists c,
    get_history
      (fst (create_completion StreamProps.uuid_letter
              (AIService.chat_completion StreamProps.echo_engine)
              StreamProps.empty_db StreamProps.sample_messages
              StreamProps.sample_kwargs (Some "u1")))
      "u1" 50 0 = [c] /\
    conversation_id c = "uuid-a" /\
    Permutation (map said (messages c))
                [("user", lit "Say hello"); ("assistant", lit "Hello, world")].
Proof.
  assert (Huser : "u1" <> "") by discriminate.
  assert (Hnew : forall r, In r (Db.chat_history StreamProps.empty_db) ->
                           Db.h_user_id r <> "u1") by (intros r []).
  assert (Hstore : storable StreamProps.sample_messages (lit "Hello, world") 6).
  { repeat split; try reflexivity. repeat constructor. }
  assert (Hlimit : (- 2 ^ 63 <= 50 < 0 \/
                    len (filter is_user StreamProps.sample_messages) < 50
                    < 2 ^ 63)%Z)
    by (right; split; reflexivity).
  exact (completion_is_listed_in_history StreamProps.uuid_letter
           (AIService.chat_completion StreamProps.echo_engine)
           StreamProps.empty_db _ StreamProps.sample_messages
           StreamProps.sample_kwargs "u1" _ 50 Huser Hnew eq_refl Hstore
           Hlimit).
Defined.

End HistoryMore.

(** * Further properties of streaming and prompts *)

Module StreamMore.

Import ChatService.

Local Open Scope string_scope.

(** X23.  What [stream_completion] stores for a signed-in user once the
    stream is over, where [json.loads] can enter four nested containers
    and every delta is a Python string without a high surrogate directly
    before a low one.  The frames handed on are one per delta and the
    end marker, and the accumulated text is the concatenation of the
    deltas.  Nothing is stored when that text is empty; otherwise, when
    the user messages and the text hold no surrogate, one exchange is
    stored whose assistant row carries the text and a token count of
    0. *)
Theorem stream_stores_joined_deltas :
  forall (uuid_of : nat -> string) (engine : AIService.Engine) (room : nat)
         (d : Db.t) (messages : list AIService.Message)
         (kwargs : AIService.Kwargs) (a : ascii) (u : string),
    let deltas := AIService.stream_generate
                    engine (AIService.format_messages messages) kwargs in
    (4 <= room)%nat ->
    Forall StreamProps.decodable deltas ->
    exists run,
      stream_completion uuid_of (AIService.stream_chat_completion engine)
        room d messages kwargs (Some (String a u)) = Ok run /\
      yielded run
      = (map AIService.frame deltas ++ [AIService.done_frame])%list /\
      full_response run = List.concat deltas /\
      match List.concat deltas with
      | [] => history run = d
      | text =>
          HistoryMore.storable messages text 0 ->
          Db.chat_history (history run)
          = (Db.chat_history d
               ++ HistoryMore.exchange_rows uuid_of d (String a u) messages
                    text 0 (AIService.model kwargs))%list
      end.
Proof.
  intros uuid_of engine room d messages kwargs a u deltas Hroom Hdeltas.
  destruct (StreamProps.stream_completion_buffer uuid_of engine room d
              messages kwargs (Some (String a u)) Hroom Hdeltas)
    as (run & Hrun & Hyield & Hfull & Hhist).
  fold deltas in Hfull. exists run. split; [exact Hrun|].
  split; [exact Hyield|]. split; [exact Hfull|].
  rewrite Hfull in Hhist.
  destruct (List.concat deltas) as [|c text]; [exact Hhist|].
  intros Hstore. rewrite Hhist.
  now apply HistoryMore.save_to_history_all.
Qed.

Lemma stream_stores_joined_deltas_witness :
  exists run,
    stream_completion StreamProps.uuid_letter
      (AIService.stream_chat_completion StreamProps.echo_engine) 4
      StreamProps.empty_db StreamProps.sample_messages
      StreamProps.sample_kwargs (Some "u1") = Ok run /\
    full_response run = lit "Hello, world" /\
    map Db.h_message (Db.chat_history (history run))
    = [lit "Say hello"; lit "Hello, world"].
Proof.
  assert (Hroom : (4 <= 4)%nat) by lia.
  assert (Hdeltas : Forall StreamProps.decodable
                      (AIService.stream_generate StreamProps.echo_engine
                         (AIService.format_messages
                            StreamProps.sample_messages)
                         StreamProps.sample_kwargs)).
  { repeat constructor; apply StreamProps.decodable_literal; reflexivity. }
  destruct (stream_stores_joined_deltas StreamProps.uuid_letter
              StreamProps.echo_engine 4 StreamProps.empty_db
              StreamProps.sample_messages StreamProps.sample_kwargs
              "u"%char "1" Hroom Hdeltas)
    as (run & Hrun & _ & Hfull & Hstored).
  exists run. split; [exact Hrun|]. split; [rewrite Hfull; reflexivity|].
  cbn in Hstored. rewrite Hstored; [reflexivity|].
  repeat split; try reflexivity. repeat constructor.
Defined.

(** ** Frames *)

(** A raw line feed or carriage return ends a line of an event stream. *)
Definition line_break (c : N) : bool := (N.eqb c 10 || N.eqb c 13)%bool.

Definition one_line (s : str) : bool :=
  forallb (fun c => negb (line_break c)) s.

Lemma one_line_app (a b : str) :
  one_line (a ++ b)%list = (one_line a && one_line b)%bool.
Proof. apply forallb_app. Qed.

Lemma hex_digit_one_line (n : N) : line_break (Json.hex_digit n) = false.
Proof.
  unfold line_break, Json.hex_digit. apply orb_false_iff.
  destruct (N.ltb_spec n 10); split; apply N.eqb_neq; lia.
Qed.

Lemma u_escape_one_line (n : N) : one_line (Json.u_escape n) = true.
Proof.
  unfold Json.u_escape, one_line. cbn [forallb].
  rewrite !hex_digit_one_line. reflexivity.
Qed.

Lemma escape_char_one_line (c : N) : one_line (Json.escape_char c) = true.
Proof.
  unfold Json.escape_char.
  repeat match goal with
         | |- context [N.eqb c ?k] =>
             destruct (N.eqb_spec c k); [reflexivity|]
         end.
  destruct ((32 <=? c)%N && (c <=? 126)%N) eqn:Hprint.
  { apply andb_true_iff in Hprint. destruct Hprint as [Hlo _].
    apply N.leb_le in Hlo. unfold one_line, line_break. cbn [forallb].
    rewrite andb_true_r. apply negb_true_iff, orb_false_iff.
    split; apply N.eqb_neq; lia. }
  destruct (c <? 0x10000)%N; [apply u_escape_one_line|].
  now rewrite one_line_app, !u_escape_one_line.
Qed.

Lemma escape_one_line (s : str) : one_line (Json.escape s) = true.
Proof.
  unfold Json.escape.
  induction s as [|c s IH]; cbn [flat_map]; [reflexivity|].
  now rewrite one_line_app, escape_char_one_line, IH.
Qed.

Lemma delta_one_line (chunk : str) :
  one_line (Json.dumps (AIService.delta chunk)) = true.
Proof.
  unfold AIService.delta.
  rewrite StreamProps.dumps_object_one, StreamProps.dumps_array_one,
    !StreamProps.dumps_object_one.
  cbn [Json.dumps]. unfold Json.dumps_string.
  repeat first [ rewrite one_line_app
               | rewrite escape_one_line
               | progress cbn [one_line forallb app andb] ].
  unfold one_line. cbn [forallb app].
  repeat first [ rewrite forallb_app
               | rewrite escape_one_line
               | progress cbn [forallb andb] ].
  reflexivity.
Qed.

(** X24.  Every frame that [stream_chat_completion] yields is one event
    of the stream: the text [data: ], a body without a raw line feed or
    carriage return whatever the delta contains, and a blank line. *)
Theorem frames_are_single_events :
  forall (engine : AIService.Engine) (messages : list AIService.Message)
         (kwargs : AIService.Kwargs),
    Forall (fun f => exists body,
                f = (lit "data: " ++ body ++ AIService.newline
                       ++ AIService.newline)%list
                /\ one_line body = true)
           (AIService.stream_chat_completion engine messages kwargs).
Proof.
  intros engine messages kwargs. unfold AIService.stream_chat_completion.
  apply Forall_app. split.
  - apply Forall_map, Forall_forall. intros chunk _.
    exists (Json.dumps (AIService.delta chunk)).
    split; [reflexivity | apply delta_one_line].
  - constructor; [|constructor]. exists (lit "[DONE]"). split; reflexivity.
Qed.

(** ** Prompts *)

Definition known_role (m : AIService.Message) : bool :=
  (String.eqb (AIService.role m) "system"
   || String.eqb (AIService.role m) "user"
   || String.eqb (AIService.role m) "assistant")%bool.

(** X25.  [_format_messages] passes over a message whose role is none of
    ["system"], ["user"] and ["assistant"]: the prompt is the one built
    without such messages. *)
Theorem prompt_ignores_unknown_roles :
  forall messages : list AIService.Message,
    AIService.format_messages messages
    = AIService.format_messages (filter known_role messages).
Proof.
  intros messages. unfold AIService.format_messages. do 2 f_equal.
  induction messages as [|m rest IH]; cbn [flat_map filter]; [reflexivity|].
  unfold known_role at 1, AIService.format_message at 1.
  destruct (String.eqb (AIService.role m) "system") eqn:Hs;
    [cbn [orb flat_map]; unfold AIService.format_message at 2;
     rewrite Hs; now rewrite IH|].
  destruct (String.eqb (AIService.role m) "user") eqn:Hu;
    [cbn [orb flat_map]; unfold AIService.format_message at 2;
     rewrite Hs, Hu; now rewrite IH|].
  destruct (String.eqb (AIService.role m) "assistant") eqn:Ha;
    [cbn [orb flat_map]; unfold AIService.format_message at 2;
     rewrite Hs, Hu, Ha; now rewrite IH|].
  cbn [orb app]. exact IH.
Qed.

End StreamMore.
